(** * DealHunt: the Reddit post parser (backend/src/services/reddit/parser.ts)

    A shallow embedding of the extraction pipeline of [parser.ts]: the
    price, discount, URL, store, category and title functions, the image
    resolver and the orchestrator [parseRedditPost], together with the part
    of the JavaScript runtime they rely on (strings of UTF-16 code units,
    binary64 numbers, backtracking regular expressions). *)

From Stdlib Require Import String Ascii List NArith ZArith Bool Lia.
From Stdlib Require Import Floats.SpecFloat.
Import ListNotations.

Set Implicit Arguments.

(* ================================================================= *)
(** ** Strings *)

(** A JavaScript string is a sequence of UTF-16 code units. *)
Module JS.

Definition jsstring := list N.

(** An ASCII literal as a string. *)
Definition lit (s : string) : jsstring :=
  map N_of_ascii (list_ascii_of_string s).

Definition ch (a : ascii) : N := N_of_ascii a.

Arguments lit s%_string.
Arguments ch a%_char.

Definition between (lo hi c : N) : bool := (lo <=? c)%N && (c <=? hi)%N.

(** WhiteSpace and LineTerminator code units: the set of [\s] and of
    [String.prototype.trim]. *)
Definition is_space (c : N) : bool :=
  between 9 13 c || (c =? 32)%N || (c =? 0xA0)%N || (c =? 0x1680)%N
  || between 0x2000 0x200A c || (c =? 0x2028)%N || (c =? 0x2029)%N
  || (c =? 0x202F)%N || (c =? 0x205F)%N || (c =? 0x3000)%N || (c =? 0xFEFF)%N.

Definition is_line_terminator (c : N) : bool :=
  (c =? 10)%N || (c =? 13)%N || (c =? 0x2028)%N || (c =? 0x2029)%N.

Definition is_digit (c : N) : bool := between 0x30 0x39 c.

Fixpoint trimStart (s : jsstring) : jsstring :=
  match s with
  | c :: t => if is_space c then trimStart t else s
  | [] => []
  end.

Definition trimEnd (s : jsstring) : jsstring := rev (trimStart (rev s)).

Definition trim (s : jsstring) : jsstring := trimEnd (trimStart s).

Fixpoint startsWith (p s : jsstring) : bool :=
  match p, s with
  | [], _ => true
  | a :: p', b :: s' => (a =? b)%N && startsWith p' s'
  | _ :: _, [] => false
  end.

(** [s.includes(p)] *)
Fixpoint includes (p s : jsstring) : bool :=
  startsWith p s ||
  match s with
  | [] => false
  | _ :: t => includes p t
  end.

(** [s.slice(0, n)] and [s.slice(1)] for in-range non-negative arguments. *)
Definition slice_to (n : nat) (s : jsstring) : jsstring := firstn n s.
Definition slice_from (n : nat) (s : jsstring) : jsstring := skipn n s.

Definition charAt0 (s : jsstring) : jsstring := firstn 1 s.

(** Truthiness of a string. *)
Definition truthy_str (s : jsstring) : bool :=
  match s with [] => false | _ => true end.

(** [StringToCodePoints] and its inverse: a well-formed surrogate pair is
    one code point, any other code unit stands for itself. *)
Definition is_high (c : N) : bool := between 0xD800 0xDBFF c.
Definition is_low (c : N) : bool := between 0xDC00 0xDFFF c.

Fixpoint code_points (s : jsstring) : list N :=
  match s with
  | [] => []
  | c :: t =>
      match t with
      | d :: t' =>
          if is_high c && is_low d
          then (0x10000 + (c - 0xD800) * 0x400 + (d - 0xDC00))%N :: code_points t'
          else c :: code_points t
      | [] => [c]
      end
  end.

Definition code_units_of (cp : N) : jsstring :=
  (if 0x10000 <=? cp
   then [0xD800 + (cp - 0x10000) / 0x400; 0xDC00 + (cp - 0x10000) mod 0x400]
   else [cp])%N.

Definition code_units (cps : list N) : jsstring := flat_map code_units_of cps.

(** Upper case.  The mapping is the host's, not the repository's: the
    Default Case Conversion of Unicode 14.0, that is the simple upper-case
    mappings of [UnicodeData.txt] together with the unconditional mappings of
    [SpecialCasing.txt] to more than one code point.

    A row [(first, last, step, upper)] of [upper_ranges] stands for the code
    points [first], [first + step], ..., [last], the upper case of
    [first + k] being [upper + k].  The rows are in increasing order and do
    not overlap. *)
Definition upper_ranges : list (N * N * N * N) :=
  [
    (0x61, 0x7A, 1, 0x41); (0xB5, 0xB5, 1, 0x39C); (0xE0, 0xF6, 1, 0xC0);
    (0xF8, 0xFE, 1, 0xD8); (0xFF, 0xFF, 1, 0x178); (0x101, 0x12F, 2, 0x100);
    (0x131, 0x131, 1, 0x49); (0x133, 0x137, 2, 0x132);
    (0x13A, 0x148, 2, 0x139); (0x14B, 0x177, 2, 0x14A);
    (0x17A, 0x17E, 2, 0x179); (0x17F, 0x17F, 1, 0x53);
    (0x180, 0x180, 1, 0x243); (0x183, 0x185, 2, 0x182);
    (0x188, 0x188, 1, 0x187); (0x18C, 0x18C, 1, 0x18B);
    (0x192, 0x192, 1, 0x191); (0x195, 0x195, 1, 0x1F6);
    (0x199, 0x199, 1, 0x198); (0x19A, 0x19A, 1, 0x23D);
    (0x19E, 0x19E, 1, 0x220); (0x1A1, 0x1A5, 2, 0x1A0);
    (0x1A8, 0x1A8, 1, 0x1A7); (0x1AD, 0x1AD, 1, 0x1AC);
    (0x1B0, 0x1B0, 1, 0x1AF); (0x1B4, 0x1B6, 2, 0x1B3);
    (0x1B9, 0x1B9, 1, 0x1B8); (0x1BD, 0x1BD, 1, 0x1BC);
    (0x1BF, 0x1BF, 1, 0x1F7); (0x1C5, 0x1C5, 1, 0x1C4);
    (0x1C6, 0x1C6, 1, 0x1C4); (0x1C8, 0x1C8, 1, 0x1C7);
    (0x1C9, 0x1C9, 1, 0x1C7); (0x1CB, 0x1CB, 1, 0x1CA);
    (0x1CC, 0x1CC, 1, 0x1CA); (0x1CE, 0x1DC, 2, 0x1CD);
    (0x1DD, 0x1DD, 1, 0x18E); (0x1DF, 0x1EF, 2, 0x1DE);
    (0x1F2, 0x1F2, 1, 0x1F1); (0x1F3, 0x1F3, 1, 0x1F1);
    (0x1F5, 0x1F5, 1, 0x1F4); (0x1F9, 0x21F, 2, 0x1F8);
    (0x223, 0x233, 2, 0x222); (0x23C, 0x23C, 1, 0x23B);
    (0x23F, 0x240, 1, 0x2C7E); (0x242, 0x242, 1, 0x241);
    (0x247, 0x24F, 2, 0x246); (0x250, 0x250, 1, 0x2C6F);
    (0x251, 0x251, 1, 0x2C6D); (0x252, 0x252, 1, 0x2C70);
    (0x253, 0x253, 1, 0x181); (0x254, 0x254, 1, 0x186);
    (0x256, 0x257, 1, 0x189); (0x259, 0x259, 1, 0x18F);
    (0x25B, 0x25B, 1, 0x190); (0x25C, 0x25C, 1, 0xA7AB);
    (0x260, 0x260, 1, 0x193); (0x261, 0x261, 1, 0xA7AC);
    (0x263, 0x263, 1, 0x194); (0x265, 0x265, 1, 0xA78D);
    (0x266, 0x266, 1, 0xA7AA); (0x268, 0x268, 1, 0x197);
    (0x269, 0x269, 1, 0x196); (0x26A, 0x26A, 1, 0xA7AE);
    (0x26B, 0x26B, 1, 0x2C62); (0x26C, 0x26C, 1, 0xA7AD);
    (0x26F, 0x26F, 1, 0x19C); (0x271, 0x271, 1, 0x2C6E);
    (0x272, 0x272, 1, 0x19D); (0x275, 0x275, 1, 0x19F);
    (0x27D, 0x27D, 1, 0x2C64); (0x280, 0x280, 1, 0x1A6);
    (0x282, 0x282, 1, 0xA7C5); (0x283, 0x283, 1, 0x1A9);
    (0x287, 0x287, 1, 0xA7B1); (0x288, 0x288, 1, 0x1AE);
    (0x289, 0x289, 1, 0x244); (0x28A, 0x28B, 1, 0x1B1);
    (0x28C, 0x28C, 1, 0x245); (0x292, 0x292, 1, 0x1B7);
    (0x29D, 0x29D, 1, 0xA7B2); (0x29E, 0x29E, 1, 0xA7B0);
    (0x345, 0x345, 1, 0x399); (0x371, 0x373, 2, 0x370);
    (0x377, 0x377, 1, 0x376); (0x37B, 0x37D, 1, 0x3FD);
    (0x3AC, 0x3AC, 1, 0x386); (0x3AD, 0x3AF, 1, 0x388);
    (0x3B1, 0x3C1, 1, 0x391); (0x3C2, 0x3C2, 1, 0x3A3);
    (0x3C3, 0x3CB, 1, 0x3A3); (0x3CC, 0x3CC, 1, 0x38C);
    (0x3CD, 0x3CE, 1, 0x38E); (0x3D0, 0x3D0, 1, 0x392);
    (0x3D1, 0x3D1, 1, 0x398); (0x3D5, 0x3D5, 1, 0x3A6);
    (0x3D6, 0x3D6, 1, 0x3A0); (0x3D7, 0x3D7, 1, 0x3CF);
    (0x3D9, 0x3EF, 2, 0x3D8); (0x3F0, 0x3F0, 1, 0x39A);
    (0x3F1, 0x3F1, 1, 0x3A1); (0x3F2, 0x3F2, 1, 0x3F9);
    (0x3F3, 0x3F3, 1, 0x37F); (0x3F5, 0x3F5, 1, 0x395);
    (0x3F8, 0x3F8, 1, 0x3F7); (0x3FB, 0x3FB, 1, 0x3FA);
    (0x430, 0x44F, 1, 0x410); (0x450, 0x45F, 1, 0x400);
    (0x461, 0x481, 2, 0x460); (0x48B, 0x4BF, 2, 0x48A);
    (0x4C2, 0x4CE, 2, 0x4C1); (0x4CF, 0x4CF, 1, 0x4C0);
    (0x4D1, 0x52F, 2, 0x4D0); (0x561, 0x586, 1, 0x531);
    (0x10D0, 0x10FA, 1, 0x1C90); (0x10FD, 0x10FF, 1, 0x1CBD);
    (0x13F8, 0x13FD, 1, 0x13F0); (0x1C80, 0x1C80, 1, 0x412);
    (0x1C81, 0x1C81, 1, 0x414); (0x1C82, 0x1C82, 1, 0x41E);
    (0x1C83, 0x1C84, 1, 0x421); (0x1C85, 0x1C85, 1, 0x422);
    (0x1C86, 0x1C86, 1, 0x42A); (0x1C87, 0x1C87, 1, 0x462);
    (0x1C88, 0x1C88, 1, 0xA64A); (0x1D79, 0x1D79, 1, 0xA77D);
    (0x1D7D, 0x1D7D, 1, 0x2C63); (0x1D8E, 0x1D8E, 1, 0xA7C6);
    (0x1E01, 0x1E95, 2, 0x1E00); (0x1E9B, 0x1E9B, 1, 0x1E60);
    (0x1EA1, 0x1EFF, 2, 0x1EA0); (0x1F00, 0x1F07, 1, 0x1F08);
    (0x1F10, 0x1F15, 1, 0x1F18); (0x1F20, 0x1F27, 1, 0x1F28);
    (0x1F30, 0x1F37, 1, 0x1F38); (0x1F40, 0x1F45, 1, 0x1F48);
    (0x1F51, 0x1F57, 2, 0x1F59); (0x1F60, 0x1F67, 1, 0x1F68);
    (0x1F70, 0x1F71, 1, 0x1FBA); (0x1F72, 0x1F75, 1, 0x1FC8);
    (0x1F76, 0x1F77, 1, 0x1FDA); (0x1F78, 0x1F79, 1, 0x1FF8);
    (0x1F7A, 0x1F7B, 1, 0x1FEA); (0x1F7C, 0x1F7D, 1, 0x1FFA);
    (0x1FB0, 0x1FB1, 1, 0x1FB8); (0x1FBE, 0x1FBE, 1, 0x399);
    (0x1FD0, 0x1FD1, 1, 0x1FD8); (0x1FE0, 0x1FE1, 1, 0x1FE8);
    (0x1FE5, 0x1FE5, 1, 0x1FEC); (0x214E, 0x214E, 1, 0x2132);
    (0x2170, 0x217F, 1, 0x2160); (0x2184, 0x2184, 1, 0x2183);
    (0x24D0, 0x24E9, 1, 0x24B6); (0x2C30, 0x2C5F, 1, 0x2C00);
    (0x2C61, 0x2C61, 1, 0x2C60); (0x2C65, 0x2C65, 1, 0x23A);
    (0x2C66, 0x2C66, 1, 0x23E); (0x2C68, 0x2C6C, 2, 0x2C67);
    (0x2C73, 0x2C73, 1, 0x2C72); (0x2C76, 0x2C76, 1, 0x2C75);
    (0x2C81, 0x2CE3, 2, 0x2C80); (0x2CEC, 0x2CEE, 2, 0x2CEB);
    (0x2CF3, 0x2CF3, 1, 0x2CF2); (0x2D00, 0x2D25, 1, 0x10A0);
    (0x2D27, 0x2D27, 1, 0x10C7); (0x2D2D, 0x2D2D, 1, 0x10CD);
    (0xA641, 0xA66D, 2, 0xA640); (0xA681, 0xA69B, 2, 0xA680);
    (0xA723, 0xA72F, 2, 0xA722); (0xA733, 0xA76F, 2, 0xA732);
    (0xA77A, 0xA77C, 2, 0xA779); (0xA77F, 0xA787, 2, 0xA77E);
    (0xA78C, 0xA78C, 1, 0xA78B); (0xA791, 0xA793, 2, 0xA790);
    (0xA794, 0xA794, 1, 0xA7C4); (0xA797, 0xA7A9, 2, 0xA796);
    (0xA7B5, 0xA7C3, 2, 0xA7B4); (0xA7C8, 0xA7CA, 2, 0xA7C7);
    (0xA7D1, 0xA7D1, 1, 0xA7D0); (0xA7D7, 0xA7D9, 2, 0xA7D6);
    (0xA7F6, 0xA7F6, 1, 0xA7F5); (0xAB53, 0xAB53, 1, 0xA7B3);
    (0xAB70, 0xABBF, 1, 0x13A0); (0xFF41, 0xFF5A, 1, 0xFF21);
    (0x10428, 0x1044F, 1, 0x10400); (0x104D8, 0x104FB, 1, 0x104B0);
    (0x10597, 0x105A1, 1, 0x10570); (0x105A3, 0x105B1, 1, 0x1057C);
    (0x105B3, 0x105B9, 1, 0x1058C); (0x105BB, 0x105BC, 1, 0x10594);
    (0x10CC0, 0x10CF2, 1, 0x10C80); (0x118C0, 0x118DF, 1, 0x118A0);
    (0x16E60, 0x16E7F, 1, 0x16E40); (0x1E922, 0x1E943, 1, 0x1E900)
  ]%N.

(** The code points whose upper case is more than one code point, in
    increasing order. *)
Definition upper_special : list (N * list N) :=
  [
    (0xDF, [0x53; 0x53]); (0x149, [0x2BC; 0x4E]); (0x1F0, [0x4A; 0x30C]);
    (0x390, [0x399; 0x308; 0x301]); (0x3B0, [0x3A5; 0x308; 0x301]);
    (0x587, [0x535; 0x552]); (0x1E96, [0x48; 0x331]); (0x1E97, [0x54; 0x308]);
    (0x1E98, [0x57; 0x30A]); (0x1E99, [0x59; 0x30A]); (0x1E9A, [0x41; 0x2BE]);
    (0x1F50, [0x3A5; 0x313]); (0x1F52, [0x3A5; 0x313; 0x300]);
    (0x1F54, [0x3A5; 0x313; 0x301]); (0x1F56, [0x3A5; 0x313; 0x342]);
    (0x1F80, [0x1F08; 0x399]); (0x1F81, [0x1F09; 0x399]);
    (0x1F82, [0x1F0A; 0x399]); (0x1F83, [0x1F0B; 0x399]);
    (0x1F84, [0x1F0C; 0x399]); (0x1F85, [0x1F0D; 0x399]);
    (0x1F86, [0x1F0E; 0x399]); (0x1F87, [0x1F0F; 0x399]);
    (0x1F88, [0x1F08; 0x399]); (0x1F89, [0x1F09; 0x399]);
    (0x1F8A, [0x1F0A; 0x399]); (0x1F8B, [0x1F0B; 0x399]);
    (0x1F8C, [0x1F0C; 0x399]); (0x1F8D, [0x1F0D; 0x399]);
    (0x1F8E, [0x1F0E; 0x399]); (0x1F8F, [0x1F0F; 0x399]);
    (0x1F90, [0x1F28; 0x399]); (0x1F91, [0x1F29; 0x399]);
    (0x1F92, [0x1F2A; 0x399]); (0x1F93, [0x1F2B; 0x399]);
    (0x1F94, [0x1F2C; 0x399]); (0x1F95, [0x1F2D; 0x399]);
    (0x1F96, [0x1F2E; 0x399]); (0x1F97, [0x1F2F; 0x399]);
    (0x1F98, [0x1F28; 0x399]); (0x1F99, [0x1F29; 0x399]);
    (0x1F9A, [0x1F2A; 0x399]); (0x1F9B, [0x1F2B; 0x399]);
    (0x1F9C, [0x1F2C; 0x399]); (0x1F9D, [0x1F2D; 0x399]);
    (0x1F9E, [0x1F2E; 0x399]); (0x1F9F, [0x1F2F; 0x399]);
    (0x1FA0, [0x1F68; 0x399]); (0x1FA1, [0x1F69; 0x399]);
    (0x1FA2, [0x1F6A; 0x399]); (0x1FA3, [0x1F6B; 0x399]);
    (0x1FA4, [0x1F6C; 0x399]); (0x1FA5, [0x1F6D; 0x399]);
    (0x1FA6, [0x1F6E; 0x399]); (0x1FA7, [0x1F6F; 0x399]);
    (0x1FA8, [0x1F68; 0x399]); (0x1FA9, [0x1F69; 0x399]);
    (0x1FAA, [0x1F6A; 0x399]); (0x1FAB, [0x1F6B; 0x399]);
    (0x1FAC, [0x1F6C; 0x399]); (0x1FAD, [0x1F6D; 0x399]);
    (0x1FAE, [0x1F6E; 0x399]); (0x1FAF, [0x1F6F; 0x399]);
    (0x1FB2, [0x1FBA; 0x399]); (0x1FB3, [0x391; 0x399]);
    (0x1FB4, [0x386; 0x399]); (0x1FB6, [0x391; 0x342]);
    (0x1FB7, [0x391; 0x342; 0x399]); (0x1FBC, [0x391; 0x399]);
    (0x1FC2, [0x1FCA; 0x399]); (0x1FC3, [0x397; 0x399]);
    (0x1FC4, [0x389; 0x399]); (0x1FC6, [0x397; 0x342]);
    (0x1FC7, [0x397; 0x342; 0x399]); (0x1FCC, [0x397; 0x399]);
    (0x1FD2, [0x399; 0x308; 0x300]); (0x1FD3, [0x399; 0x308; 0x301]);
    (0x1FD6, [0x399; 0x342]); (0x1FD7, [0x399; 0x308; 0x342]);
    (0x1FE2, [0x3A5; 0x308; 0x300]); (0x1FE3, [0x3A5; 0x308; 0x301]);
    (0x1FE4, [0x3A1; 0x313]); (0x1FE6, [0x3A5; 0x342]);
    (0x1FE7, [0x3A5; 0x308; 0x342]); (0x1FF2, [0x1FFA; 0x399]);
    (0x1FF3, [0x3A9; 0x399]); (0x1FF4, [0x38F; 0x399]);
    (0x1FF6, [0x3A9; 0x342]); (0x1FF7, [0x3A9; 0x342; 0x399]);
    (0x1FFC, [0x3A9; 0x399]); (0xFB00, [0x46; 0x46]); (0xFB01, [0x46; 0x49]);
    (0xFB02, [0x46; 0x4C]); (0xFB03, [0x46; 0x46; 0x49]);
    (0xFB04, [0x46; 0x46; 0x4C]); (0xFB05, [0x53; 0x54]);
    (0xFB06, [0x53; 0x54]); (0xFB13, [0x544; 0x546]);
    (0xFB14, [0x544; 0x535]); (0xFB15, [0x544; 0x53B]);
    (0xFB16, [0x54E; 0x546]); (0xFB17, [0x544; 0x53D])
  ]%N.

Fixpoint upper_simple (ranges : list (N * N * N * N)) (cp : N) : option N :=
  match ranges with
  | [] => None
  | (first, last, step, upper) :: others =>
      if (cp <? first)%N then None
      else if (cp <=? last)%N
      then if ((cp - first) mod step =? 0)%N then Some (upper + (cp - first))%N else None
      else upper_simple others cp
  end.

Fixpoint upper_full (specials : list (N * list N)) (cp : N) : option (list N) :=
  match specials with
  | [] => None
  | (c, upper) :: others =>
      if (cp <? c)%N then None
      else if (cp =? c)%N then Some upper
      else upper_full others cp
  end.

(** [toUppercase] of one code point: the code points of its upper case. *)
Definition toUpperCase_point (cp : N) : list N :=
  match upper_full upper_special cp with
  | Some upper => upper
  | None =>
      match upper_simple upper_ranges cp with
      | Some upper => [upper]
      | None => [cp]
      end
  end.

(** The upper case of the string made of one code unit, which stands for
    the code point of the same value; the upper case of a code point of the
    Basic Multilingual Plane lies in that plane. *)
Definition toUpperCase_unit (c : N) : jsstring := toUpperCase_point c.

(** [String.prototype.toUpperCase]: code point by code point, a well-formed
    surrogate pair being one code point. *)
Fixpoint toUpperCase (s : jsstring) : jsstring :=
  match s with
  | [] => []
  | c :: t =>
      match t with
      | d :: t' =>
          if is_high c && is_low d
          then code_units
                 (toUpperCase_point (0x10000 + (c - 0xD800) * 0x400 + (d - 0xDC00))%N)
               ++ toUpperCase t'
          else toUpperCase_unit c ++ toUpperCase t
      | [] => toUpperCase_unit c
      end
  end.

(** Lower case, one code unit at a time.  The program lower-cases a text
    only to look for keywords of Basic Latin in it, and the model is exact
    on every code unit whose lower case holds a character of Basic Latin or
    Latin-1: it covers Basic Latin, Latin-1 Supplement, the Greek capitals
    and the three characters outside these blocks that turn into Basic
    Latin or Latin-1.  Every other code unit is left unchanged, and capital
    sigma always becomes the non-final small sigma. *)
Definition toLowerCase_unit (c : N) : jsstring :=
  (if between 0x41 0x5A c then [c + 0x20]
  else if between 0xC0 0xDE c && negb (c =? 0xD7) then [c + 0x20]
  else if (c =? 0x130) then [0x69; 0x307]
  else if between 0x391 0x3A9 c && negb (c =? 0x3A2) then [c + 0x20]
  else if (c =? 0x212A) then [0x6B]
  else if (c =? 0x212B) then [0xE5]
  else [c])%N.

Definition toLowerCase (s : jsstring) : jsstring := flat_map toLowerCase_unit s.

End JS.
Import JS.

(* ================================================================= *)
(** ** Numbers *)

(** A JavaScript number is an IEEE 754 binary64 value: [spec_float] at
    precision 53 and maximal exponent 1024.  [null] is [None] of an option. *)
Module Num.

Definition number := spec_float.
Definition prec : Z := 53.
Definition emax : Z := 1024.

Definition NaN : number := S754_nan.
Definition of_Z (z : Z) : number := binary_normalize prec emax z 0 false.
Definition zero : number := S754_zero false.

Definition lt (x y : number) : bool := SFltb x y.
Definition le (x y : number) : bool := SFleb x y.
Definition sub (x y : number) : number := SFsub prec emax x y.
Definition mul (x y : number) : number := SFmul prec emax x y.
Definition div (x y : number) : number := SFdiv prec emax x y.

Definition isNaN (x : number) : bool :=
  match x with S754_nan => true | _ => false end.

(** ToBoolean of a number: false for +0, -0 and NaN. *)
Definition truthy (x : number) : bool :=
  match x with S754_zero _ | S754_nan => false | _ => true end.

(** ToBoolean of [number | null]. *)
Definition truthy_opt (x : option number) : bool :=
  match x with Some v => truthy v | None => false end.

(** [Math.min], [Math.max] of two numbers: NaN if either is NaN, and -0 is
    below +0. *)
Definition Math_min (x y : number) : number :=
  match x, y with
  | S754_nan, _ | _, S754_nan => S754_nan
  | S754_zero sx, S754_zero sy => S754_zero (sx || sy)
  | _, _ => if lt x y then x else y
  end.

Definition Math_max (x y : number) : number :=
  match x, y with
  | S754_nan, _ | _, S754_nan => S754_nan
  | S754_zero sx, S754_zero sy => S754_zero (sx && sy)
  | _, _ => if lt x y then y else x
  end.

(** [Math.round]: the nearest integer, ties towards +infinity; a result of
    zero keeps the sign of the argument. *)
Definition Math_round (x : number) : number :=
  match x with
  | S754_finite s m e =>
      if (0 <=? e)%Z then x
      else
        let d := Z.pow 2 (- e) in
        let v := if s then Z.neg m else Z.pos m in
        let n := ((2 * v + d) / (2 * d))%Z in
        if (n =? 0)%Z then S754_zero s else of_Z n
  | _ => x
  end.

(** The number denoted by the decimal [m * 10^e], [m >= 0], rounded to
    nearest even. *)
Definition decimal (neg : bool) (m e : Z) : number :=
  match m with
  | Z0 => S754_zero neg
  | Zneg _ => S754_nan
  | Zpos _ =>
      if (0 <=? e)%Z
      then binary_normalize prec emax ((if neg then - m else m) * 10 ^ e) 0 false
      else
        let '(q, e', l) := SFdiv_core_binary prec emax m 0 (10 ^ (- e)) 0 in
        binary_round_aux prec emax neg q e' l
  end.

Fixpoint span_digits (s : jsstring) : jsstring * jsstring :=
  match s with
  | c :: t =>
      if is_digit c then let (ds, r) := span_digits t in (c :: ds, r)
      else ([], s)
  | [] => ([], [])
  end.

Definition digits_value (ds : jsstring) : Z :=
  fold_left (fun acc d => (10 * acc + (Z.of_N d - 48))%Z) ds 0%Z.

(** The sign of a numeric literal. *)
Definition split_sign (s : jsstring) : bool * jsstring :=
  match s with
  | c :: t =>
      if (c =? ch "-")%N then (true, t)
      else if (c =? ch "+")%N then (false, t)
      else (false, s)
  | [] => (false, s)
  end.

(** The exponent part of a decimal literal: [e] or [E], an optional sign
    and at least one digit; 0 when there is none. *)
Definition exponent_part (s : jsstring) : Z :=
  match s with
  | c :: t =>
      if (c =? ch "e")%N || (c =? ch "E")%N then
        let (neg, t') := split_sign t in
        match fst (span_digits t') with
        | [] => 0%Z
        | ds => if neg then (- digits_value ds)%Z else digits_value ds
        end
      else 0%Z
  | [] => 0%Z
  end.

(** [parseFloat]: leading white space is skipped and the longest prefix that
    is a decimal literal is converted; NaN when there is none. *)
Definition parseFloat (s : jsstring) : number :=
  let (neg, s0) := split_sign (trimStart s) in
  if startsWith (lit "Infinity") s0 then S754_infinity neg
  else
    let (ip, s1) := span_digits s0 in
    let (fp, s2) :=
      match s1 with
      | c :: t => if (c =? ch ".")%N then span_digits t else ([], s1)
      | [] => ([], s1)
      end in
    match ip ++ fp with
    | [] => NaN
    | ds => decimal neg (digits_value ds) (exponent_part s2 - Z.of_nat (length fp))
    end.

Definition hex_digit (c : N) : option Z :=
  if is_digit c then Some (Z.of_N c - 48)%Z
  else if between 0x61 0x66 c then Some (Z.of_N c - 87)%Z
  else if between 0x41 0x46 c then Some (Z.of_N c - 55)%Z
  else None.

Fixpoint span_hex (s : jsstring) (acc : option Z) : option Z :=
  match s with
  | c :: t =>
      match hex_digit c with
      | Some d => span_hex t (Some (16 * match acc with Some a => a | None => 0 end + d)%Z)
      | None => acc
      end
  | [] => acc
  end.

(** [parseInt] with no radix argument: decimal, or hexadecimal after a
    [0x] prefix; NaN when no digit follows the sign. *)
Definition parseInt (s : jsstring) : number :=
  let (neg, s0) := split_sign (trimStart s) in
  let signed (z : Z) := if neg then (- z)%Z else z in
  if startsWith (lit "0x") s0 || startsWith (lit "0X") s0 then
    match span_hex (skipn 2 s0) None with
    | Some z => binary_normalize prec emax (signed z) 0 neg
    | None => NaN
    end
  else
    match fst (span_digits s0) with
    | [] => NaN
    | ds => binary_normalize prec emax (signed (digits_value ds)) 0 neg
    end.

End Num.
Import Num.


(* ================================================================= *)
(** ** Regular expressions *)

(** The patterns of [parser.ts] as syntax trees and the backtracking matcher
    of the language definition, in continuation-passing style: alternatives
    are tried in priority order and the first overall success wins.  The
    source quantifies single-character atoms only, apart from [?] on a
    group, and the syntax says so. *)
Module Regex.

(** Members of a bracket class. *)
Inductive citem :=
| IChar (c : N)
| IRange (lo hi : N)
| IDigit
| ISpace.

(** One-character atoms: a literal, [\d], [\s], [.], [[...]], [[^...]]. *)
Inductive atom :=
| AChar (c : N)
| ADigit
| ASpace
| ADot
| AClass (items : list citem)
| ANotClass (items : list citem).

Inductive regex :=
| Empty
| One (a : atom)
| Seq (r1 r2 : regex)
| Alt (r1 r2 : regex)
| Rep (a : atom) (min : nat) (max : option nat) (greedy : bool)
| Opt (r : regex)
| Group (i : nat) (r : regex)
| Bol
| Eol
| NotBehind (a : atom).

(** A pattern with its [i] and [u] flags; [g] shows in which of the string
    methods below is applied. *)
Record RegExp := { pattern : regex; ignoreCase : bool; unicode : bool }.

(** Canonicalize of a pattern without the [u] flag. *)
Definition canonicalize (c : N) : N :=
  match toUpperCase_unit c with
  | [u] => if (128 <=? c)%N && (u <? 128)%N then c else u
  | _ => c
  end.

Definition char_eq (icase : bool) (a c : N) : bool :=
  if icase then (canonicalize a =? canonicalize c)%N else (a =? c)%N.

(** The code units from [lo] to [hi]. *)
Definition range_list (lo hi : N) : list N :=
  snd (N.iter (hi + 1 - lo) (fun p => (N.succ (fst p), fst p :: snd p)) (lo, [])).

(** Under [i] a class member matches the characters with the same
    canonical form as one of its own. *)
Definition item_matches (icase : bool) (c : N) (it : citem) : bool :=
  match it with
  | IChar a => char_eq icase a c
  | IRange lo hi =>
      if between lo hi c then true
      else if icase then existsb (fun a => char_eq true a c) (range_list lo hi)
      else false
  | IDigit => is_digit c
  | ISpace => is_space c
  end.

Definition atom_matches (icase : bool) (a : atom) (c : N) : bool :=
  match a with
  | AChar p => char_eq icase p c
  | ADigit => is_digit c
  | ASpace => is_space c
  | ADot => negb (is_line_terminator c)
  | AClass items => existsb (item_matches icase c) items
  | ANotClass items => negb (existsb (item_matches icase c) items)
  end.

(** The matcher's state: the input read so far (latest first), the input
    still ahead, and the captures (latest binding first). *)
Record mstate := { seen : list N; rest : list N; caps : list (nat * jsstring) }.

Definition cont := mstate -> option mstate.

Definition may_repeat (mx : option nat) : bool :=
  match mx with Some O => false | _ => true end.

(** A quantified atom, at least [mn] and at most [mx] times: greedy tries one
    more character before the continuation, lazy the continuation first. *)
Fixpoint rep_match (icase : bool) (a : atom) (greedy : bool)
    (mn : nat) (mx : option nat) (sn rs : list N) (cp : list (nat * jsstring))
    (k : cont) {struct rs} : option mstate :=
  let stop (_ : unit) :=
    match mn with
    | O => k {| seen := sn; rest := rs; caps := cp |}
    | S _ => None
    end in
  let more (_ : unit) :=
    match rs with
    | c :: t =>
        if may_repeat mx && atom_matches icase a c
        then rep_match icase a greedy (pred mn) (option_map pred mx) (c :: sn) t cp k
        else None
    | [] => None
    end in
  if greedy
  then match more tt with Some x => Some x | None => stop tt end
  else match stop tt with Some x => Some x | None => more tt end.

(** The text read between two states of one run. *)
Definition consumed (st st' : mstate) : jsstring :=
  rev (firstn (length (seen st') - length (seen st)) (seen st')).

Fixpoint rmatch (icase : bool) (r : regex) (st : mstate) (k : cont) {struct r}
  : option mstate :=
  match r with
  | Empty => k st
  | One a =>
      match rest st with
      | c :: t =>
          if atom_matches icase a c
          then k {| seen := c :: seen st; rest := t; caps := caps st |}
          else None
      | [] => None
      end
  | Seq r1 r2 => rmatch icase r1 st (fun st1 => rmatch icase r2 st1 k)
  | Alt r1 r2 =>
      match rmatch icase r1 st k with
      | Some x => Some x
      | None => rmatch icase r2 st k
      end
  | Rep a mn mx greedy => rep_match icase a greedy mn mx (seen st) (rest st) (caps st) k
  | Opt r1 =>
      match rmatch icase r1 st k with
      | Some x => Some x
      | None => k st
      end
  | Group i r1 =>
      rmatch icase r1 st (fun st1 =>
        k {| seen := seen st1; rest := rest st1;
             caps := (i, consumed st st1) :: caps st1 |})
  | Bol => match seen st with [] => k st | _ :: _ => None end
  | Eol => match rest st with [] => k st | _ :: _ => None end
  | NotBehind a =>
      match seen st with
      | c :: _ => if atom_matches icase a c then None else k st
      | [] => k st
      end
  end.

(** The match object: the input before the match, the matched text
    ([m[0]]), the groups, and the input after the match. *)
Record match_result :=
  { before : jsstring; matched : jsstring;
    groups : list (nat * jsstring); after : jsstring }.

(** One attempt at the current position. *)
Definition attempt (icase : bool) (r : regex) (sn rs : list N) : option mstate :=
  rmatch icase r {| seen := sn; rest := rs; caps := [] |} Some.

Definition match_length (rs : list N) (st : mstate) : nat :=
  length rs - length (rest st).

(** The leftmost match: start positions are tried from left to right. *)
Fixpoint scan (icase : bool) (r : regex) (sn rs : list N) : option match_result :=
  match attempt icase r sn rs with
  | Some st =>
      Some {| before := rev sn; matched := firstn (match_length rs st) rs;
              groups := caps st; after := rest st |}
  | None =>
      match rs with
      | c :: t => scan icase r (c :: sn) t
      | [] => None
      end
  end.

(** All matches of a [g] pattern: after a match the search resumes at its
    end, one character further when the match was empty.  [skip] counts the
    characters of the last match still to be passed over. *)
Fixpoint scan_all (icase : bool) (r : regex) (skip : nat) (sn rs : list N)
  : list jsstring :=
  match skip with
  | S n =>
      match rs with
      | c :: t => scan_all icase r n (c :: sn) t
      | [] => []
      end
  | O =>
      match attempt icase r sn rs with
      | Some st =>
          firstn (match_length rs st) rs ::
          match rs with
          | c :: t => scan_all icase r (pred (match_length rs st)) (c :: sn) t
          | [] => []
          end
      | None =>
          match rs with
          | c :: t => scan_all icase r 0 (c :: sn) t
          | [] => []
          end
      end
  end.

(** The input with every match of a [g] pattern replaced by [by_]. *)
Fixpoint subst_all (icase : bool) (r : regex) (by_ : jsstring) (skip : nat)
    (sn rs : list N) : jsstring :=
  match skip with
  | S n =>
      match rs with
      | c :: t => subst_all icase r by_ n (c :: sn) t
      | [] => []
      end
  | O =>
      match attempt icase r sn rs with
      | Some st =>
          by_ ++
          match rs with
          | c :: t =>
              match match_length rs st with
              | O => c :: subst_all icase r by_ 0 (c :: sn) t
              | S n => subst_all icase r by_ n (c :: sn) t
              end
          | [] => []
          end
      | None =>
          match rs with
          | c :: t => c :: subst_all icase r by_ 0 (c :: sn) t
          | [] => []
          end
      end
  end.

(** With the [u] flag the input is the list of code points, otherwise the
    list of code units. *)
Definition input_of (re : RegExp) (s : jsstring) : list N :=
  if unicode re then code_points s else s.

Definition output_of (re : RegExp) (l : list N) : jsstring :=
  if unicode re then code_units l else l.

(** [re.exec(s)] and [s.match(re)] for a pattern without [g]. *)
Definition exec (re : RegExp) (s : jsstring) : option match_result :=
  match scan (ignoreCase re) (pattern re) [] (input_of re s) with
  | Some m =>
      Some {| before := output_of re (before m);
              matched := output_of re (matched m);
              groups := map (fun p => (fst p, output_of re (snd p))) (groups m);
              after := output_of re (after m) |}
  | None => None
  end.

Definition str_match (s : jsstring) (re : RegExp) : option match_result := exec re s.

(** [re.test(s)] for a pattern without [g]. *)
Definition test (re : RegExp) (s : jsstring) : bool :=
  match exec re s with Some _ => true | None => false end.

(** [m[i]]; the empty string stands for a group that took no part. *)
Definition group (i : nat) (m : match_result) : jsstring :=
  match find (fun p => Nat.eqb (fst p) i) (groups m) with
  | Some p => snd p
  | None => []
  end.

(** [s.match(re) || []] for a [g] pattern: the matched texts. *)
Definition match_all (s : jsstring) (re : RegExp) : list jsstring :=
  map (output_of re) (scan_all (ignoreCase re) (pattern re) 0 [] (input_of re s)).

(** [s.replace(re, by_)] for a [g] pattern and for one without [g]; the
    replacement texts of the source hold no [$]. *)
Definition replace_all (s : jsstring) (re : RegExp) (by_ : jsstring) : jsstring :=
  output_of re (subst_all (ignoreCase re) (pattern re) (input_of re by_) 0 [] (input_of re s)).

Definition replace (s : jsstring) (re : RegExp) (by_ : jsstring) : jsstring :=
  match exec re s with
  | Some m => before m ++ by_ ++ after m
  | None => s
  end.

(** Writing patterns. *)
Definition chr (a : ascii) : regex := One (AChar (ch a)).
Definition cat (rs : list regex) : regex := fold_right Seq Empty rs.
Definition units (l : list N) : regex := cat (map (fun c => One (AChar c)) l).
Definition word (s : string) : regex := units (lit s).
Fixpoint alts (rs : list regex) : regex :=
  match rs with
  | [] => Empty
  | [r] => r
  | r :: t => Alt r (alts t)
  end.
Definition star (a : atom) : regex := Rep a 0 None true.
Definition plus (a : atom) : regex := Rep a 1 None true.
Definition lazy_star (a : atom) : regex := Rep a 0 None false.
Definition times (a : atom) (n : nat) : regex := Rep a n (Some n) true.

Definition re (r : regex) : RegExp := {| pattern := r; ignoreCase := false; unicode := false |}.
Definition re_i (r : regex) : RegExp := {| pattern := r; ignoreCase := true; unicode := false |}.
Definition re_u (r : regex) : RegExp := {| pattern := r; ignoreCase := false; unicode := true |}.

Arguments chr a%_char.
Arguments word s%_string.

End Regex.
Import Regex.

(* ================================================================= *)
(** ** parser.ts: tables *)

(** A literal pattern with the [i] flag, such as [/amazon\.in/i]. *)
Definition wi (s : string) : RegExp := re_i (word s).
Arguments wi s%_string.

(** Store patterns for e-commerce sites, in the order of the object's keys. *)
Definition STORE_PATTERNS : list (jsstring * list RegExp) :=
  [
    (lit "Amazon", [wi "amazon.in"; wi "amazon.com"; wi "amazon.co.uk";
       wi "amazon.de"; wi "amazon.ca"; wi "amazon.com.au"; wi "amzn.to";
       wi "amzn.com"]);
    (lit "Steam", [wi "store.steampowered.com"; wi "steampowered.com"]);
    (lit "Epic Games", [wi "epicgames.com"; wi "store.epicgames.com"]);
    (lit "GOG", [wi "gog.com"]);
    (lit "Humble Bundle", [wi "humblebundle.com"]);
    (lit "PlayStation", [wi "store.playstation.com"; wi "playstation.com"]);
    (lit "Xbox", [wi "xbox.com"; wi "microsoft.com/store"]);
    (lit "Nintendo", [wi "nintendo.com"]);
    (lit "Best Buy", [wi "bestbuy.com"; wi "bestbuy.ca"]);
    (lit "Walmart", [wi "walmart.com"; wi "walmart.ca"]);
    (lit "Target", [wi "target.com"]);
    (lit "Newegg", [wi "newegg.com"]);
    (lit "B&H Photo", [wi "bhphotovideo.com"]);
    (lit "eBay", [wi "ebay.com"; wi "ebay.co.uk"]);
    (lit "AliExpress", [wi "aliexpress.com"]);
    (lit "Flipkart", [wi "flipkart.com"; wi "fkrt.it"]);
    (lit "Myntra", [wi "myntra.com"]);
    (lit "Ajio", [wi "ajio.com"]);
    (lit "Nykaa", [wi "nykaa.com"]);
    (lit "Croma", [wi "croma.com"]);
    (lit "Reliance", [wi "reliancedigital.in"; wi "jiomart.com"]);
    (lit "Tata", [wi "tatacliq.com"; wi "bigbasket.com"]);
    (lit "Paytm", [wi "paytmmall.com"]);
    (lit "Shopclues", [wi "shopclues.com"]);
    (lit "Snapdeal", [wi "snapdeal.com"]);
    (lit "Meesho", [wi "meesho.com"]);
    (lit "Blinkit", [wi "blinkit.com"]);
    (lit "Zepto", [wi "zepto.co"]);
    (lit "Swiggy", [wi "swiggy.com"; wi "instamart"])
  ].

(** Category detection based on keywords. *)
Open Scope string_scope.
Definition CATEGORY_KEYWORDS : list (jsstring * list jsstring) :=
  [
    (lit "electronics", map lit
      ["laptop"; "phone"; "mobile"; "tablet"; "headphone"; "earphone";
       "earbud"; "speaker"; "tv"; "television"; "monitor"; "camera";
       "smartwatch"; "watch"; "charger"; "powerbank"; "ssd"; "hdd"; "ram";
       "processor"; "gpu"; "keyboard"; "mouse"; "router"; "wifi";
       "bluetooth"; "usb"; "hdmi"; "adapter"]);
    (lit "fashion", map lit
      ["clothing"; "apparel"; "fashion"; "shirt"; "tshirt"; "t-shirt";
       "jeans"; "trouser"; "trousers"; "pant"; "pants"; "dress"; "dresses";
       "kurta"; "saree"; "lehenga"; "jacket"; "hoodie"; "sweater"; "shoe";
       "shoes"; "sneaker"; "sneakers"; "sandal"; "slipper"; "bag";
       "handbag"; "wallet"; "belt"; "sunglass"; "sunglasses"; "women";
       "men"; "kids"; "flat off"; "% off on"]);
    (lit "gaming", map lit
      ["game"; "gaming"; "ps5"; "playstation"; "xbox"; "nintendo";
       "switch"; "controller"; "joystick"; "gaming mouse";
       "gaming keyboard"; "gaming headset"; "steam"; "epic games"; "gpu";
       "graphics card"; "rtx"; "gtx"]);
    (lit "home-kitchen", map lit
      ["kitchen"; "cookware"; "utensil"; "mixer"; "grinder"; "blender";
       "microwave"; "oven"; "refrigerator"; "fridge"; "washing machine";
       "ac"; "air conditioner"; "fan"; "cooler"; "heater"; "vacuum";
       "iron"; "mattress"; "pillow"; "bedsheet"; "curtain"; "furniture";
       "sofa"; "chair"; "table"; "lamp"; "light"]);
    (lit "beauty", map lit
      ["beauty"; "skincare"; "makeup"; "cosmetic"; "lipstick";
       "foundation"; "mascara"; "perfume"; "fragrance"; "shampoo";
       "conditioner"; "hair"; "moisturizer"; "serum"; "sunscreen";
       "face wash"; "lotion"; "cream"]);
    (lit "food-groceries", map lit
      ["food"; "grocery"; "snack"; "chocolate"; "biscuit"; "chips";
       "drink"; "beverage"; "coffee"; "tea"; "rice"; "dal"; "oil";
       "masala"; "spice"; "fruit"; "vegetable"; "meat"; "chicken"; "fish";
       "dairy"; "milk"; "curd"]);
    (lit "mobile-accessories", map lit
      ["mobile cover"; "phone case"; "screen protector"; "tempered glass";
       "mobile stand"; "phone holder"; "car mount"; "wireless charger";
       "fast charger"; "data cable"; "usb cable"; "type-c"; "lightning";
       "airpods"; "buds"]);
    (lit "books-stationery", map lit
      ["book"; "novel"; "textbook"; "notebook"; "diary"; "pen"; "pencil";
       "marker"; "highlighter"; "eraser"; "sharpener"; "ruler";
       "calculator"; "backpack"; "school bag"; "stationery"; "art supply"]);
    (lit "travel", map lit
      ["flight"; "hotel"; "booking"; "travel"; "trip"; "vacation";
       "holiday"; "luggage"; "suitcase"; "trolley"; "passport"; "visa";
       "ticket"; "train"; "bus"; "cab"; "uber"; "ola"; "makemytrip";
       "goibibo"; "cleartrip"])
  ].

Close Scope string_scope.

(** [[\d,]] and the amount [([\d,]+(?:\.\d{2})?)] of the currency patterns. *)
Definition digits_commas : atom := AClass [IDigit; IChar (ch ",")].

Definition amount : regex :=
  Group 1 (Seq (plus digits_commas) (Opt (Seq (chr ".") (times ADigit 2)))).

(** The currency markers as they stand in the source file, code unit by
    code unit: U+201A U+00C7 U+00A8, U+00AC U+00A3 and U+201A U+00C7 U+03C0. *)
Definition mark_eur : list N := [0x201A; 0xC7; 0xA8]%N.
Definition mark_gbp : list N := [0xAC; 0xA3]%N.
Definition mark_inr : list N := [0x201A; 0xC7; 0x3C0]%N.

(** Currency patterns for international price detection. *)
Definition CURRENCY_PATTERNS : list (jsstring * list RegExp) :=
  [ (lit "USD", [re (cat [chr "$"; star ASpace; amount])]);
    (lit "EUR", [re (cat [units mark_eur; star ASpace; amount])]);
    (lit "GBP", [re (cat [units mark_gbp; star ASpace; amount])]);
    (lit "CAD", [re_i (cat [word "C$"; star ASpace; amount]);
                 re_i (cat [word "CAD"; star ASpace; amount])]);
    (lit "AUD", [re_i (cat [word "A$"; star ASpace; amount]);
                 re_i (cat [word "AUD"; star ASpace; amount])]);
    (lit "INR", [re (cat [units mark_inr; star ASpace; amount]);
                 re_i (cat [word "Rs"; Opt (chr "."); star ASpace; amount]);
                 re_i (cat [word "INR"; star ASpace; amount])]) ].

(** [.*?(?:was|from|original|reg).*?] and the variant with [mrp] that
    bridge the two amounts of a pair. *)
Definition bridge : regex :=
  cat [lazy_star ADot; alts [word "was"; word "from"; word "original"; word "reg"];
       lazy_star ADot].

Definition bridge_mrp : regex :=
  cat [lazy_star ADot;
       alts [word "mrp"; word "was"; word "from"; word "original"; word "reg"];
       lazy_star ADot].

Definition int_amount (i : nat) : regex := Group i (plus digits_commas).

(** The pair patterns of [extractPrices], all with the [i] flag. *)
Definition pair_usd : RegExp :=
  re_i (cat [chr "$"; star ASpace; int_amount 1; bridge;
             chr "$"; star ASpace; int_amount 2]).

Definition pair_eur : RegExp :=
  re_i (cat [units mark_eur; star ASpace; int_amount 1; bridge;
             units mark_eur; star ASpace; int_amount 2]).

Definition pair_gbp : RegExp :=
  re_i (cat [units mark_gbp; star ASpace; int_amount 1; bridge;
             units mark_gbp; star ASpace; int_amount 2]).

(** In the fourth pattern the [?] after the second marker binds to the
    marker's last code unit only. *)
Definition pair_inr : RegExp :=
  re_i (cat [units mark_inr; star ASpace; int_amount 1; bridge_mrp;
             units [0x201A; 0xC7]%N; Opt (One (AChar 0x3C0%N)); star ASpace;
             int_amount 2]).

Definition pair_rs : RegExp :=
  re_i (cat [word "Rs"; Opt (chr "."); star ASpace; int_amount 1; bridge_mrp;
             word "Rs"; Opt (chr "."); star ASpace; int_amount 2]).

Definition dealPatterns : list (RegExp * jsstring) :=
  [ (pair_usd, lit "USD"); (pair_eur, lit "EUR"); (pair_gbp, lit "GBP");
    (pair_inr, lit "INR"); (pair_rs, lit "INR") ].

(** [/,/g] *)
Definition comma : RegExp := re (chr ",").

(** [/(\d{1,2})\s*%\s*(?:off|discount)/i] *)
Definition discountPattern : RegExp :=
  re_i (cat [Group 1 (Rep ADigit 1 (Some 2) true); star ASpace; chr "%";
             star ASpace; alts [word "off"; word "discount"]]).

(** URLs to skip (Reddit media, images, etc.) *)
Definition SKIP_URL_PATTERNS : list RegExp :=
  [ wi "reddit.com/media"; wi "i.redd.it"; wi "preview.redd.it"; wi "v.redd.it";
    wi "reddit.com/gallery"; wi "imgur.com";
    re_i (Seq (word ".jpg") Eol); re_i (Seq (word ".jpeg") Eol);
    re_i (Seq (word ".png") Eol); re_i (Seq (word ".gif") Eol);
    re_i (Seq (word ".webp") Eol) ].

(** [https?:\/\/] followed by a run of characters outside the given set. *)
Definition http_url (stop : list citem) : regex :=
  cat [word "http"; Opt (chr "s"); word "://"; plus (ANotClass (ISpace :: stop))].

(** [/\[.*?\]\((https?:\/\/[^\s\)]+)\)/g] *)
Definition markdownLink : RegExp :=
  re (cat [chr "["; lazy_star ADot; chr "]"; chr "(";
           Group 1 (http_url [IChar (ch ")")]); chr ")"]).

(** [/\((https?:\/\/[^\s\)]+)\)/] *)
Definition markdownTarget : RegExp :=
  re (cat [chr "("; Group 1 (http_url [IChar (ch ")")]); chr ")"]).

(** [/(?<!\()https?:\/\/[^\s\)\]<>]+/g] *)
Definition plainUrl : RegExp :=
  re (Seq (NotBehind (AChar (ch "(")))
          (http_url [IChar (ch ")"); IChar (ch "]"); IChar (ch "<"); IChar (ch ">")])).

(** [/https?:\/\/[^\s\)\]]+/g] *)
Definition titleUrl : RegExp :=
  re (http_url [IChar (ch ")"); IChar (ch "]")]).

(** [/[\)\]]+$/] *)
Definition trailingBrackets : RegExp :=
  re (Seq (plus (AClass [IChar (ch ")"); IChar (ch "]")])) Eol).

(** The patterns of [cleanTitle], in the order they are applied. *)
Definition fillerPhrases : RegExp :=
  re_i (Group 1 (alts
    [ cat [word "link"; plus ASpace; word "in"; plus ASpace; word "comments"];
      cat [word "check"; plus ASpace; word "comments"];
      cat [word "see"; plus ASpace; word "below"];
      cat [word "read"; plus ASpace; word "caption"] ])).

Definition hypePrefix : RegExp :=
  re_i (cat [Bol;
             Group 1 (alts [word "huge"; word "mega"; word "super"; word "bumper"]);
             plus ASpace;
             Group 2 (alts [word "deal"; word "sale"; word "discount"; word "offer"]);
             Opt (chr "s");
             star (AClass [ISpace; IChar (ch ":"); IChar (ch "-")])]).

(** [/[\u{1F300}-\u{1F9FF}]|[\u{2700}-\u{27BF}]/gu] *)
Definition emojiRanges : RegExp :=
  re_u (Alt (One (AClass [IRange 0x1F300 0x1F9FF]))
            (One (AClass [IRange 0x2700 0x27BF]))).

(** The bracket class of the fourth replacement, with the code units it
    holds in the source file. *)
Definition symbolClass : RegExp :=
  re (One (AClass (map IChar
    [0x201A; 0xF6; 0xB0; 0xF8FF; 0xFC; 0xEE; 0x2022; 0xF8FF; 0xFC; 0xF6; 0xAE;
     0x201A; 0xF6; 0x2020; 0xD4; 0x220F; 0xE8; 0x201A; 0xFA; 0xAE; 0xF8FF;
     0xFC; 0xE9; 0xE2]%N))).

Definition edgeSymbols : atom :=
  AClass [IChar (ch "!"); ISpace; IChar (ch "-"); IChar (ch "|")].

(** [/^[!\s\-\|]+|[!\s\-\|]+$/g] *)
Definition edgeRuns : RegExp :=
  re (Alt (Seq Bol (plus edgeSymbols)) (Seq (plus edgeSymbols) Eol)).

(** [/\s{2,}/g] *)
Definition spaceRuns : RegExp := re (Rep ASpace 2 None true).

(** Titles of posts that are not deals. *)
Definition skipPatterns : list RegExp :=
  [ wi "[meta]"; wi "[question]"; wi "[discussion]"; wi "looking for";
    wi "suggest me"; wi "help needed"; wi "which one" ].

(** [/&amp;/g] *)
Definition ampEntity : RegExp := re (word "&amp;").

(* ================================================================= *)
(** ** parser.ts: records *)

(** Modelled from the spec: the declaration of [RedditPost] in [./client],
    which is not among the sources.  The records have the fields of the
    spec's RawPost, which are the ones [parser.ts] reads, with the types
    their use shows: a preview is a list of images, each with its source and
    its resolutions (URL, width, height). *)
Module Image.
Record Resolution := { url : jsstring; width : number; height : number }.
Record PreviewImage := { source : Resolution; resolutions : list Resolution }.
End Image.

(** Modelled from the spec: [RedditPost] itself.  [preview] is [None] when
    [post.preview?.images] is undefined, [thumbnail] when there is none. *)
Module Post.
Record RedditPost :=
  { id : jsstring; title : jsstring; selftext : jsstring; url : jsstring;
    permalink : jsstring; is_self : bool; score : number;
    preview : option (list Image.PreviewImage); thumbnail : option jsstring }.
End Post.
Import Post (RedditPost).

Module Deal.
Record ParsedDeal :=
  { title : jsstring; description : option jsstring;
    originalPrice : option number; dealPrice : option number;
    discountPercent : option number; currency : jsstring;
    productUrl : jsstring; imageUrl : option jsstring;
    store : option jsstring; categorySlug : jsstring;
    redditPostId : jsstring; redditScore : number }.
End Deal.
Import Deal (ParsedDeal).

(** The result objects of [extractPriceWithCurrency] and [extractPrices]. *)
Module Price.
Record t := { price : option number; currency : jsstring }.
End Price.

Module Prices.
Record t :=
  { dealPrice : option number; originalPrice : option number; currency : jsstring }.
End Prices.

(* ================================================================= *)
(** ** parser.ts: prices and discount *)

(** [parseFloat(m[i].replace(/,/g, ""))] *)
Definition amount_of (i : nat) (m : match_result) : number :=
  parseFloat (replace_all (group i m) comma []).

(** The inner loop of [extractPriceWithCurrency], over the patterns of one
    currency. *)
Fixpoint price_in (text currency : jsstring) (patterns : list RegExp)
  : option Price.t :=
  match patterns with
  | [] => None
  | pattern :: others =>
      match str_match text pattern with
      | Some m =>
          let price := amount_of 1 m in
          if negb (isNaN price) && lt zero price && lt price (of_Z 10000000)
          then Some {| Price.price := Some price; Price.currency := currency |}
          else price_in text currency others
      | None => price_in text currency others
      end
  end.

(** The outer loop, over the currencies. *)
Fixpoint price_among (text : jsstring) (table : list (jsstring * list RegExp))
  : option Price.t :=
  match table with
  | [] => None
  | (currency, patterns) :: others =>
      match price_in text currency patterns with
      | Some r => Some r
      | None => price_among text others
      end
  end.

(** Extract price and currency from text *)
Definition extractPriceWithCurrency (text : jsstring) : Price.t :=
  match price_among text CURRENCY_PATTERNS with
  | Some r => r
  | None => {| Price.price := None; Price.currency := lit "USD" |}
  end.

(** Extract price from text (legacy, returns just price) *)
Definition extractPrice (text : jsstring) : option number :=
  Price.price (extractPriceWithCurrency text).

(** The loop of [extractPrices] over the pair patterns. *)
Fixpoint pair_among (text : jsstring) (patterns : list (RegExp * jsstring))
  : option Prices.t :=
  match patterns with
  | [] => None
  | (pattern, currency) :: others =>
      match str_match text pattern with
      | Some m =>
          let price1 := amount_of 1 m in
          let price2 := amount_of 2 m in
          if negb (isNaN price1) && negb (isNaN price2)
          then Some {| Prices.dealPrice := Some (Math_min price1 price2);
                       Prices.originalPrice := Some (Math_max price1 price2);
                       Prices.currency := currency |}
          else pair_among text others
      | None => pair_among text others
      end
  end.

(** Extract deal price and original price with currency *)
Definition extractPrices (text : jsstring) : Prices.t :=
  match pair_among text dealPatterns with
  | Some r => r
  | None =>
      let r := extractPriceWithCurrency text in
      {| Prices.dealPrice := Price.price r; Prices.originalPrice := None;
         Prices.currency := Price.currency r |}
  end.

(** [discount > 0 && discount <= 100] *)
Definition valid_discount (discount : number) : bool :=
  lt zero discount && le discount (of_Z 100).

(** Extract discount percentage *)
Definition extractDiscount (text : jsstring) (dealPrice originalPrice : option number)
  : option number :=
  let from_prices :=
    match dealPrice, originalPrice with
    | Some d, Some o =>
        if truthy d && truthy o && lt d o then
          let discount := Math_round (mul (div (sub o d) o) (of_Z 100)) in
          if valid_discount discount then Some discount else None
        else None
    | _, _ => None
    end in
  match str_match text discountPattern with
  | Some discountMatch =>
      let discount := parseInt (group 1 discountMatch) in
      if valid_discount discount then Some discount else from_prices
  | None => from_prices
  end.

(* ================================================================= *)
(** ** parser.ts: URLs, store, category *)

(** Check if URL is a store/product URL (not an image or Reddit link) *)
Definition isProductUrl (url : jsstring) : bool :=
  if existsb (fun pattern => test pattern url) SKIP_URL_PATTERNS then false
  else if includes (lit "reddit.com") url then false
  else true.

(** The targets of the markdown links [[text](url)] of a text. *)
Definition markdown_urls (text : jsstring) : list jsstring :=
  flat_map (fun link =>
              match str_match link markdownTarget with
              | Some urlMatch => [group 1 urlMatch]
              | None => []
              end)
           (match_all text markdownLink).

(** [allUrls]: the candidates in the order they are pushed. *)
Definition allUrls (post : RedditPost) (comments : list jsstring) : list jsstring :=
  markdown_urls (Post.selftext post)
  ++ match_all (Post.selftext post) plainUrl
  ++ (if negb (Post.is_self post) && truthy_str (Post.url post)
      then [Post.url post] else [])
  ++ match_all (Post.title post) titleUrl
  ++ flat_map (fun comment => markdown_urls comment ++ match_all comment plainUrl)
              comments.

Definition matches_store (url : jsstring) : bool :=
  existsb (fun entry => existsb (fun pattern => test pattern url) (snd entry))
          STORE_PATTERNS.

(** [url.replace(/[\)\]]+$/, "")] *)
Definition clean_trailing (url : jsstring) : jsstring :=
  replace url trailingBrackets [].

(** First pass: prioritize known store URLs *)
Fixpoint first_pass (urls : list jsstring) : option jsstring :=
  match urls with
  | [] => None
  | url :: others =>
      if negb (isProductUrl url) then first_pass others
      else if matches_store url then Some (clean_trailing url)
      else first_pass others
  end.

(** Second pass: any valid product URL *)
Fixpoint second_pass (urls : list jsstring) : option jsstring :=
  match urls with
  | [] => None
  | url :: others =>
      if isProductUrl url then Some (clean_trailing url) else second_pass others
  end.

(** Extract product URL from post and optionally from comments *)
Definition extractProductUrl (post : RedditPost) (comments : list jsstring) : jsstring :=
  let urls := allUrls post comments in
  match first_pass urls with
  | Some url => url
  | None =>
      match second_pass urls with
      | Some url => url
      | None => lit "https://reddit.com" ++ Post.permalink post
      end
  end.

(** Detect store from URL *)
Definition detectStore (url : jsstring) : option jsstring :=
  match find (fun entry => existsb (fun pattern => test pattern url) (snd entry))
             STORE_PATTERNS with
  | Some entry => Some (fst entry)
  | None => None
  end.

(** The score of one category: 2 for a keyword longer than 5, else 1. *)
Definition keyword_score (lowerText : jsstring) (keywords : list jsstring) : nat :=
  fold_left (fun score keyword =>
               if includes keyword lowerText
               then score + (if 5 <? length keyword then 2 else 1)
               else score)
            keywords 0.

(** Detect category from title and description using keyword scoring *)
Definition detectCategory (text : jsstring) : jsstring :=
  let lowerText := toLowerCase text in
  let scores :=
    map (fun entry => (fst entry, keyword_score lowerText (snd entry)))
        CATEGORY_KEYWORDS in
  let best :=
    fold_left (fun best entry =>
                 if snd best <? snd entry then entry else best)
              scores (lit "other", 0) in
  if 0 <? snd best then fst best else lit "other".

(* ================================================================= *)
(** ** parser.ts: title *)

(** The chain of replacements of [cleanTitle], before the length test. *)
Definition cleaned_title (title : jsstring) : jsstring :=
  let s1 := replace_all title fillerPhrases [] in
  let s2 := replace_all s1 hypePrefix [] in
  let s3 := replace_all s2 emojiRanges [] in
  let s4 := replace_all s3 symbolClass [] in
  let s5 := replace_all s4 edgeRuns [] in
  let s6 := replace_all s5 spaceRuns (lit " ") in
  trim s6.

(** Clean title (remove "link in comments", emojis, excessive whitespace) *)
Definition cleanTitle (title : jsstring) : jsstring :=
  let cleaned := cleaned_title title in
  if length cleaned <? 5 then trim title
  else toUpperCase (charAt0 cleaned) ++ slice_from 1 cleaned.

(* ================================================================= *)
(** ** parser.ts: image and orchestration *)

(** What evaluating a call or awaiting a promise yields: a value, or a
    thrown exception (a rejected promise). *)
Inductive outcome (A : Type) : Type :=
| Returns (a : A)
| Throws.
Arguments Returns {A} a.
Arguments Throws {A}.

Definition bind {A B : Type} (c : outcome A) (k : A -> outcome B) : outcome B :=
  match c with
  | Returns a => k a
  | Throws => Throws
  end.

Notation "x <- c ;; k" := (bind c (fun x => k))
  (at level 61, c at next level, right associativity).

(** [try { body } catch (error) { handler }] *)
Definition try_catch {A : Type} (body handler : outcome A) : outcome A :=
  match body with
  | Returns a => Returns a
  | Throws => handler
  end.

(** ToBoolean of [string | null | undefined]. *)
Definition truthy_ostr (s : option jsstring) : bool :=
  match s with Some s' => truthy_str s' | None => false end.

(** The response of [fetch]: its [ok] flag and what [await response.text()]
    yields. *)
Record Response := { ok : bool; text : outcome jsstring }.

Section Network.

(** The world outside the parser.  [fetch url] is what awaiting the request
    yields, the abort after 3 seconds being one of the ways it throws; the
    other two stand for cheerio: the [content] attribute of
    [meta[property=og:image]] and of [meta[name=twitter:image]] in the
    loaded markup. *)
Variable fetch : jsstring -> outcome Response.
Variable og_image : jsstring -> outcome (option jsstring).
Variable twitter_image : jsstring -> outcome (option jsstring).

(** Fetch Open Graph image from URL *)
Definition fetchOgImage (url : jsstring) : outcome (option jsstring) :=
  try_catch
    (response <- fetch url ;;
     if negb (ok response) then Returns None
     else
       html <- text response ;;
       imageUrl <- og_image html ;;
       imageUrl <- (if negb (truthy_ostr imageUrl) then twitter_image html
                    else Returns imageUrl) ;;
       Returns (if truthy_ostr imageUrl then imageUrl else None))
    (Returns None).

(** The image chosen from the post itself: preview first, then thumbnail. *)
Definition own_image (post : RedditPost) : option jsstring :=
  let imageUrl :=
    match Post.preview post with
    | Some (image :: _) =>
        match find (fun r => le (of_Z 300) (Image.width r)
                             && le (Image.width r) (of_Z 800))
                   (Image.resolutions image) with
        | Some resolution =>
            Some (replace_all (Image.url resolution) ampEntity (lit "&"))
        | None =>
            Some (replace_all (Image.url (Image.source image)) ampEntity (lit "&"))
        end
    | _ => None
    end in
  if negb (truthy_ostr imageUrl)
     && match Post.thumbnail post with
        | Some t => truthy_str t && startsWith (lit "http") t
        | None => false
        end
  then Post.thumbnail post
  else imageUrl.

(** Extract best image URL from post *)
Definition extractImageUrl (post : RedditPost) (productUrl : jsstring)
  : outcome (option jsstring) :=
  let imageUrl := own_image post in
  if (negb (truthy_ostr imageUrl)
      || match imageUrl with
         | Some u => includes (lit "external-preview") u
                     || includes (lit "redditmedia") u
         | None => false
         end)
     && isProductUrl productUrl
  then
    ogImage <- fetchOgImage productUrl ;;
    Returns (if truthy_ostr ogImage then ogImage else imageUrl)
  else Returns imageUrl.

(** Parse a Reddit post into a deal *)
Definition parseRedditPost (post : RedditPost) (comments : list jsstring)
  : outcome (option ParsedDeal) :=
  let fullText := Post.title post ++ lit " " ++ Post.selftext post in
  if existsb (fun pattern => test pattern (Post.title post)) skipPatterns
  then Returns None
  else
    let productUrl := extractProductUrl post comments in
    let prices := extractPrices fullText in
    let dealPrice := Prices.dealPrice prices in
    let originalPrice := Prices.originalPrice prices in
    let discountPercent := extractDiscount fullText dealPrice originalPrice in
    let store := detectStore productUrl in
    let categorySlug := detectCategory fullText in
    imageUrl <- extractImageUrl post productUrl ;;
    if negb (truthy_opt dealPrice) && negb (truthy_opt discountPercent)
       && includes (lit "reddit.com") productUrl
    then Returns None
    else
      Returns (Some
        {| Deal.title := cleanTitle (Post.title post);
           Deal.description :=
             if truthy_str (Post.selftext post)
             then Some (slice_to 2000 (Post.selftext post)) else None;
           Deal.originalPrice := originalPrice;
           Deal.dealPrice := dealPrice;
           Deal.discountPercent := discountPercent;
           Deal.currency := Prices.currency prices;
           Deal.productUrl := productUrl;
           Deal.imageUrl := imageUrl;
           Deal.store := store;
           Deal.categorySlug := categorySlug;
           Deal.redditPostId := Post.id post;
           Deal.redditScore := Post.score post |}).

End Network.

(* ================================================================= *)
(** ** parser.ts: the batch driver *)

(** [Promise.all]: the values in the order of the promises, or a rejection
    as soon as one of them rejects. *)
Fixpoint promise_all {A : Type} (ps : list (outcome A)) : outcome (list A) :=
  match ps with
  | [] => Returns []
  | p :: others =>
      a <- p ;;
      l <- promise_all others ;;
      Returns (a :: l)
  end.

Section Batch.

Variable fetch : jsstring -> outcome Response.
Variable og_image : jsstring -> outcome (option jsstring).
Variable twitter_image : jsstring -> outcome (option jsstring).

(** The optional comment fetcher, keyed by post id. *)
Variable fetchComments : option (jsstring -> outcome (list jsstring)).

(** The task of one post: its comments are fetched if a fetcher was given,
    the post is parsed, and whatever is thrown on the way is caught. *)
Definition parse_guarded (post : RedditPost) : outcome (option ParsedDeal) :=
  try_catch
    (comments <- match fetchComments with
                 | Some fetcher => fetcher (Post.id post)
                 | None => Returns []
                 end ;;
     parseRedditPost fetch og_image twitter_image post comments)
    (Returns None).

(** Parse multiple posts *)
Definition parseRedditPosts (posts : list RedditPost) : outcome (list ParsedDeal) :=
  results <- promise_all (map parse_guarded posts) ;;
  Returns (flat_map (fun deal => match deal with
                                 | Some d => [d]
                                 | None => []
                                 end) results).

End Batch.

(* ================================================================= *)
(** ** Notions used in the statements *)

(** [st'] is a later state of the run that was in [st]: the matcher has read
    [taken] in between. *)
Definition extends (st st' : mstate) : Prop :=
  exists taken, seen st' = rev taken ++ seen st /\ rest st = taken ++ rest st'.

(** A pattern without capture groups. *)
Fixpoint groupless (r : regex) : bool :=
  match r with
  | Seq r1 r2 | Alt r1 r2 => groupless r1 && groupless r2
  | Opt r1 => groupless r1
  | Group _ _ => false
  | _ => true
  end.

(** An amount the single-price mode rejects: not a number, not above 0, or
    not below 10,000,000. *)
Definition noise (v : number) : Prop :=
  isNaN v = true \/ lt zero v = false \/ lt v (of_Z 10000000) = false.

(** None of the pair patterns [pats] matches [text] with two amounts that
    parse to numbers. *)
Definition no_pair (text : jsstring) (pats : list (RegExp * jsstring)) : Prop :=
  forall p c m, In (p, c) pats -> str_match text p = Some m ->
                isNaN (amount_of 1 m) = true \/ isNaN (amount_of 2 m) = true.

(** A candidate URL that survives the denylist and the feed-domain test, and
    one that moreover matches a known store. *)
Definition survives (url : jsstring) : Prop := isProductUrl url = true.

Definition store_url (url : jsstring) : Prop :=
  isProductUrl url = true /\ matches_store url = true.

(** A URL whose last character is a closing bracket, [)] or []]. *)
Definition is_closing (c : N) : bool := (ch ")" =? c)%N || (ch "]" =? c)%N.

Definition ends_with_bracket (url : jsstring) : bool :=
  match rev url with
  | c :: _ => is_closing c
  | [] => false
  end.

(** A network on which every request fails, and markup without image
    metadata. *)
Definition fetch_fails : jsstring -> outcome Response := fun _ => Throws.
Definition no_meta : jsstring -> outcome (option jsstring) := fun _ => Returns None.

(** The fire emoji U+1F525 as its surrogate pair. *)
Definition fire : jsstring := [0xD83D; 0xDD25]%N.

(** The post of the end-to-end example; the fields it leaves open are
    parameters. *)
Definition sony_post (permalink : jsstring)
    (preview : option (list Image.PreviewImage)) (thumbnail : option jsstring)
  : RedditPost :=
  {| Post.id := lit "abc";
     Post.title :=
       fire ++ lit " HUGE DEAL: Sony Headphones $199 (was $299) link in comments";
     Post.selftext := [];
     Post.url := lit "http://amazon.com/dp/xyz";
     Post.permalink := permalink;
     Post.is_self := false;
     Post.score := of_Z 50;
     Post.preview := preview;
     Post.thumbnail := thumbnail |}.

(** A self post without links, with the given title and body. *)
Definition self_post (title selftext : jsstring) : RedditPost :=
  {| Post.id := lit "t3_1"; Post.title := title; Post.selftext := selftext;
     Post.url := lit "https://www.reddit.com/r/deals/comments/1";
     Post.permalink := lit "/r/deals/comments/1"; Post.is_self := true;
     Post.score := of_Z 1; Post.preview := None; Post.thumbnail := None |}.

(** [l] is [l'] with some elements left out, the order kept. *)
Inductive Subseq {A : Type} : list A -> list A -> Prop :=
| Subseq_nil : Subseq [] []
| Subseq_skip (x : A) (l l' : list A) : Subseq l l' -> Subseq l (x :: l')
| Subseq_keep (x : A) (l l' : list A) : Subseq l l' -> Subseq (x :: l) (x :: l').

(** What one post contributes to the output of the batch. *)
Definition contribution (r : outcome (option ParsedDeal)) : list ParsedDeal :=
  match r with
  | Returns (Some d) => [d]
  | _ => []
  end.

(** The atoms of a pattern, and those that stand inside a capture group. *)
Fixpoint atoms (r : regex) : list atom :=
  match r with
  | One a | Rep a _ _ _ => [a]
  | Seq r1 r2 | Alt r1 r2 => atoms r1 ++ atoms r2
  | Opt r1 | Group _ r1 => atoms r1
  | Empty | Bol | Eol | NotBehind _ => []
  end.

Fixpoint group_atoms (r : regex) : list atom :=
  match r with
  | Group _ r1 => atoms r1
  | Seq r1 r2 | Alt r1 r2 => group_atoms r1 ++ group_atoms r2
  | Opt r1 => group_atoms r1
  | _ => []
  end.

(** [c] is in the set of one of the atoms [l]. *)
Definition accepts (icase : bool) (l : list atom) (c : N) : bool :=
  existsb (fun a => atom_matches icase a c) l.

(** Every captured text consists of characters of [P]. *)
Definition caps_within (P : N -> bool) (cp : list (nat * jsstring)) : Prop :=
  Forall (fun p => Forall (fun c => P c = true) (snd p)) cp.

(** [p] stands at the start of [s], respectively somewhere in [s], the
    characters compared as a pattern with or without the [i] flag does. *)
Fixpoint starts (icase : bool) (p s : jsstring) : bool :=
  match p, s with
  | [], _ => true
  | a :: p', b :: s' => char_eq icase a b && starts icase p' s'
  | _ :: _, [] => false
  end.

Fixpoint occurs (icase : bool) (p s : jsstring) : bool :=
  starts icase p s ||
  match s with
  | [] => false
  | _ :: t => occurs icase p t
  end.

(** No character of [p] matches a closing bracket. *)
Definition bracket_free (icase : bool) (p : jsstring) : bool :=
  forallb (fun a => negb (char_eq icase a (ch ")")) && negb (char_eq icase a (ch "]"))) p.

(** A URL as the patterns of [extractProductUrl] harvest it from text:
    [http://] or [https://] and then at least one character, none of them
    white space or a closing parenthesis. *)
Definition harvested (url : jsstring) : Prop :=
  exists scheme body,
    url = scheme ++ body
    /\ (scheme = lit "http://" \/ scheme = lit "https://")
    /\ body <> []
    /\ Forall (fun c => is_space c = false /\ c <> ch ")") body.

(** The code units of white space and line terminators, one by one. *)
Definition space_points : list N :=
  [9; 10; 11; 12; 13; 32; 0xA0; 0x1680; 0x2000; 0x2001; 0x2002; 0x2003; 0x2004;
   0x2005; 0x2006; 0x2007; 0x2008; 0x2009; 0x200A; 0x2028; 0x2029; 0x202F;
   0x205F; 0x3000; 0xFEFF]%N.

(** The text does not begin with white space. *)
Definition unspaced (s : jsstring) : bool :=
  match s with
  | [] => true
  | c :: _ => negb (is_space c)
  end.

(** A deal with another image, and with another link: product URL, image
    and store. *)
Definition with_image (d : ParsedDeal) (imageUrl : option jsstring) : ParsedDeal :=
  {| Deal.title := Deal.title d; Deal.description := Deal.description d;
     Deal.originalPrice := Deal.originalPrice d; Deal.dealPrice := Deal.dealPrice d;
     Deal.discountPercent := Deal.discountPercent d; Deal.currency := Deal.currency d;
     Deal.productUrl := Deal.productUrl d; Deal.imageUrl := imageUrl;
     Deal.store := Deal.store d; Deal.categorySlug := Deal.categorySlug d;
     Deal.redditPostId := Deal.redditPostId d; Deal.redditScore := Deal.redditScore d |}.

Definition with_link (d : ParsedDeal) (productUrl : jsstring)
    (imageUrl store : option jsstring) : ParsedDeal :=
  {| Deal.title := Deal.title d; Deal.description := Deal.description d;
     Deal.originalPrice := Deal.originalPrice d; Deal.dealPrice := Deal.dealPrice d;
     Deal.discountPercent := Deal.discountPercent d; Deal.currency := Deal.currency d;
     Deal.productUrl := productUrl; Deal.imageUrl := imageUrl;
     Deal.store := store; Deal.categorySlug := Deal.categorySlug d;
     Deal.redditPostId := Deal.redditPostId d; Deal.redditScore := Deal.redditScore d |}.

(** [p] stands at the end of [s], the characters compared as [starts]
    compares them. *)
Fixpoint ends (icase : bool) (p s : jsstring) : bool :=
  (starts icase p s && (length s =? length p)) ||
  match s with
  | [] => false
  | _ :: t => ends icase p t
  end.

(** Every atom of a pattern, the look-behind included, satisfies [P]. *)
Fixpoint every_atom (P : atom -> Prop) (r : regex) : Prop :=
  match r with
  | One a | Rep a _ _ _ | NotBehind a => P a
  | Seq r1 r2 | Alt r1 r2 => every_atom P r1 /\ every_atom P r2
  | Opt r1 | Group _ r1 => every_atom P r1
  | Empty | Bol | Eol => True
  end.

(** An atom that accepts the same characters with and without the [i]
    flag. *)
Definition caseless (a : atom) : Prop :=
  forall c, atom_matches true a c = atom_matches false a c.

(* ================================================================= *)
(** * The runtime model on known values *)

(** Decimal literals against their binary64 values. *)
Example parseFloat_integer : parseFloat (lit "199") = of_Z 199.
Proof. vm_compute. reflexivity. Qed.

Example parseFloat_tenth :
  parseFloat (lit "0.1") = S754_finite false 0x1999999999999A (-56).
Proof. vm_compute. reflexivity. Qed.

Example parseFloat_cents :
  parseFloat (lit "9999999.99") = S754_finite false 0x1312CFFFAE147B (-29).
Proof. vm_compute. reflexivity. Qed.

Example parseFloat_fraction_only :
  parseFloat (lit ".50") = S754_finite false (2 ^ 52) (-53).
Proof. vm_compute. reflexivity. Qed.

Example parseFloat_forms :
  parseFloat (lit "") = NaN
  /\ parseFloat (lit ",") = NaN
  /\ parseFloat (lit "1e3") = of_Z 1000
  /\ parseFloat (lit "  -12.5e-1x") = S754_finite true (5 * 2 ^ 50) (-52).
Proof. vm_compute. auto. Qed.

Example parseInt_forms :
  parseInt (lit "07") = of_Z 7
  /\ parseInt (lit "0x1f") = of_Z 31
  /\ parseInt (lit " -42px") = of_Z (-42)
  /\ parseInt (lit "px") = NaN.
Proof. vm_compute. auto. Qed.

(** Rounding happens on the binary64 product, not on the exact quotient:
    29/200*100 is 14.499999999999998 and rounds to 14. *)
Example round_third :
  Math_round (mul (div (sub (of_Z 299) (of_Z 199)) (of_Z 299)) (of_Z 100)) = of_Z 33.
Proof. vm_compute. reflexivity. Qed.

Example round_below_half :
  Math_round (mul (div (sub (of_Z 200) (of_Z 171)) (of_Z 200)) (of_Z 100)) = of_Z 14.
Proof. vm_compute. reflexivity. Qed.

Example round_ties :
  Math_round (parseFloat (lit "-0.5")) = S754_zero true
  /\ Math_round (parseFloat (lit "2.5")) = of_Z 3
  /\ Math_round (parseFloat (lit "-2.5")) = of_Z (-2)
  /\ Math_round (parseFloat (lit "0.49999999999999994")) = zero.
Proof. vm_compute. auto. Qed.

(** Code points: the fire emoji is one character of a [u] pattern, a lone
    surrogate stands for itself. *)
Example code_points_fire :
  code_points (fire ++ lit "A" ++ [0xDD25]%N) = [0x1F525; 0x41; 0xDD25]%N
  /\ code_units [0x1F525; 0x41; 0xDD25]%N = fire ++ lit "A" ++ [0xDD25]%N.
Proof. vm_compute. auto. Qed.

(** The matcher on the source's patterns: lazy bridges, the leftmost match
    of the discount phrase, look-behind, global matching and replacing. *)
Example pair_usd_captures :
  option_map (fun m => (before m, matched m, group 1 m, group 2 m))
             (str_match (lit "Sony $199 (was $299) now") pair_usd)
  = Some (lit "Sony ", lit "$199 (was $299", lit "199", lit "299").
Proof. vm_compute. reflexivity. Qed.

Example discount_leftmost :
  option_map (fun m => (matched m, group 1 m))
             (str_match (lit "get 100% OFF now") discountPattern)
  = Some (lit "00% OFF", lit "00").
Proof. vm_compute. reflexivity. Qed.

Example urls_of_body :
  markdown_urls (lit "see [a](http://a.com/b]) and (http://q.r) http://z.com/a<b")
  = [lit "http://a.com/b]"]
  /\ match_all (lit "see [a](http://a.com/b]) and (http://q.r) http://z.com/a<b")
               plainUrl
     = [lit "http://z.com/a"].
Proof. vm_compute. auto. Qed.

Example cleaned_title_steps :
  cleaned_title (lit "MEGA  sales:- : new   laptop!!  | check   COMMENTS -")
  = lit "new laptop"
  /\ cleaned_title (fire ++ lit " deal " ++ [0x2728; 0xE9]%N ++ lit " x") = lit "deal x".
Proof. vm_compute. auto. Qed.

Example category_and_store :
  detectCategory (lit "Gaming mouse and USB cable") = lit "gaming"
  /\ detectStore (lit "https://WWW.Amazon.In/dp/1") = Some (lit "Amazon")
  /\ detectStore (lit "https://example.com") = None.
Proof. vm_compute. auto. Qed.

(** Upper case beyond Basic Latin: Cyrillic, the sharp s, the dotless i, a
    letter of the Deseret alphabet as a surrogate pair, and code units
    without an upper case of their own, a lone surrogate among them. *)
Example toUpperCase_forms :
  toUpperCase [0x441; 0x43A; 0x438; 0x434; 0x43A; 0x430]%N
  = [0x421; 0x41A; 0x418; 0x414; 0x41A; 0x410]%N
  /\ toUpperCase [0xDF; 0x131; 0x149; 0xFB01]%N
     = [0x53; 0x53; 0x49; 0x2BC; 0x4E; 0x46; 0x49]%N
  /\ toUpperCase [0xD801; 0xDC28]%N = [0xD801; 0xDC00]%N
  /\ toUpperCase ([0xD801; 0x2728; 0x212A]%N ++ lit "a1 ") = [0xD801; 0x2728; 0x212A]%N ++ lit "A1 ".
Proof. vm_compute. auto. Qed.

(** Canonical forms under the [i] flag: the long s and the Kelvin sign do
    not match [s] and [k], the final sigma matches sigma. *)
Example canonicalize_forms :
  canonicalize (ch "k") = ch "K"
  /\ canonicalize 0x17F = 0x17F%N
  /\ canonicalize 0x212A = 0x212A%N
  /\ canonicalize 0xDF = 0xDF%N
  /\ canonicalize 0x3C2 = canonicalize 0x3C3
  /\ canonicalize 0x44F = 0x42F%N.
Proof. vm_compute. repeat split. Qed.

Example cleanTitle_cyrillic :
  cleanTitle ([0x441; 0x43A; 0x438; 0x434; 0x43A; 0x430]%N ++ lit " laptop")
  = [0x421; 0x43A; 0x438; 0x434; 0x43A; 0x430]%N ++ lit " laptop".
Proof. vm_compute. reflexivity. Qed.

(* ================================================================= *)
(** * The matcher *)

Lemma extends_refl (st : mstate) : extends st st.
Proof. exists []. split; reflexivity. Qed.

Lemma extends_trans (a b c : mstate) : extends a b -> extends b c -> extends a c.
Proof.
  intros [t1 [Hs1 Hr1]] [t2 [Hs2 Hr2]].
  exists (t1 ++ t2). split.
  - rewrite Hs2, Hs1, rev_app_distr, app_assoc. reflexivity.
  - rewrite Hr1, Hr2, app_assoc. reflexivity.
Qed.

Section Matcher.

Variable icase : bool.

(** One unfolding of the quantifier loop. *)
Lemma rep_match_eq a greedy mn mx sn rs cp (k : cont) :
  rep_match icase a greedy mn mx sn rs cp k =
  let stop := match mn with
              | O => k {| seen := sn; rest := rs; caps := cp |}
              | S _ => None
              end in
  let more := match rs with
              | c :: t =>
                  if may_repeat mx && atom_matches icase a c
                  then rep_match icase a greedy (pred mn) (option_map pred mx)
                                 (c :: sn) t cp k
                  else None
              | [] => None
              end in
  if greedy
  then match more with Some x => Some x | None => stop end
  else match stop with Some x => Some x | None => more end.
Proof. destruct rs; reflexivity. Qed.

(** A successful quantifier has read between [mn] and [mx] characters of
    the atom's set and then handed over to its continuation. *)
Lemma rep_match_run a greedy cp (k : cont) x :
  forall rs mn mx sn,
    rep_match icase a greedy mn mx sn rs cp k = Some x ->
    exists taken rest',
      rs = taken ++ rest'
      /\ Forall (fun c => atom_matches icase a c = true) taken
      /\ mn <= length taken
      /\ (forall n, mx = Some n -> length taken <= n)
      /\ k {| seen := rev taken ++ sn; rest := rest'; caps := cp |} = Some x.
Proof.
  assert (Hstop : forall rs mn mx sn,
    match mn with
    | O => k {| seen := sn; rest := rs; caps := cp |}
    | S _ => None
    end = Some x ->
    exists taken rest',
      rs = taken ++ rest'
      /\ Forall (fun c => atom_matches icase a c = true) taken
      /\ mn <= length taken
      /\ (forall n, mx = Some n -> length taken <= n)
      /\ k {| seen := rev taken ++ sn; rest := rest'; caps := cp |} = Some x).
  { intros rs mn mx sn H. destruct mn; [|discriminate].
    exists [], rs. simpl. repeat split; auto with arith. }
  induction rs as [|c t IH]; intros mn mx sn H; rewrite rep_match_eq in H; cbv zeta in H.
  - apply Hstop. destruct greedy; [exact H|].
    destruct mn; [|discriminate].
    destruct (k _); [exact H|discriminate].
  - assert (Hmore :
      (if may_repeat mx && atom_matches icase a c
       then rep_match icase a greedy (pred mn) (option_map pred mx) (c :: sn) t cp k
       else None) = Some x ->
      exists taken rest',
        c :: t = taken ++ rest'
        /\ Forall (fun c => atom_matches icase a c = true) taken
        /\ mn <= length taken
        /\ (forall n, mx = Some n -> length taken <= n)
        /\ k {| seen := rev taken ++ sn; rest := rest'; caps := cp |} = Some x).
    { intros Hm.
      destruct (may_repeat mx) eqn:Hmay; [|discriminate].
      destruct (atom_matches icase a c) eqn:Hc; [|discriminate].
      simpl in Hm. apply IH in Hm.
      destruct Hm as (taken & rest' & Ht & Hall & Hmn & Hmx & Hk).
      exists (c :: taken), rest'. simpl. repeat split.
      - rewrite Ht. reflexivity.
      - constructor; assumption.
      - lia.
      - intros n Hn. subst mx. destruct n; [discriminate|].
        specialize (Hmx n eq_refl). lia.
      - rewrite <- app_assoc. exact Hk. }
    destruct greedy.
    + destruct (if may_repeat mx && atom_matches icase a c then _ else None) eqn:E.
      * apply Hmore. rewrite <- H. reflexivity.
      * apply Hstop. exact H.
    + destruct (match mn with O => _ | S _ => None end) eqn:E.
      * apply Hstop. rewrite <- H. exact E.
      * apply Hmore. exact H.
Qed.

(** Whatever a successful match returns came from its continuation, called
    on a later state of the same input; the captures are untouched when the
    pattern has no group. *)
Lemma rmatch_run (r : regex) :
  forall st (k : cont) x,
    rmatch icase r st k = Some x ->
    exists st',
      extends st st'
      /\ (groupless r = true -> caps st' = caps st)
      /\ k st' = Some x.
Proof.
  induction r as [|a|r1 IH1 r2 IH2|r1 IH1 r2 IH2|a mn mx g|r1 IH1|i r1 IH1| | |a];
    intros st k x H; simpl in H.
  - exists st. auto using extends_refl.
  - destruct (rest st) as [|c t] eqn:Hr; [discriminate|].
    destruct (atom_matches icase a c); [|discriminate].
    eexists. split; [|split; [|exact H]]; [|reflexivity].
    exists [c]. simpl. auto.
  - apply IH1 in H. destruct H as (st1 & E1 & C1 & H).
    apply IH2 in H. destruct H as (st2 & E2 & C2 & H).
    exists st2. split; [eauto using extends_trans|]. split; [|exact H].
    simpl. intros G. apply andb_true_iff in G. destruct G as [G1 G2].
    rewrite C2, C1; auto.
  - simpl. destruct (rmatch icase r1 st k) eqn:E.
    + inversion H; subst. apply IH1 in E. destruct E as (st1 & E1 & C1 & E).
      exists st1. repeat split; auto.
      intros G. apply andb_true_iff in G. tauto.
    + apply IH2 in H. destruct H as (st2 & E2 & C2 & H).
      exists st2. repeat split; auto.
      intros G. apply andb_true_iff in G. tauto.
  - apply rep_match_run in H.
    destruct H as (taken & rest' & Ht & _ & _ & _ & Hk).
    eexists. split; [|split; [|exact Hk]]; [|reflexivity].
    exists taken. simpl. auto.
  - simpl. destruct (rmatch icase r1 st k) eqn:E.
    + inversion H; subst. apply IH1 in E. destruct E as (st1 & E1 & C1 & E).
      exists st1. auto.
    + exists st. auto using extends_refl.
  - apply IH1 in H. destruct H as (st1 & E1 & _ & H).
    eexists. split; [|split; [|exact H]].
    + destruct E1 as [t [Hs Hr]]. exists t. simpl. auto.
    + simpl. discriminate.
  - destruct (seen st); [|discriminate]. exists st. auto using extends_refl.
  - destruct (rest st); [|discriminate]. exists st. auto using extends_refl.
  - exists st. split; [apply extends_refl|]. split; [reflexivity|].
    destruct (seen st); [exact H|].
    destruct (atom_matches icase a n); [discriminate|exact H].
Qed.

(** One attempt that succeeds ends in a later state of the input. *)
Lemma attempt_extends r sn rs st :
  attempt icase r sn rs = Some st ->
  exists taken, seen st = rev taken ++ sn /\ rs = taken ++ rest st.
Proof.
  unfold attempt. intros H. apply rmatch_run in H.
  destruct H as (st' & [t [Hs Hr]] & _ & H). inversion H; subst.
  exists t. auto.
Qed.

(** The leftmost match: where it was found and what it holds. *)
Lemma scan_found r :
  forall rs sn m,
    scan icase r sn rs = Some m ->
    exists sn' rs' st,
      attempt icase r sn' rs' = Some st
      /\ rev sn' ++ rs' = rev sn ++ rs
      /\ before m = rev sn'
      /\ groups m = caps st
      /\ rs' = matched m ++ after m
      /\ after m = rest st.
Proof.
  induction rs as [|c t IH]; intros sn m H; simpl in H.
  - destruct (attempt icase r sn []) as [st|] eqn:E; [|discriminate].
    inversion H; subst; clear H. exists sn, [], st. simpl.
    repeat split; auto.
    apply attempt_extends in E. destruct E as (taken & _ & Ht).
    destruct taken; [|discriminate]. simpl in Ht. rewrite <- Ht. reflexivity.
  - destruct (attempt icase r sn (c :: t)) as [st|] eqn:E.
    + inversion H; subst; clear H. exists sn, (c :: t), st.
      cbn [before groups matched after].
      repeat split; auto.
      apply attempt_extends in E. destruct E as (taken & _ & Ht).
      unfold match_length. generalize dependent (c :: t). intros rs Ht. subst rs.
      rewrite length_app, Nat.add_sub, firstn_app, Nat.sub_diag, firstn_all.
      simpl. rewrite app_nil_r. reflexivity.
    + apply IH in H. destruct H as (sn' & rs' & st & Ha & Hin & Hrest).
      exists sn', rs', st. split; [exact Ha|]. split; [|exact Hrest].
      rewrite Hin. simpl. rewrite <- app_assoc. reflexivity.
Qed.

End Matcher.

(** For a pattern without the [u] flag the match object splits the input. *)
Lemma exec_parts (p : RegExp) (s : jsstring) (m : match_result) :
  unicode p = false ->
  exec p s = Some m ->
  s = before m ++ matched m ++ after m.
Proof.
  unfold exec, input_of, output_of. intros Hu. rewrite Hu.
  destruct (scan _ _ _ _) as [m'|] eqn:E; [|discriminate].
  intros H. inversion H; subst; clear H. simpl.
  apply scan_found in E. destruct E as (sn' & rs' & st & _ & Hin & Hb & _ & Hm & _).
  simpl in Hin. rewrite <- Hin, Hb, Hm. reflexivity.
Qed.

(* ================================================================= *)
(** * Numbers and strings *)

Lemma SFcompare_antisym (x y : number) (c : comparison) :
  SFcompare x y = Some c -> SFcompare y x = Some (CompOpp c).
Proof.
  destruct x as [sx|sx| |sx mx ex], y as [sy|sy| |sy my ey]; simpl;
    try discriminate; intros H; inversion H; subst; clear H;
    try (destruct sx; reflexivity); try (destruct sy; reflexivity);
    try (destruct sx, sy; reflexivity).
  destruct sx, sy; try reflexivity;
    rewrite (Z.compare_antisym ex ey);
    destruct (Z.compare ex ey); simpl; try reflexivity;
    pose proof (Pos.compare_cont_antisym mx my Eq) as A; simpl in A;
    rewrite <- A; destruct (Pos.compare_cont Eq mx my); reflexivity.
Qed.

Lemma SFcompare_some (x y : number) :
  isNaN x = false -> isNaN y = false -> exists c, SFcompare x y = Some c.
Proof.
  destruct x, y; simpl; try discriminate; intros _ _; eauto.
Qed.

(** Of two numbers [Math.min] is one and [Math.max] the other, and the
    first is not above the second. *)
Lemma Math_min_max (x y : number) :
  isNaN x = false -> isNaN y = false ->
  le (Math_min x y) (Math_max x y) = true
  /\ ((Math_min x y = x /\ Math_max x y = y) \/ (Math_min x y = y /\ Math_max x y = x)).
Proof.
  intros Hx Hy.
  assert (Hgen : le (if lt x y then x else y) (if lt x y then y else x) = true
                 /\ (((if lt x y then x else y) = x /\ (if lt x y then y else x) = y)
                     \/ ((if lt x y then x else y) = y /\ (if lt x y then y else x) = x))).
  { destruct (SFcompare_some x y Hx Hy) as [c Hc].
    pose proof (SFcompare_antisym x y Hc) as Hc'.
    unfold lt, le, SFltb, SFleb. rewrite Hc.
    destruct c; simpl in Hc'; rewrite ?Hc, ?Hc'; auto. }
  destruct x as [sx|sx| |sx mx ex], y as [sy|sy| |sy my ey]; try discriminate;
    try exact Hgen.
  simpl. split; [reflexivity|]. destruct sx, sy; simpl; auto.
Qed.

Lemma Math_min_not_NaN (x y : number) :
  isNaN x = false -> isNaN y = false -> isNaN (Math_min x y) = false.
Proof.
  intros Hx Hy. destruct (Math_min_max x y Hx Hy) as [_ [[-> _]|[-> _]]]; assumption.
Qed.

(** A number above zero is truthy; one that is at least 1 is above zero. *)
Lemma lt_zero_truthy (x : number) : lt zero x = true -> truthy x = true.
Proof. destruct x as [s|s| |s m e]; simpl; try discriminate; reflexivity. Qed.

Lemma le_one_lt_zero (x : number) : le (of_Z 1) x = true -> lt zero x = true.
Proof.
  destruct x as [s|s| |s m e]; try destruct s; try discriminate; reflexivity.
Qed.

Lemma falsy_cases (x : option number) :
  truthy_opt x = false <->
  x = None \/ x = Some NaN \/ exists s, x = Some (S754_zero s).
Proof.
  split.
  - destruct x as [[s|s| |s m e]|]; simpl; try discriminate; eauto.
  - intros [->|[->|[s ->]]]; reflexivity.
Qed.

Lemma startsWith_app (p a b : jsstring) :
  startsWith p a = true -> startsWith p (a ++ b) = true.
Proof.
  revert a. induction p as [|x p IH]; intros a H; [reflexivity|].
  destruct a as [|y a]; [discriminate|]. simpl in *.
  apply andb_true_iff in H. destruct H as [H1 H2].
  rewrite H1. simpl. auto.
Qed.

Lemma includes_app (p a b : jsstring) :
  includes p a = true -> includes p (a ++ b) = true.
Proof.
  induction a as [|y a IH]; intros H.
  - simpl in H. rewrite orb_false_r in H.
    destruct p; [|discriminate]. destruct b; reflexivity.
  - cbn [includes] in H. apply orb_true_iff in H.
    change ((y :: a) ++ b) with (y :: (a ++ b)). cbn [includes].
    apply orb_true_iff. destruct H as [H|H].
    + left. apply (startsWith_app p (y :: a) b H).
    + right. auto.
Qed.

(** A code point that the tables of the upper case hold. *)
Lemma upper_simple_some (ranges : list (N * N * N * N)) (cp u : N) :
  upper_simple ranges cp = Some u ->
  exists first last step upper,
    In (first, last, step, upper) ranges
    /\ (first <= cp <= last)%N /\ u = (upper + (cp - first))%N.
Proof.
  induction ranges as [|[[[f l] st] t] rs IH]; cbn [upper_simple]; [discriminate|].
  destruct (cp <? f)%N eqn:E1; [discriminate|].
  destruct (cp <=? l)%N eqn:E2.
  - destruct ((cp - f) mod st =? 0)%N; [|discriminate].
    intros H. inversion H; subst u. exists f, l, st, t.
    apply N.ltb_ge in E1. apply N.leb_le in E2.
    split; [left; reflexivity|]. split; [lia|reflexivity].
  - intros H. destruct (IH H) as (f' & l' & st' & t' & Hin & Hr).
    exists f', l', st', t'. split; [right; exact Hin|exact Hr].
Qed.

Lemma upper_full_some (specials : list (N * list N)) (cp : N) (u : list N) :
  upper_full specials cp = Some u -> In (cp, u) specials.
Proof.
  induction specials as [|[c v] rest IH]; cbn [upper_full]; [discriminate|].
  destruct (cp <? c)%N; [discriminate|].
  destruct (cp =? c)%N eqn:E.
  - apply N.eqb_eq in E. subst c. intros H. inversion H; subst. left. reflexivity.
  - intros H. right. exact (IH H).
Qed.

(** The upper case of a code point is looked up among the special
    mappings, which have at least two code points, then among the simple
    ones, which start at the small letters and end in the capitals; a code
    point in neither table is its own upper case. *)
Lemma toUpperCase_point_cases (cp : N) :
  (exists u, In (cp, u) upper_special /\ 2 <= length u /\ toUpperCase_point cp = u)
  \/ (exists first last step upper,
        In (first, last, step, upper) upper_ranges
        /\ (first <= cp <= last)%N /\ (97 <= first)%N /\ (65 <= upper)%N
        /\ toUpperCase_point cp = [(upper + (cp - first))%N])
  \/ toUpperCase_point cp = [cp].
Proof.
  assert (Hs : forallb (fun row => 2 <=? length (snd row)) upper_special = true)
    by (vm_compute; reflexivity).
  assert (Hr : forallb (fun row => let '(first, _, _, upper) := row in
                                   (97 <=? first)%N && (65 <=? upper)%N)
                       upper_ranges = true)
    by (vm_compute; reflexivity).
  rewrite forallb_forall in Hs, Hr.
  unfold toUpperCase_point.
  destruct (upper_full upper_special cp) as [u|] eqn:E.
  - left. apply upper_full_some in E. exists u.
    split; [exact E|]. split; [|reflexivity].
    specialize (Hs (cp, u) E). cbn [snd] in Hs. apply Nat.leb_le in Hs. exact Hs.
  - right. destruct (upper_simple upper_ranges cp) as [u|] eqn:E'; [left|right; reflexivity].
    apply upper_simple_some in E'.
    destruct E' as (f & l & st & t & Hin & Hb & ->).
    specialize (Hr (f, l, st, t) Hin). cbv beta iota in Hr.
    apply andb_true_iff in Hr. destruct Hr as [H1 H2].
    apply N.leb_le in H1. apply N.leb_le in H2.
    exists f, l, st, t. auto 10.
Qed.

Lemma toUpperCase_unit_nonempty (c : N) : toUpperCase_unit c <> [].
Proof.
  unfold toUpperCase_unit.
  destruct (toUpperCase_point_cases c)
    as [(u & _ & Hlen & ->)|[(f & l & st & t & _ & _ & _ & _ & ->)| ->]];
    [|discriminate|discriminate].
  intros F. rewrite F in Hlen. cbn in Hlen. lia.
Qed.

(** Characters below the letters are their own canonical form, and nothing
    else has them as canonical form. *)
Lemma canonicalize_low (c : N) :
  ((c < 65 -> canonicalize c = c) /\ (canonicalize c < 65 -> canonicalize c = c))%N.
Proof.
  unfold canonicalize, toUpperCase_unit.
  destruct (toUpperCase_point_cases c)
    as [(u & _ & Hlen & ->)|[(f & l & st & t & _ & Hb & Hf & Ht & ->)| ->]].
  - destruct u as [|a [|b u]]; cbn [length] in Hlen; lia.
  - destruct ((128 <=? c)%N && (t + (c - f) <? 128)%N); split; intros; try reflexivity; lia.
  - destruct ((128 <=? c)%N && (c <? 128)%N); split; reflexivity.
Qed.

Lemma capitalized_length (s : jsstring) :
  s <> [] -> length s <= length (toUpperCase (charAt0 s) ++ slice_from 1 s).
Proof.
  destruct s as [|c t]; [congruence|]. intros _.
  unfold charAt0, slice_from. cbn [firstn skipn toUpperCase].
  rewrite length_app.
  pose proof (toUpperCase_unit_nonempty c) as H.
  destruct (toUpperCase_unit c); [congruence|]. cbn [length]. lia.
Qed.

(* ================================================================= *)
(** * Prices *)

Lemma price_in_spec (text currency : jsstring) (patterns : list RegExp) :
  match price_in text currency patterns with
  | Some r =>
      exists pattern m,
        In pattern patterns /\ str_match text pattern = Some m
        /\ lt zero (amount_of 1 m) = true
        /\ lt (amount_of 1 m) (of_Z 10000000) = true
        /\ r = {| Price.price := Some (amount_of 1 m); Price.currency := currency |}
  | None =>
      forall pattern m, In pattern patterns -> str_match text pattern = Some m ->
                        noise (amount_of 1 m)
  end.
Proof.
  induction patterns as [|p ps IH]; cbn [price_in].
  - intros pattern m [].
  - destruct (str_match text p) as [m|] eqn:Em.
    + destruct (negb (isNaN (amount_of 1 m)) && lt zero (amount_of 1 m)
                && lt (amount_of 1 m) (of_Z 10000000)) eqn:Ok.
      * apply andb_true_iff in Ok. destruct Ok as [Ok H3].
        apply andb_true_iff in Ok. destruct Ok as [_ H2].
        exists p, m. split; [left; reflexivity|]. repeat split; assumption.
      * destruct (price_in text currency ps).
        -- destruct IH as (pattern & m' & Hin & IH). exists pattern, m'.
           split; [right; exact Hin|exact IH].
        -- intros pattern m' [<-|Hin] Hm; [|eauto].
           rewrite Em in Hm. inversion Hm; subst m'. unfold noise.
           destruct (isNaN (amount_of 1 m)); [auto|].
           destruct (lt zero (amount_of 1 m)); [|auto].
           simpl in Ok. auto.
    + destruct (price_in text currency ps).
      * destruct IH as (pattern & m' & Hin & IH). exists pattern, m'.
        split; [right; exact Hin|exact IH].
      * intros pattern m' [<-|Hin] Hm; [congruence|eauto].
Qed.

Lemma price_among_spec (text : jsstring) (table : list (jsstring * list RegExp)) :
  match price_among text table with
  | Some r =>
      exists currency patterns pattern m,
        In (currency, patterns) table /\ In pattern patterns
        /\ str_match text pattern = Some m
        /\ lt zero (amount_of 1 m) = true
        /\ lt (amount_of 1 m) (of_Z 10000000) = true
        /\ r = {| Price.price := Some (amount_of 1 m); Price.currency := currency |}
  | None =>
      forall currency patterns pattern m,
        In (currency, patterns) table -> In pattern patterns ->
        str_match text pattern = Some m -> noise (amount_of 1 m)
  end.
Proof.
  induction table as [|[currency patterns] rest IH]; cbn [price_among].
  - intros ? ? ? ? [].
  - pose proof (price_in_spec text currency patterns) as Hin.
    destruct (price_in text currency patterns).
    + destruct Hin as (pattern & m & H1 & H2). exists currency, patterns, pattern, m.
      split; [left; reflexivity|]. split; assumption.
    + destruct (price_among text rest).
      * destruct IH as (c & ps & pattern & m & H1 & H2).
        exists c, ps, pattern, m. split; [right; exact H1|exact H2].
      * intros c ps pattern m [E|H1] H2 H3.
        -- inversion E; subst. eauto.
        -- eauto.
Qed.

(** The price of the single-price mode is never NaN and never zero. *)
Lemma extractPriceWithCurrency_truthy (text : jsstring) (v : number) :
  Price.price (extractPriceWithCurrency text) = Some v -> lt zero v = true.
Proof.
  unfold extractPriceWithCurrency.
  pose proof (price_among_spec text CURRENCY_PATTERNS) as H.
  destruct (price_among text CURRENCY_PATTERNS).
  - destruct H as (c & ps & p & m & _ & _ & _ & H0 & _ & ->). simpl.
    intros E. inversion E; subst. exact H0.
  - discriminate.
Qed.

Lemma pair_among_skip (text : jsstring) (earlier rest : list (RegExp * jsstring)) :
  no_pair text earlier ->
  pair_among text (earlier ++ rest) = pair_among text rest.
Proof.
  induction earlier as [|[p c] ps IH]; intros Hno; [reflexivity|].
  cbn [app pair_among]. assert (Hps : no_pair text ps).
  { intros p' c' m' Hin Hm. apply (Hno p' c' m'); [right; exact Hin|exact Hm]. }
  destruct (str_match text p) as [m|] eqn:Em; [|auto].
  destruct (Hno p c m (or_introl eq_refl) Em) as [H|H]; rewrite H; cbn [negb andb].
  - auto.
  - rewrite andb_false_r. auto.
Qed.

Lemma pair_among_none (text : jsstring) (pats : list (RegExp * jsstring)) :
  pair_among text pats = None <-> no_pair text pats.
Proof.
  split.
  - induction pats as [|[p c] ps IH]; cbn [pair_among]; intros H p' c' m' Hin Hm.
    + destruct Hin.
    + destruct Hin as [E|Hin].
      * inversion E; subst p' c'. rewrite Hm in H.
        destruct (isNaN (amount_of 1 m')); [auto|].
        destruct (isNaN (amount_of 2 m')); [auto|]. discriminate.
      * destruct (str_match text p) as [m|].
        -- destruct (negb (isNaN (amount_of 1 m)) && negb (isNaN (amount_of 2 m)));
             [discriminate|exact (IH H p' c' m' Hin Hm)].
        -- exact (IH H p' c' m' Hin Hm).
  - intros Hno. rewrite <- (app_nil_r pats), pair_among_skip; auto.
Qed.

(** The first pair pattern, in precedence order, whose two amounts parse to
    numbers decides the result: the smaller amount is the deal price. *)
Lemma extractPrices_pair (text : jsstring) earlier pattern currency later m :
  dealPatterns = earlier ++ (pattern, currency) :: later ->
  no_pair text earlier ->
  str_match text pattern = Some m ->
  isNaN (amount_of 1 m) = false ->
  isNaN (amount_of 2 m) = false ->
  extractPrices text =
    {| Prices.dealPrice := Some (Math_min (amount_of 1 m) (amount_of 2 m));
       Prices.originalPrice := Some (Math_max (amount_of 1 m) (amount_of 2 m));
       Prices.currency := currency |}.
Proof.
  intros Hpats Hno Hm H1 H2. unfold extractPrices.
  rewrite Hpats, pair_among_skip by exact Hno.
  cbn [pair_among]. rewrite Hm, H1, H2. reflexivity.
Qed.

Lemma extractPrices_single (text : jsstring) :
  no_pair text dealPatterns ->
  extractPrices text =
    {| Prices.dealPrice := Price.price (extractPriceWithCurrency text);
       Prices.originalPrice := None;
       Prices.currency := Price.currency (extractPriceWithCurrency text) |}.
Proof.
  intros Hno. unfold extractPrices.
  apply pair_among_none in Hno. rewrite Hno. reflexivity.
Qed.

(** The deal price [extractPrices] reports is never NaN. *)
Lemma extractPrices_dealPrice_not_NaN (text : jsstring) :
  Prices.dealPrice (extractPrices text) <> Some NaN.
Proof.
  unfold extractPrices.
  destruct (pair_among text dealPatterns) as [r|] eqn:E.
  - revert E. generalize dealPatterns.
    induction l as [|[p c] ps IH]; cbn [pair_among]; [discriminate|].
    destruct (str_match text p) as [m|]; [|exact IH].
    destruct (isNaN (amount_of 1 m)) eqn:H1; [exact IH|].
    destruct (isNaN (amount_of 2 m)) eqn:H2; [exact IH|].
    cbn [negb andb]. intros E. inversion E; subst r. cbn [Prices.dealPrice].
    intros F. inversion F as [F'].
    pose proof (Math_min_not_NaN _ _ H1 H2) as Hn. rewrite F' in Hn. discriminate.
  - cbn [Prices.dealPrice]. intros F.
    apply extractPriceWithCurrency_truthy in F. discriminate.
Qed.

(** C5. For every text, [extractPriceWithCurrency] either returns an amount
    [v] captured by one of the currency patterns, with [0 < v < 10,000,000],
    together with the currency code of that pattern, or every amount a
    currency pattern captures in the text is noise (not above 0, not below
    10,000,000, or not a number) -- in particular when no currency marker
    occurs at all -- and it returns [{price: null, currency: "USD"}]. *)
Theorem extractPriceWithCurrency_accepts_or_defaults :
  forall text : jsstring,
    (exists currency patterns pattern m,
        In (currency, patterns) CURRENCY_PATTERNS /\ In pattern patterns
        /\ str_match text pattern = Some m
        /\ lt zero (amount_of 1 m) = true
        /\ lt (amount_of 1 m) (of_Z 10000000) = true
        /\ extractPriceWithCurrency text =
             {| Price.price := Some (amount_of 1 m); Price.currency := currency |})
    \/ ((forall currency patterns pattern m,
            In (currency, patterns) CURRENCY_PATTERNS -> In pattern patterns ->
            str_match text pattern = Some m -> noise (amount_of 1 m))
        /\ extractPriceWithCurrency text =
             {| Price.price := None; Price.currency := lit "USD" |}).
Proof.
  intros text. unfold extractPriceWithCurrency.
  pose proof (price_among_spec text CURRENCY_PATTERNS) as H.
  destruct (price_among text CURRENCY_PATTERNS) as [r|].
  - left. destruct H as (c & ps & p & m & H1 & H2 & H3 & H4 & H5 & ->).
    exists c, ps, p, m. auto 10.
  - right. split; [exact H|reflexivity].
Qed.

(** C2 (amended). For every text on which a pair pattern matches and both
    captured amounts parse to numbers (are not NaN), no earlier pattern in
    the precedence order doing so, [extractPrices] sets [dealPrice] to the
    smaller of the two numbers and [originalPrice] to the larger, whichever
    came first in the text, so [originalPrice >= dealPrice]; if no pair
    pattern matches with two numbers it falls back to the single-price mode
    with [originalPrice] null. *)
Theorem extractPrices_min_max_or_single :
  forall text : jsstring,
    (forall earlier pattern currency later m,
        dealPatterns = earlier ++ (pattern, currency) :: later ->
        no_pair text earlier ->
        str_match text pattern = Some m ->
        isNaN (amount_of 1 m) = false ->
        isNaN (amount_of 2 m) = false ->
        let price1 := amount_of 1 m in
        let price2 := amount_of 2 m in
        let r := extractPrices text in
        Prices.currency r = currency
        /\ ((Prices.dealPrice r = Some price1 /\ Prices.originalPrice r = Some price2)
            \/ (Prices.dealPrice r = Some price2 /\ Prices.originalPrice r = Some price1))
        /\ Prices.dealPrice r = Some (Math_min price1 price2)
        /\ Prices.originalPrice r = Some (Math_max price1 price2)
        /\ le (Math_min price1 price2) (Math_max price1 price2) = true)
    /\ (no_pair text dealPatterns ->
        extractPrices text =
          {| Prices.dealPrice := Price.price (extractPriceWithCurrency text);
             Prices.originalPrice := None;
             Prices.currency := Price.currency (extractPriceWithCurrency text) |}).
Proof.
  intros text. split; [|apply extractPrices_single].
  intros earlier pattern currency later m Hpats Hno Hm H1 H2 price1 price2 r.
  subst r. rewrite (@extractPrices_pair text earlier pattern currency later m Hpats Hno Hm H1 H2).
  cbn [Prices.currency Prices.dealPrice Prices.originalPrice].
  destruct (Math_min_max price1 price2 H1 H2) as [Hle Hsel].
  subst price1 price2.
  split; [reflexivity|]. split; [|auto].
  destruct Hsel as [[-> ->]|[-> ->]]; auto.
Qed.

Lemma extractPrices_min_max_or_single_witness :
  let text := lit "MRP Rs. 2,499 now from Rs. 1,299" in
  let earlier := [(pair_usd, lit "USD"); (pair_eur, lit "EUR");
                  (pair_gbp, lit "GBP"); (pair_inr, lit "INR")] in
  dealPatterns = earlier ++ (pair_rs, lit "INR") :: []
  /\ no_pair text earlier
  /\ (exists m, str_match text pair_rs = Some m
                /\ amount_of 1 m = of_Z 2499 /\ amount_of 2 m = of_Z 1299)
  /\ extractPrices text =
       {| Prices.dealPrice := Some (of_Z 1299);
          Prices.originalPrice := Some (of_Z 2499);
          Prices.currency := lit "INR" |}.
Proof.
  intros text earlier.
  assert (Hno : no_pair text earlier).
  { intros p c m [E|[E|[E|[E|[]]]]] Hm; inversion E; subst p c;
      vm_compute in Hm; discriminate. }
  destruct (str_match text pair_rs) as [m|] eqn:Em;
    [|vm_compute in Em; discriminate].
  pose proof Em as Ev. vm_compute in Ev. injection Ev as Ev.
  assert (H1 : amount_of 1 m = of_Z 2499) by (rewrite <- Ev; vm_compute; reflexivity).
  assert (H2 : amount_of 2 m = of_Z 1299) by (rewrite <- Ev; vm_compute; reflexivity).
  assert (N1 : isNaN (amount_of 1 m) = false) by (rewrite H1; reflexivity).
  assert (N2 : isNaN (amount_of 2 m) = false) by (rewrite H2; reflexivity).
  destruct (proj1 (extractPrices_min_max_or_single text)
                  earlier pair_rs (lit "INR") [] m
                  eq_refl Hno Em N1 N2) as (Hc & _ & Hd & Ho & _).
  split; [reflexivity|]. split; [exact Hno|].
  split; [exists m; auto|].
  destruct (extractPrices text) as [d o c]. cbn in Hc, Hd, Ho.
  rewrite Hc, Hd, Ho, H1, H2. vm_compute. reflexivity.
Defined.

(** C2, as stated, fails where a captured amount holds no digit: on
    ["$, was $5"] the first pair pattern matches and captures [","] and
    ["5"], the first of which parses to NaN, and [extractPrices] reports no
    deal price and no original price. *)
Lemma extractPrices_pair_without_digits :
  let text := lit "$, was $5" in
  (exists m, In (pair_usd, lit "USD") dealPatterns
             /\ str_match text pair_usd = Some m
             /\ group 1 m = lit "," /\ group 2 m = lit "5")
  /\ extractPrices text =
       {| Prices.dealPrice := None; Prices.originalPrice := None;
          Prices.currency := lit "USD" |}.
Proof.
  split.
  - eexists. split; [left; reflexivity|].
    split; [vm_compute; reflexivity|]. split; reflexivity.
  - vm_compute. reflexivity.
Qed.

(** C10. A pair that matches is accepted subject only to the NaN check of
    its two amounts, with no bound on their magnitude: ["$0 was $5"] yields
    [dealPrice = 0] and ["$1 was $10000000"] yields
    [originalPrice = 10,000,000], while the single-price mode returns no
    such value: its price is above 0 and below 10,000,000, and ["$0"] and
    ["$10000000"] give it no price. *)
Theorem extractPrices_pair_unbounded :
  (forall text earlier pattern currency later m,
      dealPatterns = earlier ++ (pattern, currency) :: later ->
      no_pair text earlier ->
      str_match text pattern = Some m ->
      isNaN (amount_of 1 m) = false ->
      isNaN (amount_of 2 m) = false ->
      extractPrices text =
        {| Prices.dealPrice := Some (Math_min (amount_of 1 m) (amount_of 2 m));
           Prices.originalPrice := Some (Math_max (amount_of 1 m) (amount_of 2 m));
           Prices.currency := currency |})
  /\ Prices.dealPrice (extractPrices (lit "$0 was $5")) = Some zero
  /\ (exists o, Prices.originalPrice (extractPrices (lit "$1 was $10000000")) = Some o
                /\ le (of_Z 10000000) o = true)
  /\ (forall text v, Price.price (extractPriceWithCurrency text) = Some v ->
                     lt zero v = true /\ lt v (of_Z 10000000) = true)
  /\ Price.price (extractPriceWithCurrency (lit "$0")) = None
  /\ Price.price (extractPriceWithCurrency (lit "$10000000")) = None.
Proof.
  split; [intros; eapply extractPrices_pair; eassumption|].
  split; [vm_compute; reflexivity|].
  split; [eexists; split; vm_compute; reflexivity|].
  split; [|split; vm_compute; reflexivity].
  intros text v Hv. unfold extractPriceWithCurrency in Hv.
  pose proof (price_among_spec text CURRENCY_PATTERNS) as H.
  destruct (price_among text CURRENCY_PATTERNS) as [r|]; [|discriminate].
  destruct H as (c & ps & p & m & _ & _ & _ & H1 & H2 & ->).
  inversion Hv; subst v. auto.
Qed.

Lemma extractPrices_pair_unbounded_witness :
  let text := lit "$0 was $5" in
  (exists m, str_match text pair_usd = Some m
             /\ amount_of 1 m = zero /\ amount_of 2 m = of_Z 5)
  /\ extractPrices text =
       {| Prices.dealPrice := Some zero; Prices.originalPrice := Some (of_Z 5);
          Prices.currency := lit "USD" |}
  /\ Price.price (extractPriceWithCurrency (lit "$4.50")) = Some (parseFloat (lit "4.50"))
  /\ lt zero (parseFloat (lit "4.50")) = true
  /\ lt (parseFloat (lit "4.50")) (of_Z 10000000) = true.
Proof.
  intros text.
  assert (Hno : no_pair text []) by (intros p c m []).
  destruct (str_match text pair_usd) as [m|] eqn:Em;
    [|vm_compute in Em; discriminate].
  pose proof Em as Ev. vm_compute in Ev. injection Ev as Ev.
  assert (H1 : amount_of 1 m = zero) by (rewrite <- Ev; vm_compute; reflexivity).
  assert (H2 : amount_of 2 m = of_Z 5) by (rewrite <- Ev; vm_compute; reflexivity).
  assert (N1 : isNaN (amount_of 1 m) = false) by (rewrite H1; reflexivity).
  assert (N2 : isNaN (amount_of 2 m) = false) by (rewrite H2; reflexivity).
  destruct extractPrices_pair_unbounded as (Hpair & _ & _ & Hsingle & _).
  pose proof (Hpair text [] pair_usd (lit "USD") (tl dealPatterns) m
                    eq_refl Hno Em N1 N2) as Hp.
  assert (Hv : Price.price (extractPriceWithCurrency (lit "$4.50"))
               = Some (parseFloat (lit "4.50"))) by (vm_compute; reflexivity).
  destruct (Hsingle _ _ Hv) as [Hlo Hhi].
  split; [exists m; auto|].
  split; [rewrite Hp, H1, H2; vm_compute; reflexivity|].
  auto.
Defined.

(* ================================================================= *)
(** * Discount *)

Lemma groups_unchanged (l : list (nat * jsstring)) :
  map (fun p => (fst p, snd p)) l = l.
Proof. induction l as [|[i s] l IH]; simpl; congruence. Qed.

Lemma consumed_taken (sn taken rs rs' : list N) cp cp' :
  consumed {| seen := sn; rest := rs; caps := cp |}
           {| seen := rev taken ++ sn; rest := rs'; caps := cp' |} = taken.
Proof.
  unfold consumed. simpl.
  rewrite length_app, Nat.add_sub, firstn_app, Nat.sub_diag, firstn_all.
  simpl. rewrite app_nil_r, rev_involutive. reflexivity.
Qed.

(** A pattern that opens with a group around a quantified atom and has no
    other group captures a run of the atom within the quantifier's bounds. *)
Lemma leading_group_capture icase i a mn mx g (tail : regex) sn rs st :
  groupless tail = true ->
  attempt icase (Seq (Group i (Rep a mn mx g)) tail) sn rs = Some st ->
  exists taken,
    caps st = [(i, taken)]
    /\ Forall (fun c => atom_matches icase a c = true) taken
    /\ mn <= length taken
    /\ (forall n, mx = Some n -> length taken <= n).
Proof.
  intros Hgl H. unfold attempt in H. cbn [rmatch seen rest caps] in H.
  apply rep_match_run in H.
  destruct H as (taken & rest' & _ & Hall & Hmn & Hmx & Hk).
  apply rmatch_run in Hk. destruct Hk as (st' & _ & Hcaps & Hk).
  inversion Hk; subst st'. exists taken.
  rewrite (Hcaps Hgl). cbn [caps]. rewrite consumed_taken. auto.
Qed.

Lemma is_digit_cases (c : N) :
  is_digit c = true -> In c [48; 49; 50; 51; 52; 53; 54; 55; 56; 57]%N.
Proof.
  unfold is_digit, between. intros H.
  apply andb_true_iff in H. destruct H as [H1 H2].
  apply N.leb_le in H1. apply N.leb_le in H2. simpl.
  assert (c = 48 \/ c = 49 \/ c = 50 \/ c = 51 \/ c = 52 \/ c = 53 \/ c = 54
          \/ c = 55 \/ c = 56 \/ c = 57)%N as Hc by lia.
  intuition auto.
Qed.

(** [parseInt] of one or two decimal digits is their value, at most 99. *)
Lemma parseInt_digits (ds : jsstring) :
  Forall (fun c => is_digit c = true) ds ->
  1 <= length ds <= 2 ->
  parseInt ds = of_Z (digits_value ds) /\ (0 <= digits_value ds <= 99)%Z.
Proof.
  intros Hall Hlen.
  destruct ds as [|c1 [|c2 [|c3 ds]]]; simpl in Hlen; try lia.
  - inversion Hall as [|? ? H1 _]; subst.
    apply is_digit_cases in H1. simpl in H1.
    repeat (destruct H1 as [<-|H1]); try contradiction;
      (split; [vm_compute; reflexivity|cbv; split; discriminate]).
  - inversion Hall as [|? ? H1 Hall']; subst.
    inversion Hall' as [|? ? H2 _]; subst.
    apply is_digit_cases in H1. apply is_digit_cases in H2. simpl in H1, H2.
    repeat (destruct H1 as [<-|H1]); try contradiction;
      repeat (destruct H2 as [<-|H2]); try contradiction;
      (split; [vm_compute; reflexivity|cbv; split; discriminate]).
Qed.

(** The number of an explicit discount phrase, as the pattern captures it,
    is an integer from 0 to 99. *)
Lemma discount_capture (text : jsstring) (m : match_result) :
  str_match text discountPattern = Some m ->
  exists n : Z, (0 <= n <= 99)%Z /\ parseInt (group 1 m) = of_Z n.
Proof.
  unfold str_match, exec, input_of, output_of.
  change (unicode discountPattern) with false. cbv iota.
  destruct (scan _ _ _ _) as [m'|] eqn:E; [|discriminate].
  intros H. inversion H; subst m; clear H.
  apply scan_found in E.
  destruct E as (sn' & rs' & st & Ha & _ & _ & Hg & _).
  change (pattern discountPattern)
    with (Seq (Group 1 (Rep ADigit 1 (Some 2) true))
              (cat [star ASpace; chr "%"; star ASpace;
                    alts [word "off"; word "discount"]])) in Ha.
  apply leading_group_capture in Ha; [|reflexivity].
  destruct Ha as (taken & Hc & Hall & Hmn & Hmx).
  specialize (Hmx 2 eq_refl).
  unfold group. cbn [groups]. rewrite groups_unchanged, Hg, Hc.
  cbn [find fst snd Nat.eqb].
  exists (digits_value taken).
  destruct (@parseInt_digits taken) as [Hp Hr]; auto.
Qed.

Lemma of_Z_small_valid (n : Z) :
  (0 <= n <= 99)%Z ->
  valid_discount (of_Z n) = negb (n =? 0)%Z
  /\ le (of_Z 1) (of_Z n) = negb (n =? 0)%Z
  /\ le (of_Z n) (of_Z 100) = true.
Proof.
  intros Hn.
  assert (Hall : forallb (fun k =>
             Bool.eqb (valid_discount (of_Z k)) (negb (k =? 0)%Z)
             && Bool.eqb (le (of_Z 1) (of_Z k)) (negb (k =? 0)%Z)
             && le (of_Z k) (of_Z 100))
           (map Z.of_nat (seq 0 100)) = true) by (vm_compute; reflexivity).
  rewrite forallb_forall in Hall.
  assert (Hc : In n (map Z.of_nat (seq 0 100))).
  { replace n with (Z.of_nat (Z.to_nat n)) by lia.
    apply in_map, in_seq. lia. }
  specialize (Hall n Hc).
  apply andb_true_iff in Hall. destruct Hall as [Hall H3].
  apply andb_true_iff in Hall. destruct Hall as [H1 H2].
  apply Bool.eqb_prop in H1. apply Bool.eqb_prop in H2. auto.
Qed.

(** C3 (amended). [extractDiscount] follows the priority: if the pattern of
    an explicit "N% off" or "N% discount" phrase matches -- its leftmost
    match captures one or two digits, so N is an integer from 0 to 99 -- and
    [1 <= N <= 100], it returns N, whatever the prices; otherwise, when both
    prices are present and truthy (neither zero nor NaN) and
    [originalPrice > dealPrice], it returns
    [round((originalPrice - dealPrice) / originalPrice * 100)] provided that
    value lies in (0, 100], and null if not; otherwise it returns null.  In
    particular [dealPrice = 80], [originalPrice = 100] with no explicit
    phrase yields 20. *)
Theorem extractDiscount_priority :
  forall (text : jsstring) (dealPrice originalPrice : option number),
    let from_prices (d o : number) :=
      Math_round (mul (div (sub o d) o) (of_Z 100)) in
    (forall m, str_match text discountPattern = Some m ->
       exists n, (0 <= n <= 99)%Z /\ parseInt (group 1 m) = of_Z n
                 /\ (n = 0%Z \/ (le (of_Z 1) (of_Z n) = true
                                 /\ le (of_Z n) (of_Z 100) = true)))
    /\ (forall m N, str_match text discountPattern = Some m ->
          parseInt (group 1 m) = N ->
          le (of_Z 1) N = true -> le N (of_Z 100) = true ->
          extractDiscount text dealPrice originalPrice = Some N)
    /\ ((str_match text discountPattern = None
         \/ exists m, str_match text discountPattern = Some m
                      /\ parseInt (group 1 m) = of_Z 0) ->
        (forall d o, dealPrice = Some d -> originalPrice = Some o ->
            truthy d = true -> truthy o = true -> lt d o = true ->
            extractDiscount text dealPrice originalPrice =
              if lt zero (from_prices d o) && le (from_prices d o) (of_Z 100)
              then Some (from_prices d o) else None)
        /\ (dealPrice = None \/ originalPrice = None
            \/ (exists d, dealPrice = Some d /\ truthy d = false)
            \/ (exists o, originalPrice = Some o /\ truthy o = false)
            \/ (exists d o, dealPrice = Some d /\ originalPrice = Some o
                            /\ lt d o = false) ->
            extractDiscount text dealPrice originalPrice = None)
        /\ extractDiscount text (Some (of_Z 80)) (Some (of_Z 100)) = Some (of_Z 20)).
Proof.
  intros text dealPrice originalPrice from_prices.
  split.
  { intros m Hm. destruct (discount_capture text Hm) as (n & Hn & Hp).
    exists n. split; [exact Hn|]. split; [exact Hp|].
    destruct (of_Z_small_valid Hn) as (_ & H1 & H100).
    destruct (Z.eqb_spec n 0) as [->|Hne]; [left; reflexivity|right; auto]. }
  split.
  - intros m N Hm HN H1 H100. unfold extractDiscount.
    rewrite Hm, HN. unfold valid_discount.
    rewrite (le_one_lt_zero N H1), H100. reflexivity.
  - intros Hexp.
    assert (Hfall : forall dp op,
      extractDiscount text dp op =
      match dp, op with
      | Some d, Some o =>
          if truthy d && truthy o && lt d o then
            if valid_discount (from_prices d o) then Some (from_prices d o) else None
          else None
      | _, _ => None
      end).
    { intros dp op. unfold extractDiscount.
      destruct Hexp as [->|(m & -> & ->)]; reflexivity. }
    split; [|split].
    + intros d o -> -> Hd Ho Hlt. rewrite Hfall, Hd, Ho, Hlt. reflexivity.
    + intros Hcase. rewrite Hfall.
      destruct Hcase as [->|[->|[(d & -> & Hd)|[(o & -> & Ho)|(d & o & -> & -> & Hlt)]]]].
      * reflexivity.
      * destruct dealPrice; reflexivity.
      * destruct originalPrice; [rewrite Hd|]; reflexivity.
      * destruct dealPrice; [rewrite Ho, andb_false_r|]; reflexivity.
      * rewrite Hlt, andb_false_r. reflexivity.
    + rewrite Hfall. vm_compute. reflexivity.
Qed.

Lemma extractDiscount_priority_witness :
  (exists m, str_match (lit "Flat 20% off on shoes") discountPattern = Some m
             /\ parseInt (group 1 m) = of_Z 20)
  /\ le (of_Z 1) (of_Z 20) = true /\ le (of_Z 20) (of_Z 100) = true
  /\ extractDiscount (lit "Flat 20% off on shoes") (Some (of_Z 80)) (Some (of_Z 800))
     = Some (of_Z 20)
  /\ str_match (lit "now $199 (was $299)") discountPattern = None
  /\ lt (of_Z 199) (of_Z 299) = true
  /\ extractDiscount (lit "now $199 (was $299)") (Some (of_Z 199)) (Some (of_Z 299))
     = Some (of_Z 33).
Proof.
  destruct (str_match (lit "Flat 20% off on shoes") discountPattern) as [m|] eqn:Em;
    [|vm_compute in Em; discriminate].
  pose proof Em as Ev. vm_compute in Ev. injection Ev as Ev.
  assert (HN : parseInt (group 1 m) = of_Z 20) by (rewrite <- Ev; vm_compute; reflexivity).
  assert (H1 : le (of_Z 1) (of_Z 20) = true) by (vm_compute; reflexivity).
  assert (H100 : le (of_Z 20) (of_Z 100) = true) by (vm_compute; reflexivity).
  assert (Hn : str_match (lit "now $199 (was $299)") discountPattern = None)
    by (vm_compute; reflexivity).
  assert (Hlt : lt (of_Z 199) (of_Z 299) = true) by (vm_compute; reflexivity).
  destruct (extractDiscount_priority (lit "Flat 20% off on shoes")
              (Some (of_Z 80)) (Some (of_Z 800))) as (_ & Hexp & _).
  destruct (extractDiscount_priority (lit "now $199 (was $299)")
              (Some (of_Z 199)) (Some (of_Z 299))) as (_ & _ & Hder).
  destruct (Hder (or_introl Hn)) as (Hder' & _).
  split; [exists m; auto|].
  split; [exact H1|]. split; [exact H100|].
  split; [exact (Hexp m (of_Z 20) Em HN H1 H100)|].
  split; [exact Hn|]. split; [exact Hlt|].
  rewrite (Hder' (of_Z 199) (of_Z 299) eq_refl eq_refl eq_refl eq_refl Hlt).
  vm_compute. reflexivity.
Defined.

(** C3, as stated, fails for a deal price of 0: ["$0 was $5"] has no
    explicit phrase, both prices are present with [5 > 0], and
    [round((5 - 0) / 5 * 100) = 100] lies in (0, 100], yet the result is
    null, because [dealPrice && originalPrice] is false for 0. *)
Lemma extractDiscount_zero_dealPrice :
  let text := lit "$0 was $5" in
  Prices.dealPrice (extractPrices text) = Some zero
  /\ Prices.originalPrice (extractPrices text) = Some (of_Z 5)
  /\ str_match text discountPattern = None
  /\ lt zero (of_Z 5) = true
  /\ Math_round (mul (div (sub (of_Z 5) zero) (of_Z 5)) (of_Z 100)) = of_Z 100
  /\ valid_discount (of_Z 100) = true
  /\ extractDiscount text (Some zero) (Some (of_Z 5)) = None.
Proof. vm_compute. repeat split; reflexivity. Qed.

(* ================================================================= *)
(** * URLs *)

Lemma first_pass_skip (earlier rest : list jsstring) :
  (forall v, In v earlier -> ~ store_url v) ->
  first_pass (earlier ++ rest) = first_pass rest.
Proof.
  induction earlier as [|u us IH]; intros Hno; [reflexivity|].
  cbn [app first_pass].
  assert (Hus : forall v, In v us -> ~ store_url v) by (intros v Hv; apply Hno; right; exact Hv).
  destruct (isProductUrl u) eqn:Hp; cbn [negb]; [|auto].
  destruct (matches_store u) eqn:Hs; [|auto].
  exfalso. apply (Hno u (or_introl eq_refl)). split; assumption.
Qed.

Lemma second_pass_skip (earlier rest : list jsstring) :
  (forall v, In v earlier -> ~ survives v) ->
  second_pass (earlier ++ rest) = second_pass rest.
Proof.
  induction earlier as [|u us IH]; intros Hno; [reflexivity|].
  cbn [app second_pass].
  destruct (isProductUrl u) eqn:Hp.
  - exfalso. apply (Hno u (or_introl eq_refl)). exact Hp.
  - apply IH. intros v Hv. apply Hno. right. exact Hv.
Qed.

Lemma first_pass_none (urls : list jsstring) :
  (forall v, In v urls -> ~ store_url v) -> first_pass urls = None.
Proof.
  intros Hno. rewrite <- (app_nil_r urls). rewrite first_pass_skip; auto.
Qed.

Lemma second_pass_none (urls : list jsstring) :
  second_pass urls = None <-> (forall v, In v urls -> isProductUrl v = false).
Proof.
  split.
  - induction urls as [|u us IH]; cbn [second_pass]; intros H v Hv; [destruct Hv|].
    destruct (isProductUrl u) eqn:Hp; [discriminate|].
    destruct Hv as [<-|Hv]; auto.
  - intros Hno. rewrite <- (app_nil_r urls). rewrite second_pass_skip; auto.
    intros v Hv Hs. unfold survives in Hs. rewrite (Hno v Hv) in Hs. discriminate.
Qed.

Lemma first_pass_some (urls : list jsstring) (u : jsstring) :
  first_pass urls = Some u ->
  exists v, In v urls /\ isProductUrl v = true /\ u = clean_trailing v.
Proof.
  induction urls as [|w ws IH]; cbn [first_pass]; [discriminate|].
  destruct (isProductUrl w) eqn:Hp; cbn [negb].
  - destruct (matches_store w).
    + intros H. inversion H; subst. exists w. split; [left; reflexivity|]. auto.
    + intros H. destruct (IH H) as (v & Hv & Hr). exists v. split; [right; exact Hv|exact Hr].
  - intros H. destruct (IH H) as (v & Hv & Hr). exists v. split; [right; exact Hv|exact Hr].
Qed.

Lemma second_pass_some (urls : list jsstring) (u : jsstring) :
  second_pass urls = Some u ->
  exists v, In v urls /\ isProductUrl v = true /\ u = clean_trailing v.
Proof.
  induction urls as [|w ws IH]; cbn [second_pass]; [discriminate|].
  destruct (isProductUrl w) eqn:Hp.
  - intros H. inversion H; subst. exists w. split; [left; reflexivity|]. auto.
  - intros H. destruct (IH H) as (v & Hv & Hr). exists v. split; [right; exact Hv|exact Hr].
Qed.

(** What [trailingBrackets] matches, wherever it does: a run of closing
    brackets that reaches the end of the input. *)
Lemma trailingBrackets_match (url : jsstring) (m : match_result) :
  exec trailingBrackets url = Some m ->
  url = before m ++ matched m
  /\ after m = []
  /\ matched m <> []
  /\ Forall (fun c => is_closing c = true) (matched m).
Proof.
  intros E. pose proof (exec_parts trailingBrackets url eq_refl E) as Hparts.
  revert E Hparts. unfold exec, input_of, output_of.
  change (unicode trailingBrackets) with false. cbv iota.
  destruct (scan _ _ _ _) as [m'|] eqn:Es; [|discriminate].
  intros H. inversion H; subst m; clear H. cbn [before matched after].
  apply scan_found in Es.
  destruct Es as (sn' & rs' & st & Ha & _ & _ & _ & Hrs & Hafter).
  unfold attempt in Ha.
  change (pattern trailingBrackets)
    with (Seq (plus (AClass [IChar (ch ")"); IChar (ch "]")])) Eol) in Ha.
  unfold plus in Ha. cbn [rmatch seen rest caps] in Ha.
  apply rep_match_run in Ha.
  destruct Ha as (taken & rest' & Ht & Hall & Hmn & _ & Hk).
  cbn [rmatch rest] in Hk. destruct rest' as [|c r]; [|discriminate].
  inversion Hk; subst st; clear Hk. cbn [rest] in Hafter.
  rewrite Hafter in Hrs. rewrite !app_nil_r in *. subst rs'.
  intros Hparts. rewrite Hafter, app_nil_r in Hparts.
  rewrite Hrs in Hmn, Hall.
  split; [exact Hparts|]. split; [exact Hafter|]. split.
  - intros F. rewrite F in Hmn. simpl in Hmn. lia.
  - eapply Forall_impl; [|exact Hall]. intros c Hc.
    cbn [atom_matches existsb item_matches char_eq] in Hc.
    rewrite orb_false_r in Hc. exact Hc.
Qed.

(** Stripping the trailing brackets leaves a prefix of the URL, and the URL
    itself when it ends in no bracket. *)
Lemma clean_trailing_prefix (url : jsstring) :
  exists tail, url = clean_trailing url ++ tail.
Proof.
  unfold clean_trailing, replace.
  destruct (exec trailingBrackets url) as [m|] eqn:E.
  - destruct (trailingBrackets_match url E) as (Hparts & Hafter & _).
    exists (matched m). rewrite Hafter, app_nil_r. exact Hparts.
  - exists []. rewrite app_nil_r. reflexivity.
Qed.

Lemma clean_trailing_unchanged (url : jsstring) :
  ends_with_bracket url = false -> clean_trailing url = url.
Proof.
  unfold clean_trailing, replace. intros Hend.
  destruct (exec trailingBrackets url) as [m|] eqn:E; [exfalso|reflexivity].
  destruct (trailingBrackets_match url E) as (Hparts & _ & Hne & Hall).
  unfold ends_with_bracket in Hend. rewrite Hparts, rev_app_distr in Hend.
  destruct (rev (matched m)) as [|c t] eqn:Er.
  - apply Hne. rewrite <- (rev_involutive (matched m)), Er. reflexivity.
  - cbn [app] in Hend. rewrite Forall_forall in Hall.
    rewrite (Hall c) in Hend; [discriminate|].
    apply in_rev. rewrite Er. left. reflexivity.
Qed.

(** A surviving candidate does not mention the feed's domain, before or
    after its trailing brackets are stripped. *)
Lemma clean_trailing_not_reddit (url : jsstring) :
  isProductUrl url = true ->
  includes (lit "reddit.com") (clean_trailing url) = false.
Proof.
  unfold isProductUrl. intros H.
  destruct (existsb _ SKIP_URL_PATTERNS); [discriminate|].
  destruct (includes (lit "reddit.com") url) eqn:Hi; [discriminate|].
  destruct (includes (lit "reddit.com") (clean_trailing url)) eqn:Hc; [|reflexivity].
  destruct (clean_trailing_prefix url) as [tail Ht].
  rewrite Ht in Hi. rewrite (includes_app _ _ tail Hc) in Hi. discriminate.
Qed.

Lemma permalink_is_reddit (permalink : jsstring) :
  includes (lit "reddit.com") (lit "https://reddit.com" ++ permalink) = true.
Proof. apply includes_app. vm_compute. reflexivity. Qed.

(** The product URL mentions the feed's domain exactly when no candidate
    survived and the post's own permalink was returned. *)
Lemma extractProductUrl_reddit (post : RedditPost) (comments : list jsstring) :
  includes (lit "reddit.com") (extractProductUrl post comments) =
  match second_pass (allUrls post comments) with Some _ => false | None => true end.
Proof.
  unfold extractProductUrl.
  destruct (first_pass (allUrls post comments)) as [u|] eqn:E1.
  - destruct (first_pass_some _ E1) as (v & Hv & Hp & ->).
    rewrite (clean_trailing_not_reddit v Hp).
    destruct (second_pass (allUrls post comments)) eqn:E2; [reflexivity|].
    rewrite (proj1 (second_pass_none _) E2 v Hv) in Hp. discriminate.
  - destruct (second_pass (allUrls post comments)) as [u|] eqn:E2.
    + destruct (second_pass_some _ E2) as (v & Hv & Hp & ->).
      apply clean_trailing_not_reddit. exact Hp.
    + apply permalink_is_reddit.
Qed.

(** C4. [extractProductUrl] selects in two passes over the candidates in
    source order: the first candidate that survives the denylist and the
    feed-domain test and matches a known store is returned, even when
    surviving candidates that match no store come before it; only if no
    candidate is such does the first surviving candidate win.  What is
    returned is the selected candidate, as it is when it ends in no closing
    bracket and with its trailing brackets stripped when it does.  A post
    whose body is ["check this out http://example.com/x then
    http://amazon.in/dp/123"] yields the amazon.in URL. *)
Theorem extractProductUrl_two_pass :
  forall (post : RedditPost) (comments : list jsstring),
    let urls := allUrls post comments in
    (forall earlier url later,
        urls = earlier ++ url :: later ->
        store_url url ->
        (forall v, In v earlier -> ~ store_url v) ->
        extractProductUrl post comments = clean_trailing url
        /\ (ends_with_bracket url = false -> extractProductUrl post comments = url))
    /\ ((forall v, In v urls -> ~ store_url v) ->
        forall earlier url later,
          urls = earlier ++ url :: later ->
          survives url ->
          (forall v, In v earlier -> ~ survives v) ->
          extractProductUrl post comments = clean_trailing url
          /\ (ends_with_bracket url = false -> extractProductUrl post comments = url))
    /\ (Post.selftext post =
          lit "check this out http://example.com/x then http://amazon.in/dp/123" ->
        extractProductUrl post comments = lit "http://amazon.in/dp/123").
Proof.
  intros post comments urls.
  assert (H1 : forall earlier url later,
             urls = earlier ++ url :: later ->
             store_url url ->
             (forall v, In v earlier -> ~ store_url v) ->
             extractProductUrl post comments = clean_trailing url).
  { intros earlier url later Hurls [Hp Hs] Hno. unfold extractProductUrl.
    fold urls. rewrite Hurls, first_pass_skip by exact Hno.
    cbn [first_pass]. rewrite Hp, Hs. reflexivity. }
  assert (Hsame : forall url,
             extractProductUrl post comments = clean_trailing url ->
             extractProductUrl post comments = clean_trailing url
             /\ (ends_with_bracket url = false -> extractProductUrl post comments = url)).
  { intros url Heq. split; [exact Heq|].
    intros Hend. rewrite Heq. apply clean_trailing_unchanged. exact Hend. }
  split; [intros; apply Hsame; eapply H1; eassumption|]. split.
  - intros Hnostore earlier url later Hurls Hp Hno. apply Hsame.
    unfold extractProductUrl.
    fold urls. rewrite (first_pass_none urls Hnostore).
    rewrite Hurls, second_pass_skip by exact Hno.
    cbn [second_pass]. unfold survives in Hp. rewrite Hp. reflexivity.
  - intros Hself.
    assert (Hmd : markdown_urls
              (lit "check this out http://example.com/x then http://amazon.in/dp/123")
            = []) by (vm_compute; reflexivity).
    assert (Hplain : match_all
              (lit "check this out http://example.com/x then http://amazon.in/dp/123")
              plainUrl
            = [lit "http://example.com/x"; lit "http://amazon.in/dp/123"])
      by (vm_compute; reflexivity).
    assert (Hclean : clean_trailing (lit "http://amazon.in/dp/123")
                     = lit "http://amazon.in/dp/123") by (vm_compute; reflexivity).
    transitivity (clean_trailing (lit "http://amazon.in/dp/123")); [|exact Hclean].
    eapply (H1 [lit "http://example.com/x"]).
    + unfold urls, allUrls. rewrite Hself, Hmd, Hplain. reflexivity.
    + split; vm_compute; reflexivity.
    + intros v [<-|[]] [_ Hs]. vm_compute in Hs. discriminate.
Qed.

Lemma extractProductUrl_two_pass_witness :
  let post :=
    {| Post.id := lit "t3"; Post.title := lit "Nice find";
       Post.selftext :=
         lit "check this out http://example.com/x then http://amazon.in/dp/123";
       Post.url := lit "https://www.reddit.com/r/deals/comments/t3";
       Post.permalink := lit "/r/deals/comments/t3"; Post.is_self := true;
       Post.score := of_Z 1; Post.preview := None; Post.thumbnail := None |} in
  allUrls post [] = [lit "http://example.com/x"] ++ lit "http://amazon.in/dp/123" :: []
  /\ survives (lit "http://example.com/x")
  /\ ~ store_url (lit "http://example.com/x")
  /\ store_url (lit "http://amazon.in/dp/123")
  /\ ends_with_bracket (lit "http://amazon.in/dp/123") = false
  /\ extractProductUrl post [] = lit "http://amazon.in/dp/123".
Proof.
  intros post.
  assert (Hurls : allUrls post [] =
                  [lit "http://example.com/x"] ++ lit "http://amazon.in/dp/123" :: [])
    by (vm_compute; reflexivity).
  assert (Hsurv : survives (lit "http://example.com/x")) by (vm_compute; reflexivity).
  assert (Hnot : ~ store_url (lit "http://example.com/x"))
    by (intros [_ Hs]; vm_compute in Hs; discriminate).
  assert (Hstore : store_url (lit "http://amazon.in/dp/123"))
    by (split; vm_compute; reflexivity).
  assert (Hearlier : forall v, In v [lit "http://example.com/x"] -> ~ store_url v)
    by (intros v [<-|[]]; exact Hnot).
  destruct (extractProductUrl_two_pass post []) as (Hfirst & _ & _).
  destruct (Hfirst _ _ _ Hurls Hstore Hearlier) as [_ Hres].
  split; [exact Hurls|]. split; [exact Hsurv|]. split; [exact Hnot|].
  split; [exact Hstore|]. split; [reflexivity|].
  apply Hres. reflexivity.
Defined.

(* ================================================================= *)
(** * Title *)

Lemma cleanTitle_cases (title : jsstring) :
  (length (cleaned_title title) < 5 /\ cleanTitle title = trim title)
  \/ (5 <= length (cleaned_title title)
      /\ cleanTitle title =
           toUpperCase (charAt0 (cleaned_title title)) ++ slice_from 1 (cleaned_title title)
      /\ 5 <= length (cleanTitle title)).
Proof.
  unfold cleanTitle.
  destruct (length (cleaned_title title) <? 5) eqn:E.
  - left. apply Nat.ltb_lt in E. auto.
  - right. apply Nat.ltb_ge in E. split; [exact E|]. split; [reflexivity|].
    assert (Hne : cleaned_title title <> []).
    { intros F. rewrite F in E. simpl in E. lia. }
    pose proof (capitalized_length Hne). lia.
Qed.

Lemma cleanTitle_nonempty (title : jsstring) :
  trim title <> [] -> cleanTitle title <> [].
Proof.
  intros Ht. destruct (cleanTitle_cases title) as [[_ ->]|(_ & _ & Hlen)]; [exact Ht|].
  intros F. rewrite F in Hlen. simpl in Hlen. lia.
Qed.

(** C6 (amended). [cleanTitle] never returns a string shorter than 5
    characters unless the original title, trimmed, is itself shorter than 5
    characters: when the cleaned result is shorter than 5 characters the
    cleanup is discarded and the original title, trimmed, is returned as it
    is; otherwise the cleaned result is returned with its first character
    capitalized, and it has at least 5 characters. *)
Theorem cleanTitle_fallback_or_capitalized :
  forall title : jsstring,
    let cleaned := cleaned_title title in
    (length cleaned < 5 -> cleanTitle title = trim title)
    /\ (5 <= length cleaned ->
        cleanTitle title = toUpperCase (charAt0 cleaned) ++ slice_from 1 cleaned
        /\ 5 <= length (cleanTitle title))
    /\ (length (cleanTitle title) < 5 ->
        cleanTitle title = trim title /\ length (trim title) < 5).
Proof.
  intros title cleaned. subst cleaned.
  destruct (cleanTitle_cases title) as [[Hlt Heq]|(Hge & Heq & Hlen)].
  - split; [auto|]. split; [lia|]. intros Hs. rewrite <- Heq. auto.
  - split; [lia|]. split; [auto|]. lia.
Qed.

Lemma cleanTitle_fallback_or_capitalized_witness :
  (length (cleaned_title (lit "!! -- !!")) < 5
   /\ cleanTitle (lit "!! -- !!") = lit "!! -- !!")
  /\ (5 <= length (cleaned_title (lit "mega sale: usb hub!!"))
      /\ cleanTitle (lit "mega sale: usb hub!!") = lit "Usb hub")
  /\ (length (cleanTitle (lit " ab ")) < 5
      /\ cleanTitle (lit " ab ") = lit "ab" /\ length (trim (lit " ab ")) < 5)
  /\ (let title := [0x441; 0x43A; 0x438; 0x434; 0x43A; 0x430]%N ++ lit " laptop" in
      5 <= length (cleaned_title title)
      /\ cleanTitle title = [0x421; 0x43A; 0x438; 0x434; 0x43A; 0x430]%N ++ lit " laptop").
Proof.
  assert (H1 : length (cleaned_title (lit "!! -- !!")) < 5) by (vm_compute; lia).
  assert (H2 : 5 <= length (cleaned_title (lit "mega sale: usb hub!!")))
    by (vm_compute; lia).
  assert (H3 : length (cleanTitle (lit " ab ")) < 5) by (vm_compute; lia).
  destruct (cleanTitle_fallback_or_capitalized (lit "!! -- !!")) as (Ha & _ & _).
  destruct (cleanTitle_fallback_or_capitalized (lit "mega sale: usb hub!!"))
    as (_ & Hb & _).
  destruct (cleanTitle_fallback_or_capitalized (lit " ab ")) as (_ & _ & Hc).
  assert (H4 : 5 <= length (cleaned_title
                  ([0x441; 0x43A; 0x438; 0x434; 0x43A; 0x430]%N ++ lit " laptop")))
    by (vm_compute; lia).
  destruct (cleanTitle_fallback_or_capitalized
              ([0x441; 0x43A; 0x438; 0x434; 0x43A; 0x430]%N ++ lit " laptop"))
    as (_ & Hd & _).
  split; [split; [exact H1|]
         |split; [split; [exact H2|]|split; [split; [exact H3|]|split; [exact H4|]]]].
  - rewrite (Ha H1). vm_compute. reflexivity.
  - rewrite (proj1 (Hb H2)). vm_compute. reflexivity.
  - destruct (Hc H3) as [Heq Hlen]. split; [|exact Hlen].
    rewrite Heq. vm_compute. reflexivity.
  - rewrite (proj1 (Hd H4)). vm_compute. reflexivity.
Defined.

(** C6, as stated, fails on ["  abc  "], seven characters long: the cleaned
    result ["abc"] is shorter than 5, the trimmed original ["abc"] is
    returned, shorter than 5 as well, and its first character is left in
    lower case. *)
Lemma cleanTitle_short_uncapitalized :
  let title := lit "  abc  " in
  cleanTitle title = lit "abc"
  /\ length (cleanTitle title) < 5
  /\ ~ length title < 5
  /\ toUpperCase (charAt0 (cleanTitle title)) = lit "A"
  /\ charAt0 (cleanTitle title) = lit "a".
Proof.
  vm_compute. repeat split; try reflexivity; try lia.
Qed.

(* ================================================================= *)
(** * Image and orchestration *)

Section Resolver.

Variable fetch : jsstring -> outcome Response.
Variable og_image twitter_image : jsstring -> outcome (option jsstring).

Lemma fetchOgImage_returns (url : jsstring) :
  exists r, fetchOgImage fetch og_image twitter_image url = Returns r.
Proof.
  unfold fetchOgImage, try_catch.
  destruct (bind (fetch url) _) as [r|]; eauto.
Qed.

Lemma extractImageUrl_returns (post : RedditPost) (productUrl : jsstring) :
  exists img,
    extractImageUrl fetch og_image twitter_image post productUrl = Returns img.
Proof.
  unfold extractImageUrl.
  destruct (_ && isProductUrl productUrl); [|eauto].
  destruct (fetchOgImage_returns productUrl) as [r ->]. simpl. eauto.
Qed.

(** What [parseRedditPost] computes once the image is resolved. *)
Lemma parseRedditPost_unfold (post : RedditPost) (comments : list jsstring) :
  exists imageUrl,
    extractImageUrl fetch og_image twitter_image post
                    (extractProductUrl post comments) = Returns imageUrl
    /\ parseRedditPost fetch og_image twitter_image post comments =
       let fullText := Post.title post ++ lit " " ++ Post.selftext post in
       let productUrl := extractProductUrl post comments in
       let prices := extractPrices fullText in
       let discountPercent :=
         extractDiscount fullText (Prices.dealPrice prices) (Prices.originalPrice prices) in
       if existsb (fun pattern => test pattern (Post.title post)) skipPatterns
       then Returns None
       else if negb (truthy_opt (Prices.dealPrice prices))
               && negb (truthy_opt discountPercent)
               && includes (lit "reddit.com") productUrl
       then Returns None
       else
         Returns (Some
           {| Deal.title := cleanTitle (Post.title post);
              Deal.description :=
                if truthy_str (Post.selftext post)
                then Some (slice_to 2000 (Post.selftext post)) else None;
              Deal.originalPrice := Prices.originalPrice prices;
              Deal.dealPrice := Prices.dealPrice prices;
              Deal.discountPercent := discountPercent;
              Deal.currency := Prices.currency prices;
              Deal.productUrl := productUrl;
              Deal.imageUrl := imageUrl;
              Deal.store := detectStore productUrl;
              Deal.categorySlug := detectCategory fullText;
              Deal.redditPostId := Post.id post;
              Deal.redditScore := Post.score post |}).
Proof.
  destruct (extractImageUrl_returns post (extractProductUrl post comments)) as [img Himg].
  exists img. split; [exact Himg|].
  unfold parseRedditPost. rewrite Himg. reflexivity.
Qed.

End Resolver.

Lemma extractDiscount_valid (text : jsstring) (d o : option number) (x : number) :
  extractDiscount text d o = Some x -> valid_discount x = true.
Proof.
  unfold extractDiscount.
  assert (Hp : match d, o with
               | Some d', Some o' =>
                   if truthy d' && truthy o' && lt d' o' then
                     if valid_discount (Math_round (mul (div (sub o' d') o') (of_Z 100)))
                     then Some (Math_round (mul (div (sub o' d') o') (of_Z 100)))
                     else None
                   else None
               | _, _ => None
               end = Some x -> valid_discount x = true).
  { destruct d as [d'|], o as [o'|]; try discriminate.
    destruct (truthy d' && truthy o' && lt d' o'); [|discriminate].
    destruct (valid_discount _) eqn:E; [|discriminate].
    intros H. inversion H; subst. exact E. }
  destruct (str_match text discountPattern) as [m|]; [|exact Hp].
  destruct (valid_discount (parseInt (group 1 m))) eqn:E; [|exact Hp].
  intros H. inversion H; subst. exact E.
Qed.

Lemma extractDiscount_falsy (text : jsstring) (d o : option number) :
  truthy_opt (extractDiscount text d o) = false <-> extractDiscount text d o = None.
Proof.
  split; [|intros ->; reflexivity].
  destruct (extractDiscount text d o) as [x|] eqn:E; [|reflexivity].
  apply extractDiscount_valid in E. unfold valid_discount in E.
  apply andb_true_iff in E. destruct E as [E _].
  simpl. rewrite (lt_zero_truthy x E). discriminate.
Qed.

Lemma dealPrice_falsy (text : jsstring) :
  truthy_opt (Prices.dealPrice (extractPrices text)) = false <->
  Prices.dealPrice (extractPrices text) = None
  \/ exists s, Prices.dealPrice (extractPrices text) = Some (S754_zero s).
Proof.
  rewrite falsy_cases. pose proof (extractPrices_dealPrice_not_NaN text). tauto.
Qed.

(** C9. Image resolution never throws.  Whatever the request, the response
    and the markup do, [fetchOgImage] returns; a request that throws
    (network error, abort after the time-out), a response that is not [ok],
    a body that cannot be read and markup whose metadata cannot be read all
    make it return null.  So [extractImageUrl] always returns, with the image
    of the post itself (null when it has none) when the fetch gave nothing,
    and [parseRedditPost] never throws. *)
Theorem image_resolution_never_throws :
  forall (fetch : jsstring -> outcome Response)
         (og_image twitter_image : jsstring -> outcome (option jsstring)),
    let fetchOg := fetchOgImage fetch og_image twitter_image in
    (forall url, exists r, fetchOg url = Returns r)
    /\ (forall url, fetch url = Throws -> fetchOg url = Returns None)
    /\ (forall url response,
          fetch url = Returns response -> ok response = false ->
          fetchOg url = Returns None)
    /\ (forall url response,
          fetch url = Returns response -> text response = Throws ->
          fetchOg url = Returns None)
    /\ (forall url response html,
          fetch url = Returns response -> text response = Returns html ->
          og_image html = Throws ->
          fetchOg url = Returns None)
    /\ (forall url response html v,
          fetch url = Returns response -> text response = Returns html ->
          og_image html = Returns v -> truthy_ostr v = false ->
          twitter_image html = Throws ->
          fetchOg url = Returns None)
    /\ (forall post productUrl,
          exists img,
            extractImageUrl fetch og_image twitter_image post productUrl = Returns img
            /\ (fetchOg productUrl = Returns None -> img = own_image post))
    /\ (forall post comments,
          parseRedditPost fetch og_image twitter_image post comments <> Throws).
Proof.
  intros fetch og_image twitter_image fetchOg. subst fetchOg.
  split; [apply fetchOgImage_returns|].
  split; [intros url H; unfold fetchOgImage; rewrite H; reflexivity|].
  split; [intros url response H Hok; unfold fetchOgImage; rewrite H; simpl;
          rewrite Hok; reflexivity|].
  split; [intros url response H Ht; unfold fetchOgImage; rewrite H; simpl;
          rewrite Ht; destruct (ok response); reflexivity|].
  split; [intros url response html H Ht Hog; unfold fetchOgImage; rewrite H; simpl;
          rewrite Ht; destruct (ok response); simpl; [rewrite Hog|]; reflexivity|].
  split; [intros url response html v H Ht Hog Hv Htw; unfold fetchOgImage;
          rewrite H; simpl; rewrite Ht; destruct (ok response); simpl;
          [rewrite Hog; simpl; rewrite Hv; simpl; rewrite Htw|]; reflexivity|].
  split.
  - intros post productUrl. unfold extractImageUrl.
    destruct (_ && isProductUrl productUrl).
    + destruct (fetchOgImage_returns fetch og_image twitter_image productUrl) as [r Hr].
      rewrite Hr. simpl. eexists. split; [reflexivity|].
      intros E. inversion E; subst. reflexivity.
    + eexists. split; reflexivity.
  - intros post comments.
    destruct (parseRedditPost_unfold fetch og_image twitter_image post comments)
      as (img & _ & ->).
    cbv zeta. destruct (existsb _ skipPatterns); [discriminate|].
    destruct (_ && includes _ _); discriminate.
Qed.

Lemma image_resolution_never_throws_witness :
  let post := sony_post (lit "/r/deals/comments/abc") None None in
  fetch_fails (lit "http://amazon.com/dp/xyz") = Throws
  /\ fetchOgImage fetch_fails no_meta no_meta (lit "http://amazon.com/dp/xyz")
     = Returns None
  /\ extractImageUrl fetch_fails no_meta no_meta post (lit "http://amazon.com/dp/xyz")
     = Returns None.
Proof.
  intros post.
  destruct (image_resolution_never_throws fetch_fails no_meta no_meta)
    as (_ & Hthrow & _ & _ & _ & _ & Himg & _).
  pose proof (Hthrow (lit "http://amazon.com/dp/xyz") eq_refl) as Hnone.
  destruct (Himg post (lit "http://amazon.com/dp/xyz")) as (img & Hret & Hown).
  split; [reflexivity|]. split; [exact Hnone|].
  rewrite Hret, (Hown Hnone). reflexivity.
Defined.

(** No candidate survives exactly when the permalink fallback is returned. *)
Lemma extractProductUrl_fallback (post : RedditPost) (comments : list jsstring) :
  (forall url, In url (allUrls post comments) -> isProductUrl url = false) <->
  extractProductUrl post comments = lit "https://reddit.com" ++ Post.permalink post.
Proof.
  split.
  - intros Hno. unfold extractProductUrl.
    rewrite first_pass_none.
    + rewrite (proj2 (second_pass_none _) Hno). reflexivity.
    + intros v Hv [Hp _]. rewrite (Hno v Hv) in Hp. discriminate.
  - intros Heq. apply second_pass_none.
    pose proof (extractProductUrl_reddit post comments) as Hr.
    rewrite Heq, permalink_is_reddit in Hr.
    destruct (second_pass (allUrls post comments)); [discriminate|reflexivity].
Qed.

(** C7 (amended). [parseRedditPost] returns null exactly when either (1) the
    raw title matches one of the denylist patterns, whatever the body, or
    (2) all three hold: the extracted [dealPrice] is absent or zero, no
    [discountPercent] was derived, and no candidate URL survived, so that
    [productUrl] is the post's own permalink; in every other case, absent
    exceptions, what it returns is a [ParsedDeal]. *)
Theorem parseRedditPost_null_iff :
  forall (fetch : jsstring -> outcome Response)
         (og_image twitter_image : jsstring -> outcome (option jsstring))
         (post : RedditPost) (comments : list jsstring),
    let parsed := parseRedditPost fetch og_image twitter_image post comments in
    let fullText := Post.title post ++ lit " " ++ Post.selftext post in
    let dealPrice := Prices.dealPrice (extractPrices fullText) in
    let discountPercent :=
      extractDiscount fullText dealPrice (Prices.originalPrice (extractPrices fullText)) in
    (parsed = Returns None <->
       existsb (fun pattern => test pattern (Post.title post)) skipPatterns = true
       \/ ((dealPrice = None \/ exists s, dealPrice = Some (S754_zero s))
           /\ discountPercent = None
           /\ extractProductUrl post comments
              = lit "https://reddit.com" ++ Post.permalink post))
    /\ (forall result,
          parsed = Returns result ->
          ~ (existsb (fun pattern => test pattern (Post.title post)) skipPatterns = true
             \/ ((dealPrice = None \/ exists s, dealPrice = Some (S754_zero s))
                 /\ discountPercent = None
                 /\ extractProductUrl post comments
                    = lit "https://reddit.com" ++ Post.permalink post)) ->
          exists deal, result = Some deal)
    /\ (extractProductUrl post comments = lit "https://reddit.com" ++ Post.permalink post
        <-> forall url, In url (allUrls post comments) -> isProductUrl url = false).
Proof.
  intros fetch og_image twitter_image post comments parsed fullText dealPrice
         discountPercent.
  destruct (parseRedditPost_unfold fetch og_image twitter_image post comments)
    as (img & _ & Hparse).
  cbv zeta in Hparse. fold fullText dealPrice discountPercent parsed in Hparse.
  pose proof (dealPrice_falsy fullText) as Hdeal. fold dealPrice in Hdeal.
  pose proof (extractDiscount_falsy fullText dealPrice
                (Prices.originalPrice (extractPrices fullText))) as Hdisc.
  fold discountPercent in Hdisc.
  pose proof (extractProductUrl_reddit post comments) as Hred.
  pose proof (extractProductUrl_fallback post comments) as Hfb.
  assert (Hurl : includes (lit "reddit.com") (extractProductUrl post comments) = true
                 <-> extractProductUrl post comments
                     = lit "https://reddit.com" ++ Post.permalink post).
  { rewrite <- Hfb, <- second_pass_none, Hred.
    destruct (second_pass (allUrls post comments)); split; congruence. }
  assert (Hiff : parsed = Returns None <->
            existsb (fun pattern => test pattern (Post.title post)) skipPatterns = true
            \/ ((dealPrice = None \/ exists s, dealPrice = Some (S754_zero s))
                /\ discountPercent = None
                /\ extractProductUrl post comments
                   = lit "https://reddit.com" ++ Post.permalink post)).
  { rewrite Hparse.
    destruct (existsb _ skipPatterns); [split; auto|].
    destruct (truthy_opt dealPrice) eqn:Ed; cbn [negb andb].
    + split; [discriminate|]. intros [F|[Hd _]]; [discriminate|].
      apply Hdeal in Hd. discriminate.
    + destruct (truthy_opt discountPercent) eqn:Ec; cbn [negb andb].
      * split; [discriminate|]. intros [F|(_ & Hc & _)]; [discriminate|].
        apply Hdisc in Hc. discriminate.
      * destruct (includes (lit "reddit.com") (extractProductUrl post comments)) eqn:Ei.
        -- split; [|reflexivity]. intros _. right.
           split; [apply Hdeal; reflexivity|].
           split; [apply Hdisc; reflexivity|apply Hurl; reflexivity].
        -- split; [discriminate|]. intros [F|(_ & _ & Hu)]; [discriminate|].
           apply Hurl in Hu. discriminate. }
  split; [exact Hiff|]. split; [|symmetry; exact Hfb].
  intros [deal|] E Hother; [exists deal; reflexivity|].
  exfalso. apply Hother. apply Hiff. exact E.
Qed.

Lemma parseRedditPost_null_iff_witness :
  let post := self_post (lit "Widget $5") [] in
  existsb (fun pattern => test pattern (Post.title post)) skipPatterns = false
  /\ Prices.dealPrice (extractPrices (Post.title post ++ lit " " ++ Post.selftext post))
     = Some (of_Z 5)
  /\ exists deal,
       parseRedditPost fetch_fails no_meta no_meta post [] = Returns (Some deal).
Proof.
  intros post.
  assert (Hs : existsb (fun pattern => test pattern (Post.title post)) skipPatterns = false)
    by (vm_compute; reflexivity).
  assert (Hd : Prices.dealPrice
                 (extractPrices (Post.title post ++ lit " " ++ Post.selftext post))
               = Some (of_Z 5))
    by (vm_compute; reflexivity).
  split; [exact Hs|]. split; [exact Hd|].
  destruct (parseRedditPost_null_iff fetch_fails no_meta no_meta post [])
    as (_ & Hother & _).
  destruct (parseRedditPost fetch_fails no_meta no_meta post []) as [result|] eqn:E.
  - destruct (Hother result eq_refl) as [deal Hdeal].
    + intros [F|[[Hn|[s Hz]] _]].
      * rewrite Hs in F. discriminate.
      * rewrite Hd in Hn. discriminate.
      * rewrite Hd in Hz. vm_compute in Hz. discriminate.
    + exists deal. rewrite Hdeal. reflexivity.
  - vm_compute in E. discriminate.
Defined.

(** C7, as stated, fails when the extracted deal price is 0: the self post
    titled ["$0 was $5"] is not on the denylist and a deal price (0) and an
    original price (5) were extracted from it, yet the result is null. *)
Lemma parseRedditPost_drops_zero_price :
  let post := self_post (lit "$0 was $5") [] in
  let fullText := Post.title post ++ lit " " ++ Post.selftext post in
  parseRedditPost fetch_fails no_meta no_meta post [] = Returns None
  /\ existsb (fun pattern => test pattern (Post.title post)) skipPatterns = false
  /\ Prices.dealPrice (extractPrices fullText) = Some zero
  /\ Prices.originalPrice (extractPrices fullText) = Some (of_Z 5).
Proof. vm_compute. repeat split; reflexivity. Qed.

(** C8 (amended). Every [ParsedDeal] returned by [parseRedditPost] has the
    raw title run through [cleanTitle] as its title, and that title is not
    empty whenever the raw title holds a character that is not white space. *)
Theorem parsed_title_nonempty :
  forall (fetch : jsstring -> outcome Response)
         (og_image twitter_image : jsstring -> outcome (option jsstring))
         (post : RedditPost) (comments : list jsstring) (deal : ParsedDeal),
    parseRedditPost fetch og_image twitter_image post comments = Returns (Some deal) ->
    Deal.title deal = cleanTitle (Post.title post)
    /\ (trim (Post.title post) <> [] -> Deal.title deal <> []).
Proof.
  intros fetch og_image twitter_image post comments deal H.
  destruct (parseRedditPost_unfold fetch og_image twitter_image post comments)
    as (img & _ & Hparse).
  rewrite Hparse in H. cbv zeta in H.
  destruct (existsb _ skipPatterns); [discriminate|].
  destruct (_ && includes _ _); [discriminate|].
  inversion H; subst deal; clear H. cbn [Deal.title].
  split; [reflexivity|apply cleanTitle_nonempty].
Qed.

Lemma parsed_title_nonempty_witness :
  let post := self_post (lit "  usb hub $5  ") [] in
  (exists deal,
      parseRedditPost fetch_fails no_meta no_meta post [] = Returns (Some deal)
      /\ Deal.title deal = lit "Usb hub $5")
  /\ trim (Post.title post) <> [].
Proof.
  intros post.
  destruct (parseRedditPost fetch_fails no_meta no_meta post []) as [[deal|]|] eqn:E;
    try (vm_compute in E; discriminate).
  assert (Ht : trim (Post.title post) <> []) by (vm_compute; discriminate).
  destruct (parsed_title_nonempty fetch_fails no_meta no_meta post [] E) as [Heq Hne].
  pose proof (Hne Ht) as _.
  split; [|exact Ht].
  exists deal. split; [reflexivity|].
  rewrite Heq. vm_compute. reflexivity.
Defined.

(** C8, as stated, fails for a title without visible characters: the post
    with the empty title and the body ["$5"] is parsed into a deal whose
    title is the empty string. *)
Lemma parsed_title_empty :
  exists deal,
    parseRedditPost fetch_fails no_meta no_meta (self_post [] (lit "$5")) []
    = Returns (Some deal)
    /\ Deal.title deal = []
    /\ Deal.dealPrice deal = Some (of_Z 5).
Proof. eexists. vm_compute. repeat split; reflexivity. Qed.

(** C1 (amended). For the post with title
    ["(fire) HUGE DEAL: Sony Headphones $199 (was $299) link in comments"],
    empty body, [is_self] false, url ["http://amazon.com/dp/xyz"], score 50,
    id ["abc"] and no comments -- whatever its permalink, preview and
    thumbnail, and whatever the network does -- [parseRedditPost] returns a
    deal with title ["HUGE DEAL: Sony Headphones $199 (was $299)"],
    dealPrice 199, originalPrice 299, discountPercent 33, currency USD,
    store Amazon, categorySlug electronics and productUrl
    ["http://amazon.com/dp/xyz"]. *)
Theorem parseRedditPost_sony :
  forall (fetch : jsstring -> outcome Response)
         (og_image twitter_image : jsstring -> outcome (option jsstring))
         (permalink : jsstring) (preview : option (list Image.PreviewImage))
         (thumbnail : option jsstring),
  exists deal,
    parseRedditPost fetch og_image twitter_image
                    (sony_post permalink preview thumbnail) [] = Returns (Some deal)
    /\ Deal.title deal = lit "HUGE DEAL: Sony Headphones $199 (was $299)"
    /\ Deal.dealPrice deal = Some (of_Z 199)
    /\ Deal.originalPrice deal = Some (of_Z 299)
    /\ Deal.discountPercent deal = Some (of_Z 33)
    /\ Deal.currency deal = lit "USD"
    /\ Deal.store deal = Some (lit "Amazon")
    /\ Deal.categorySlug deal = lit "electronics"
    /\ Deal.productUrl deal = lit "http://amazon.com/dp/xyz"
    /\ Deal.description deal = None
    /\ Deal.redditPostId deal = lit "abc"
    /\ Deal.redditScore deal = of_Z 50.
Proof.
  intros fetch og_image twitter_image permalink preview thumbnail.
  destruct (parseRedditPost_unfold fetch og_image twitter_image
              (sony_post permalink preview thumbnail) []) as (img & _ & ->).
  cbv zeta.
  assert (Hskip : existsb (fun pattern =>
                             test pattern (Post.title (sony_post permalink preview thumbnail)))
                          skipPatterns = false) by (vm_compute; reflexivity).
  assert (Hprice : truthy_opt (Prices.dealPrice (extractPrices
                     (Post.title (sony_post permalink preview thumbnail) ++ lit " "
                      ++ Post.selftext (sony_post permalink preview thumbnail)))) = true)
    by (vm_compute; reflexivity).
  rewrite Hskip, Hprice. cbn [negb andb].
  eexists. split; [reflexivity|].
  cbn [Deal.title Deal.dealPrice Deal.originalPrice Deal.discountPercent
       Deal.currency Deal.store Deal.categorySlug Deal.productUrl
       Deal.description Deal.redditPostId Deal.redditScore].
  repeat split; vm_compute; reflexivity.
Qed.

(** C1, as stated, fails on the title: with a permalink, no preview, no
    thumbnail and a network that is down, the deal's title is
    ["HUGE DEAL: Sony Headphones $199 (was $299)"], not ["Sony Headphones"]:
    the hype prefix is not at the start of the raw title, and
    [cleanTitle] strips no prices. *)
Lemma parseRedditPost_sony_title :
  exists deal,
    parseRedditPost fetch_fails no_meta no_meta
                    (sony_post (lit "/r/deals/comments/abc") None None) []
    = Returns (Some deal)
    /\ Deal.title deal = lit "HUGE DEAL: Sony Headphones $199 (was $299)"
    /\ Deal.title deal <> lit "Sony Headphones".
Proof.
  eexists. split; [vm_compute; reflexivity|].
  split; [reflexivity|]. vm_compute. discriminate.
Qed.

(* ================================================================= *)
(** * The batch driver *)

Section BatchFacts.

Variable fetch : jsstring -> outcome Response.
Variable og_image twitter_image : jsstring -> outcome (option jsstring).
Variable fetchComments : option (jsstring -> outcome (list jsstring)).

Let guarded := parse_guarded fetch og_image twitter_image fetchComments.
Let batch := parseRedditPosts fetch og_image twitter_image fetchComments.

Lemma parse_guarded_returns (post : RedditPost) :
  exists r, guarded post = Returns r.
Proof.
  unfold guarded, parse_guarded, try_catch.
  destruct (bind _ _) as [r|]; eauto.
Qed.

(** A deal a task returns is the parse of its post with some comments. *)
Lemma parse_guarded_deal (post : RedditPost) (d : ParsedDeal) :
  guarded post = Returns (Some d) ->
  exists comments,
    parseRedditPost fetch og_image twitter_image post comments = Returns (Some d).
Proof.
  unfold guarded, parse_guarded, try_catch.
  destruct fetchComments as [fetcher|]; cbn [bind].
  - destruct (fetcher (Post.id post)) as [comments|]; cbn [bind]; [|discriminate].
    destruct (parseRedditPost _ _ _ post comments) as [r|] eqn:E; [|discriminate].
    intros H. inversion H; subst. eauto.
  - destruct (parseRedditPost _ _ _ post []) as [r|] eqn:E; [|discriminate].
    intros H. inversion H; subst. eauto.
Qed.

(** The batch is the concatenation of the contributions of its posts. *)
Lemma parseRedditPosts_contributions (posts : list RedditPost) :
  batch posts = Returns (flat_map (fun post => contribution (guarded post)) posts).
Proof.
  unfold batch, parseRedditPosts. fold guarded.
  assert (H : exists results,
              promise_all (map guarded posts) = Returns results
              /\ flat_map (fun deal => match deal with
                                       | Some d => [d]
                                       | None => []
                                       end) results
                 = flat_map (fun post => contribution (guarded post)) posts).
  { induction posts as [|p ps (results & IH & Hflat)].
    - exists []. split; reflexivity.
    - cbn [map promise_all]. rewrite IH.
      destruct (parse_guarded_returns p) as [r Hr]. rewrite Hr.
      exists (r :: results). split; [reflexivity|].
      cbn [flat_map]. rewrite Hflat, Hr. destruct r; reflexivity. }
  destruct H as (results & -> & <-). reflexivity.
Qed.

Lemma parsed_id (post : RedditPost) (comments : list jsstring) (d : ParsedDeal) :
  parseRedditPost fetch og_image twitter_image post comments = Returns (Some d) ->
  Deal.redditPostId d = Post.id post.
Proof.
  destruct (parseRedditPost_unfold fetch og_image twitter_image post comments)
    as (img & _ & ->).
  cbv zeta. destruct (existsb _ skipPatterns); [discriminate|].
  destruct (_ && includes _ _); [discriminate|].
  intros H. inversion H; subst. reflexivity.
Qed.

End BatchFacts.

(** X1. [parseRedditPosts] never throws, whatever the comment fetcher and
    the network do.  It returns at most one deal per post, in the order of
    the posts: the post ids of the deals are the ids of the posts with some
    left out, and each deal is the parse of one of the posts with the
    comments fetched for it. *)
Theorem parseRedditPosts_ordered :
  forall (fetch : jsstring -> outcome Response)
         (og_image twitter_image : jsstring -> outcome (option jsstring))
         (fetchComments : option (jsstring -> outcome (list jsstring)))
         (posts : list RedditPost),
  exists deals,
    parseRedditPosts fetch og_image twitter_image fetchComments posts = Returns deals
    /\ length deals <= length posts
    /\ Subseq (map Deal.redditPostId deals) (map Post.id posts)
    /\ (forall d, In d deals ->
          exists post comments,
            In post posts
            /\ parseRedditPost fetch og_image twitter_image post comments
               = Returns (Some d)).
Proof.
  intros fetch og_image twitter_image fetchComments posts.
  rewrite parseRedditPosts_contributions. eexists. split; [reflexivity|].
  induction posts as [|p ps (Hlen & Hsub & Hin)]; cbn [flat_map map length].
  - split; [lia|]. split; [constructor|]. intros d [].
  - destruct (parse_guarded fetch og_image twitter_image fetchComments p)
      as [[d|]|] eqn:E; cbn [contribution app length map].
    + destruct (@parse_guarded_deal fetch og_image twitter_image fetchComments p d E)
        as [comments Hd].
      split; [lia|]. split.
      * rewrite (@parsed_id fetch og_image twitter_image p comments d Hd).
        apply Subseq_keep. exact Hsub.
      * intros d' [<-|Hd'].
        -- exists p, comments. split; [left; reflexivity|exact Hd].
        -- destruct (Hin d' Hd') as (post & cs & Hp & Hr).
           exists post, cs. split; [right; exact Hp|exact Hr].
    + split; [lia|]. split; [apply Subseq_skip; exact Hsub|].
      intros d' Hd'. destruct (Hin d' Hd') as (post & cs & Hp & Hr).
      exists post, cs. split; [right; exact Hp|exact Hr].
    + split; [lia|]. split; [apply Subseq_skip; exact Hsub|].
      intros d' Hd'. destruct (Hin d' Hd') as (post & cs & Hp & Hr).
      exists post, cs. split; [right; exact Hp|exact Hr].
Qed.

(** X2. The posts of a batch do not affect one another: the deals of two
    lists of posts put together are the deals of the first followed by the
    deals of the second, and a post whose comments cannot be fetched, or
    whose title is on the denylist, can be taken out of the batch without
    changing its output. *)
Theorem parseRedditPosts_isolation :
  forall (fetch : jsstring -> outcome Response)
         (og_image twitter_image : jsstring -> outcome (option jsstring))
         (fetchComments : option (jsstring -> outcome (list jsstring))),
    let batch := parseRedditPosts fetch og_image twitter_image fetchComments in
    (forall l1 l2 d1 d2,
        batch l1 = Returns d1 -> batch l2 = Returns d2 ->
        batch (l1 ++ l2) = Returns (d1 ++ d2))
    /\ (forall l1 post l2 fetcher,
          fetchComments = Some fetcher -> fetcher (Post.id post) = Throws ->
          batch (l1 ++ post :: l2) = batch (l1 ++ l2))
    /\ (forall l1 post l2,
          existsb (fun pattern => test pattern (Post.title post)) skipPatterns = true ->
          batch (l1 ++ post :: l2) = batch (l1 ++ l2)).
Proof.
  intros fetch og_image twitter_image fetchComments batch. subst batch.
  assert (Hdrop : forall l1 post l2,
            contribution (parse_guarded fetch og_image twitter_image fetchComments post) = [] ->
            parseRedditPosts fetch og_image twitter_image fetchComments (l1 ++ post :: l2)
            = parseRedditPosts fetch og_image twitter_image fetchComments (l1 ++ l2)).
  { intros l1 post l2 H. rewrite !parseRedditPosts_contributions.
    rewrite !flat_map_app. cbn [flat_map]. rewrite H. reflexivity. }
  split; [|split].
  - intros l1 l2 d1 d2. rewrite !parseRedditPosts_contributions, flat_map_app.
    intros H1 H2. inversion H1; inversion H2; subst. reflexivity.
  - intros l1 post l2 fetcher Hf Ht. apply Hdrop.
    unfold parse_guarded. rewrite Hf, Ht. reflexivity.
  - intros l1 post l2 Hskip. apply Hdrop.
    unfold parse_guarded, parseRedditPost.
    destruct fetchComments as [fetcher|]; cbn [bind].
    + destruct (fetcher (Post.id post)); cbn [bind try_catch]; [|reflexivity].
      rewrite Hskip. reflexivity.
    + rewrite Hskip. reflexivity.
Qed.

Lemma parseRedditPosts_isolation_witness :
  let fetcher := fun id : jsstring =>
                   if startsWith (lit "t3_1") id then Throws else Returns [] in
  let batch := parseRedditPosts fetch_fails no_meta no_meta (Some fetcher) in
  let good := sony_post (lit "/r/deals/comments/abc") None None in
  let bad := self_post (lit "Deal $5") [] in
  let rules :=
    {| Post.id := lit "t3_2"; Post.title := lit "[Meta] rules of the sub";
       Post.selftext := []; Post.url := lit "http://amazon.com/dp/xyz";
       Post.permalink := lit "/r/deals/comments/2"; Post.is_self := false;
       Post.score := of_Z 1; Post.preview := None; Post.thumbnail := None |} in
  batch [bad] = Returns []
  /\ batch [rules] = Returns []
  /\ batch ([bad] ++ [rules]) = Returns ([] ++ [])
  /\ fetcher (Post.id bad) = Throws
  /\ batch [good; bad; good] = batch [good; good]
  /\ existsb (fun pattern => test pattern (Post.title rules)) skipPatterns = true
  /\ batch [good; rules; good] = batch [good; good].
Proof.
  intros fetcher batch good bad rules.
  destruct (parseRedditPosts_isolation fetch_fails no_meta no_meta (Some fetcher))
    as (Happ & Hthrow & Hskip).
  assert (E1 : batch [bad] = Returns []) by reflexivity.
  assert (E2 : batch [rules] = Returns []) by (vm_compute; reflexivity).
  assert (E3 : existsb (fun pattern => test pattern (Post.title rules)) skipPatterns = true)
    by (vm_compute; reflexivity).
  split; [exact E1|]. split; [exact E2|].
  split; [exact (Happ [bad] [rules] [] [] E1 E2)|].
  split; [reflexivity|].
  split; [exact (Hthrow [good] bad [good] fetcher eq_refl eq_refl)|].
  split; [exact E3|].
  exact (Hskip [good] rules [good] E3).
Defined.

(* ================================================================= *)
(** * Category *)

(** The running maximum of [detectCategory]: the entry kept is the first one
    whose score is above the start and above every entry before it, and no
    later entry is above it. *)
Lemma best_entry (l : list (jsstring * nat)) :
  forall start : jsstring * nat,
    let best := fold_left (fun best entry =>
                             if snd best <? snd entry then entry else best)
                          l start in
    (best = start /\ forall e, In e l -> snd e <= snd start)
    \/ (exists earlier later,
          l = earlier ++ best :: later
          /\ snd start < snd best
          /\ (forall e, In e earlier -> snd e < snd best)
          /\ (forall e, In e later -> snd e <= snd best)).
Proof.
  induction l as [|x t IH]; intros start; cbn [fold_left].
  - left. split; [reflexivity|]. intros e [].
  - destruct (snd start <? snd x) eqn:E.
    + apply Nat.ltb_lt in E.
      destruct (IH x) as [[Hb Hle]|(earlier & later & Hl & Hlt & He & Hla)].
      * right. exists [], t. cbv zeta in Hb. rewrite Hb.
        split; [reflexivity|]. split; [exact E|]. split; [intros e []|exact Hle].
      * right. exists (x :: earlier), later. cbv zeta in *.
        split; [rewrite Hl at 1; reflexivity|]. split; [lia|].
        split; [|exact Hla]. intros e [<-|Hin]; [exact Hlt|auto].
    + apply Nat.ltb_ge in E.
      destruct (IH start) as [[Hb Hle]|(earlier & later & Hl & Hlt & He & Hla)].
      * left. cbv zeta in *. split; [exact Hb|].
        intros e [<-|Hin]; [exact E|auto].
      * right. exists (x :: earlier), later. cbv zeta in *.
        split; [rewrite Hl at 1; reflexivity|]. split; [exact Hlt|].
        split; [|exact Hla]. intros e [<-|Hin]; [lia|auto].
Qed.

(** The score of a category is 0 exactly when none of its keywords occurs. *)
Lemma keyword_score_zero (lowerText : jsstring) (keywords : list jsstring) :
  keyword_score lowerText keywords = 0 <->
  forall keyword, In keyword keywords -> includes keyword lowerText = false.
Proof.
  unfold keyword_score.
  assert (Hgen : forall acc,
    fold_left (fun score keyword =>
                 if includes keyword lowerText
                 then score + (if 5 <? length keyword then 2 else 1)
                 else score) keywords acc = 0 <->
    acc = 0 /\ forall keyword, In keyword keywords -> includes keyword lowerText = false).
  { induction keywords as [|k ks IH]; intros acc; cbn [fold_left].
    - split; [intros ->; split; [reflexivity|intros ? []]|tauto].
    - rewrite IH. destruct (includes k lowerText) eqn:E.
      + split.
        * intros [H _]. destruct (5 <? length k); lia.
        * intros [_ H]. rewrite (H k (or_introl eq_refl)) in E. discriminate.
      + split.
        * intros [-> H]. split; [reflexivity|]. intros k' [<-|Hin]; auto.
        * intros [-> H]. split; [reflexivity|]. intros k' Hin. apply H. right. exact Hin. }
  rewrite Hgen. tauto.
Qed.

(** X3. [detectCategory] returns the category with the highest keyword
    score, the first of them in the order of [CATEGORY_KEYWORDS] when several
    share it: every category before it scores strictly less and none after
    it scores more.  It returns ["other"] exactly when no keyword of any
    category occurs in the lower-cased text. *)
Theorem detectCategory_highest_score :
  forall text : jsstring,
    let score (keywords : list jsstring) := keyword_score (toLowerCase text) keywords in
    ((forall category keywords keyword,
         In (category, keywords) CATEGORY_KEYWORDS -> In keyword keywords ->
         includes keyword (toLowerCase text) = false)
     /\ detectCategory text = lit "other")
    \/ (exists earlier category keywords later,
          CATEGORY_KEYWORDS = earlier ++ (category, keywords) :: later
          /\ detectCategory text = category
          /\ 0 < score keywords
          /\ (forall c k, In (c, k) earlier -> score k < score keywords)
          /\ (forall c k, In (c, k) later -> score k <= score keywords)).
Proof.
  intros text score. unfold detectCategory. cbv zeta.
  set (f := fun entry : jsstring * list jsstring =>
              (fst entry, keyword_score (toLowerCase text) (snd entry))).
  destruct (best_entry (map f CATEGORY_KEYWORDS) (lit "other", 0))
    as [[Hb Hle]|(earlier & later & Hl & Hlt & He & Hla)]; cbv zeta in *.
  - left. rewrite Hb. cbn [snd fst Nat.ltb Nat.leb]. split; [|reflexivity].
    intros category keywords keyword Hc Hk.
    assert (Hz : keyword_score (toLowerCase text) keywords = 0).
    { specialize (Hle (f (category, keywords)) (in_map f _ _ Hc)).
      cbn [f snd] in Hle. lia. }
    apply (proj1 (keyword_score_zero _ _) Hz). exact Hk.
  - right. set (best := fold_left _ _ _) in *.
    apply map_eq_app in Hl. destruct Hl as (earlier' & rest' & Hcat & He' & Hr).
    apply map_eq_cons in Hr. destruct Hr as ([c kws] & later' & -> & Hbest & Hla').
    exists earlier', c, kws, later'. subst earlier later.
    cbn [snd] in Hlt. rewrite <- Hbest in *. cbn [f fst snd] in *.
    split; [exact Hcat|].
    destruct (0 <? score kws) eqn:E; [|apply Nat.ltb_ge in E; unfold score in E; lia].
    unfold score in E. rewrite E.
    split; [reflexivity|]. split; [exact Hlt|]. split.
    + intros c' k' Hin. apply (He (f (c', k'))). apply in_map. exact Hin.
    + intros c' k' Hin. apply (Hla (f (c', k'))). apply in_map. exact Hin.
Qed.

(* ================================================================= *)
(** * What a group captures *)

Lemma consumed_between (st st' : mstate) (taken : list N) :
  seen st' = rev taken ++ seen st -> consumed st st' = taken.
Proof.
  intros H. unfold consumed. rewrite H.
  rewrite length_app, Nat.add_sub, firstn_app, Nat.sub_diag, firstn_all.
  simpl. rewrite app_nil_r, rev_involutive. reflexivity.
Qed.

Lemma accepts_app icase (l1 l2 : list atom) (c : N) :
  accepts icase (l1 ++ l2) c = accepts icase l1 c || accepts icase l2 c.
Proof. unfold accepts. apply existsb_app. Qed.

Section Captures.

Variable icase : bool.
Variable P : N -> bool.

(** A successful match of [r] has read characters of the atoms of [r] only,
    and so has every group inside [r]. *)
Lemma rmatch_reads (r : regex) :
  (forall c, accepts icase (atoms r) c = true -> P c = true) ->
  forall st (k : cont) x,
    rmatch icase r st k = Some x ->
    exists st' taken,
      seen st' = rev taken ++ seen st
      /\ rest st = taken ++ rest st'
      /\ Forall (fun c => P c = true) taken
      /\ (caps_within P (caps st) -> caps_within P (caps st'))
      /\ k st' = Some x.
Proof.
  induction r as [|a|r1 IH1 r2 IH2|r1 IH1 r2 IH2|a mn mx g|r1 IH1|i r1 IH1| | |a];
    intros HP st k x H; cbn [rmatch] in H.
  - exists st, []. repeat split; auto.
  - destruct (rest st) as [|c t] eqn:Hr; [discriminate|].
    destruct (atom_matches icase a c) eqn:Hc; [|discriminate].
    exists {| seen := c :: seen st; rest := t; caps := caps st |}, [c].
    cbn [seen rest caps].
    split; [reflexivity|]. split; [reflexivity|]. split; [|split; [auto|exact H]].
    constructor; [|constructor]. apply HP. cbn. rewrite Hc. reflexivity.
  - cbn [atoms] in HP.
    apply IH1 in H; [|intros c Hc; apply HP; rewrite accepts_app, Hc; reflexivity].
    destruct H as (st1 & t1 & Hs1 & Hr1 & Ht1 & Hc1 & H).
    apply IH2 in H; [|intros c Hc; apply HP; rewrite accepts_app, Hc; apply orb_true_r].
    destruct H as (st2 & t2 & Hs2 & Hr2 & Ht2 & Hc2 & H).
    exists st2, (t1 ++ t2).
    split; [rewrite Hs2, Hs1, rev_app_distr, app_assoc; reflexivity|].
    split; [rewrite Hr1, Hr2, app_assoc; reflexivity|].
    split; [apply Forall_app; auto|]. split; [auto|exact H].
  - cbn [atoms] in HP. destruct (rmatch icase r1 st k) eqn:E.
    + inversion H; subst.
      apply IH1 in E; [exact E|intros c Hc; apply HP; rewrite accepts_app, Hc; reflexivity].
    + apply IH2 in H; [exact H|intros c Hc; apply HP; rewrite accepts_app, Hc; apply orb_true_r].
  - apply rep_match_run in H.
    destruct H as (taken & rest' & Ht & Hall & _ & _ & Hk).
    exists {| seen := rev taken ++ seen st; rest := rest'; caps := caps st |}, taken.
    cbn [seen rest caps].
    split; [reflexivity|]. split; [exact Ht|]. split; [|split; [auto|exact Hk]].
    apply Forall_impl with (2 := Hall). intros c Hc. apply HP. cbn. rewrite Hc. reflexivity.
  - cbn [atoms] in HP. destruct (rmatch icase r1 st k) eqn:E.
    + inversion H; subst. apply IH1 in E; [exact E|exact HP].
    + exists st, []. repeat split; auto.
  - cbn [atoms] in HP. apply IH1 in H; [|exact HP].
    destruct H as (st1 & t1 & Hs1 & Hr1 & Ht1 & Hc1 & H).
    exists {| seen := seen st1; rest := rest st1;
              caps := (i, consumed st st1) :: caps st1 |}, t1.
    cbn [seen rest caps].
    split; [exact Hs1|]. split; [exact Hr1|]. split; [exact Ht1|]. split; [|exact H].
    intros Hc. constructor; [|exact (Hc1 Hc)]. cbn [snd].
    rewrite (consumed_between st st1 t1 Hs1). exact Ht1.
  - destruct (seen st) eqn:Hs; [|discriminate]. exists st, []. rewrite Hs. repeat split; auto.
  - destruct (rest st) eqn:Hs; [|discriminate]. exists st, []. rewrite Hs. repeat split; auto.
  - exists st, []. split; [reflexivity|]. split; [reflexivity|].
    split; [constructor|]. split; [auto|].
    destruct (seen st); [exact H|].
    destruct (atom_matches icase a n); [discriminate|exact H].
Qed.

(** The groups of a successful match hold characters of the atoms inside
    the groups only. *)
Lemma rmatch_captures (r : regex) :
  (forall c, accepts icase (group_atoms r) c = true -> P c = true) ->
  forall st (k : cont) x,
    rmatch icase r st k = Some x ->
    exists st',
      (caps_within P (caps st) -> caps_within P (caps st'))
      /\ k st' = Some x.
Proof.
  induction r as [|a|r1 IH1 r2 IH2|r1 IH1 r2 IH2|a mn mx g|r1 IH1|i r1 IH1| | |a];
    intros HP st k x H; cbn [rmatch] in H.
  - exists st. auto.
  - destruct (rest st) as [|c t] eqn:Hr; [discriminate|].
    destruct (atom_matches icase a c) eqn:Hc; [|discriminate].
    eexists. split; [|exact H]. auto.
  - cbn [group_atoms] in HP.
    apply IH1 in H; [|intros c Hc; apply HP; rewrite accepts_app, Hc; reflexivity].
    destruct H as (st1 & Hc1 & H).
    apply IH2 in H; [|intros c Hc; apply HP; rewrite accepts_app, Hc; apply orb_true_r].
    destruct H as (st2 & Hc2 & H).
    exists st2. auto.
  - cbn [group_atoms] in HP. destruct (rmatch icase r1 st k) eqn:E.
    + inversion H; subst.
      apply IH1 in E; [exact E|intros c Hc; apply HP; rewrite accepts_app, Hc; reflexivity].
    + apply IH2 in H; [exact H|intros c Hc; apply HP; rewrite accepts_app, Hc; apply orb_true_r].
  - apply rep_match_run in H.
    destruct H as (taken & rest' & _ & _ & _ & _ & Hk).
    eexists. split; [|exact Hk]. auto.
  - cbn [group_atoms] in HP. destruct (rmatch icase r1 st k) eqn:E.
    + inversion H; subst. apply IH1 in E; [exact E|exact HP].
    + exists st. auto.
  - cbn [group_atoms] in HP. apply rmatch_reads in H; [|exact HP].
    destruct H as (st1 & t1 & Hs1 & _ & Ht1 & Hc1 & H).
    eexists. split; [|exact H]. cbn [caps].
    intros Hc. constructor; [|exact (Hc1 Hc)]. cbn [snd].
    rewrite (consumed_between st st1 t1 Hs1). exact Ht1.
  - destruct (seen st); [|discriminate]. exists st. auto.
  - destruct (rest st); [|discriminate]. exists st. auto.
  - exists st. split; [auto|].
    destruct (seen st); [exact H|].
    destruct (atom_matches icase a n); [discriminate|exact H].
Qed.

End Captures.

(** Every group of a match object of a pattern without the [u] flag holds
    characters of the atoms inside the pattern's groups; a group that took
    no part is empty. *)
Lemma group_chars (p : RegExp) (s : jsstring) (m : match_result) (i : nat) :
  unicode p = false ->
  exec p s = Some m ->
  Forall (fun c => accepts (ignoreCase p) (group_atoms (pattern p)) c = true) (group i m).
Proof.
  unfold exec, input_of, output_of. intros Hu. rewrite Hu.
  destruct (scan _ _ _ _) as [m'|] eqn:E; [|discriminate].
  intros H. inversion H; subst m; clear H.
  apply scan_found in E. destruct E as (sn' & rs' & st & Ha & _ & _ & Hg & _).
  unfold attempt in Ha.
  apply rmatch_captures
    with (P := accepts (ignoreCase p) (group_atoms (pattern p))) in Ha; [|auto].
  destruct Ha as (st' & Hc & Hk). inversion Hk; subst st'.
  cbn [caps] in Hc. specialize (Hc (Forall_nil _)).
  unfold group. cbn [groups]. rewrite groups_unchanged, Hg.
  destruct (find _ (caps st)) as [q|] eqn:F; [|constructor].
  apply find_some in F. destruct F as [Hin _].
  unfold caps_within in Hc. rewrite Forall_forall in Hc. exact (Hc q Hin).
Qed.

(* ================================================================= *)
(** * Amounts *)

(** Under the [i] flag the comma still matches itself only. *)
Lemma canonicalize_comma (c : N) : canonicalize c = 44%N -> c = 44%N.
Proof.
  intros H. rewrite <- (proj2 (canonicalize_low c)); [exact H|].
  rewrite H. reflexivity.
Qed.

(** A character of [[\d,]] under the [i] flag is a digit or the comma. *)
Lemma digits_commas_accepts (l : list atom) (c : N) :
  Forall (fun a => a = digits_commas) l ->
  accepts true l c = true -> is_digit c = true \/ c = 44%N.
Proof.
  induction 1 as [|a l Ha _ IH]; cbn [accepts existsb]; [discriminate|].
  subst a. intros H. apply orb_true_iff in H. destruct H as [H|H]; [|exact (IH H)].
  cbn [atom_matches digits_commas existsb item_matches] in H.
  apply orb_true_iff in H. destruct H as [H|H]; [left; exact H|].
  rewrite orb_false_r in H. unfold char_eq in H. apply N.eqb_eq in H.
  right. apply canonicalize_comma. rewrite <- H. reflexivity.
Qed.

(** [s.replace(/,/g, "")] drops the commas and keeps everything else. *)
Lemma replace_comma (s : jsstring) :
  replace_all s comma [] = filter (fun c => negb (44 =? c)%N) s.
Proof.
  unfold replace_all, output_of, input_of. cbn [comma re unicode ignoreCase pattern].
  generalize (@nil N) at 2. induction s as [|c t IH]; intros sn.
  - reflexivity.
  - cbn [subst_all attempt rmatch chr rest seen caps atom_matches char_eq filter].
    change (ch ",") with 44%N.
    destruct (44 =? c)%N; cbn [negb].
    + unfold match_length. cbn [app rest length].
      replace (S (length t) - length t) with 1 by lia. apply IH.
    + f_equal. apply IH.
Qed.

(** [parseFloat] of a text whose first character, white space apart, is not
    a minus sign is never below zero. *)
Lemma binary_round_aux_sign (mx ex : Z) (lx : location) :
  lt (binary_round_aux prec emax false mx ex lx) zero = false.
Proof.
  unfold binary_round_aux.
  destruct (shr_fexp prec emax mx ex lx) as [mrs' e'].
  destruct (shr_fexp prec emax _ e' loc_Exact) as [mrs'' e''].
  destruct (shr_m mrs''); [reflexivity| |reflexivity].
  destruct (e'' <=? emax - prec)%Z; reflexivity.
Qed.

Lemma decimal_sign (m e : Z) : lt (decimal false m e) zero = false.
Proof.
  unfold decimal. destruct m as [|p|p]; [reflexivity| |reflexivity].
  destruct (0 <=? e)%Z eqn:He.
  - apply Z.leb_le in He.
    assert (Hpos : (0 < Z.pos p * 10 ^ e)%Z)
      by (apply Z.mul_pos_pos; [lia|apply Z.pow_pos_nonneg; lia]).
    destruct (Z.pos p * 10 ^ e)%Z as [|q|q]; try lia.
    unfold binary_normalize, binary_round.
    destruct (shl_align q 0 _) as [mz ez].
    apply binary_round_aux_sign.
  - destruct (SFdiv_core_binary prec emax (Z.pos p) 0 (10 ^ (- e)) 0) as [[q e'] l].
    apply binary_round_aux_sign.
Qed.

Lemma parseFloat_sign (s : jsstring) :
  fst (split_sign (trimStart s)) = false -> lt (parseFloat s) zero = false.
Proof.
  unfold parseFloat. destruct (split_sign (trimStart s)) as [neg s0]. cbn [fst].
  intros ->. destruct (startsWith (lit "Infinity") s0); [reflexivity|].
  destruct (span_digits s0) as [ip s1].
  destruct (match s1 with
            | c :: t => if (c =? ch ".")%N then span_digits t else ([], s1)
            | [] => ([], s1)
            end) as [fp s2].
  destruct (ip ++ fp); [reflexivity|]. apply decimal_sign.
Qed.

Lemma digits_unsigned (s : jsstring) :
  Forall (fun c => is_digit c = true) s ->
  fst (split_sign (trimStart s)) = false.
Proof.
  intros H. destruct H as [|c t Hc _]; [reflexivity|].
  apply is_digit_cases in Hc. cbn [In] in Hc.
  repeat (destruct Hc as [<-|Hc]; [reflexivity|]). destruct Hc.
Qed.

(** A number that is neither NaN nor below zero is at least zero. *)
Lemma not_below_zero (x : number) :
  isNaN x = false -> lt x zero = false -> le zero x = true.
Proof.
  destruct x as [s|s| |s m e]; try destruct s; try discriminate; reflexivity.
Qed.

(** The text of a group of a pair pattern, its commas removed, consists of
    digits. *)
Lemma pair_amount_digits (text : jsstring) (p : RegExp) (c : jsstring)
    (m : match_result) (i : nat) :
  In (p, c) dealPatterns ->
  str_match text p = Some m ->
  Forall (fun c => is_digit c = true) (replace_all (group i m) comma []).
Proof.
  intros Hin Hm. rewrite replace_comma.
  assert (Hp : unicode p = false /\ ignoreCase p = true
               /\ Forall (fun a => a = digits_commas) (group_atoms (pattern p))).
  { cbn [dealPatterns In] in Hin.
    repeat (destruct Hin as [E|Hin];
            [inversion E; subst p; split; [reflexivity|]; split; [reflexivity|];
             repeat constructor|]).
    destruct Hin. }
  destruct Hp as (Hu & Hi & Hat).
  pose proof (@group_chars p text m i Hu Hm) as Hg. rewrite Hi in Hg.
  induction Hg as [|x l Hx _ IH]; cbn [filter]; [constructor|].
  destruct (44 =? x)%N eqn:E; cbn [negb]; [exact IH|].
  constructor; [|exact IH].
  destruct (@digits_commas_accepts _ x Hat Hx) as [Hd| ->]; [exact Hd|discriminate].
Qed.

(** The amount read from a group of a pair pattern is never below zero. *)
Lemma pair_amount_sign (text : jsstring) (p : RegExp) (c : jsstring)
    (m : match_result) (i : nat) :
  In (p, c) dealPatterns ->
  str_match text p = Some m ->
  lt (amount_of i m) zero = false.
Proof.
  intros Hin Hm. unfold amount_of.
  apply parseFloat_sign, digits_unsigned.
  exact (@pair_amount_digits text p c m i Hin Hm).
Qed.

(** What the pair mode returns comes from one of its patterns. *)
Lemma pair_among_found (text : jsstring) (pats : list (RegExp * jsstring)) (r : Prices.t) :
  pair_among text pats = Some r ->
  exists p c m,
    In (p, c) pats /\ str_match text p = Some m
    /\ isNaN (amount_of 1 m) = false /\ isNaN (amount_of 2 m) = false
    /\ r = {| Prices.dealPrice := Some (Math_min (amount_of 1 m) (amount_of 2 m));
              Prices.originalPrice := Some (Math_max (amount_of 1 m) (amount_of 2 m));
              Prices.currency := c |}.
Proof.
  induction pats as [|[p c] ps IH]; cbn [pair_among]; [discriminate|].
  assert (Hrest : pair_among text ps = Some r ->
                  exists p' c' m,
                    In (p', c') ((p, c) :: ps) /\ str_match text p' = Some m
                    /\ isNaN (amount_of 1 m) = false /\ isNaN (amount_of 2 m) = false
                    /\ r = {| Prices.dealPrice := Some (Math_min (amount_of 1 m) (amount_of 2 m));
                              Prices.originalPrice := Some (Math_max (amount_of 1 m) (amount_of 2 m));
                              Prices.currency := c' |}).
  { intros H. destruct (IH H) as (p' & c' & m & Hin & Hm).
    exists p', c', m. split; [right; exact Hin|exact Hm]. }
  destruct (str_match text p) as [m|] eqn:Em; [|exact Hrest].
  destruct (isNaN (amount_of 1 m)) eqn:H1; [exact Hrest|].
  destruct (isNaN (amount_of 2 m)) eqn:H2; [exact Hrest|].
  cbn [negb andb]. intros E. inversion E; subst r; clear E.
  exists p, c, m. split; [left; reflexivity|]. auto.
Qed.

(** X4. The prices [extractPrices] reports are never negative and never
    NaN: a reported deal price is at least 0 and a reported original price
    is at least the deal price reported with it. *)
Theorem extractPrices_never_negative :
  forall (text : jsstring),
    (forall d, Prices.dealPrice (extractPrices text) = Some d -> le zero d = true)
    /\ (forall o, Prices.originalPrice (extractPrices text) = Some o ->
                  exists d, Prices.dealPrice (extractPrices text) = Some d
                            /\ le zero d = true /\ le d o = true).
Proof.
  intros text. unfold extractPrices.
  destruct (pair_among text dealPatterns) as [r|] eqn:E.
  - apply pair_among_found in E.
    destruct E as (p & c & m & Hin & Em & H1 & H2 & ->).
    pose proof (@pair_amount_sign text p c m 1 Hin Em) as S1.
    pose proof (@pair_amount_sign text p c m 2 Hin Em) as S2.
    assert (Hd : le zero (Math_min (amount_of 1 m) (amount_of 2 m)) = true).
    { destruct (Math_min_max _ _ H1 H2) as [_ [[Hmin _]|[Hmin _]]];
        rewrite Hmin; apply not_below_zero; assumption. }
    cbn [Prices.dealPrice Prices.originalPrice]. split.
    + intros d' Ed. inversion Ed; subst d'. exact Hd.
    + intros o' Eo. inversion Eo; subst o'. eexists. split; [reflexivity|].
      split; [exact Hd|]. apply (Math_min_max _ _ H1 H2).
  - cbn [Prices.dealPrice Prices.originalPrice]. split; [|discriminate].
    intros d Hd. apply extractPriceWithCurrency_truthy in Hd.
    destruct d as [s|s| |s m e]; try destruct s; try discriminate; reflexivity.
Qed.

Lemma extractPrices_never_negative_witness :
  let prices := extractPrices (lit "$199 (was $299)") in
  Prices.dealPrice prices = Some (of_Z 199)
  /\ le zero (of_Z 199) = true
  /\ Prices.originalPrice prices = Some (of_Z 299)
  /\ le (of_Z 199) (of_Z 299) = true.
Proof.
  intros prices.
  destruct (extractPrices_never_negative (lit "$199 (was $299)")) as [Hd Ho].
  assert (Ed : Prices.dealPrice prices = Some (of_Z 199)) by (vm_compute; reflexivity).
  assert (Eo : Prices.originalPrice prices = Some (of_Z 299)) by (vm_compute; reflexivity).
  split; [exact Ed|]. split; [exact (Hd _ Ed)|]. split; [exact Eo|].
  destruct (Ho _ Eo) as (d & Ed' & _ & Hle).
  pose proof (eq_trans (eq_sym Ed) Ed') as E.
  apply (f_equal (fun o => match o with Some v => v | None => zero end)) in E.
  cbv beta iota in E. rewrite E. exact Hle.
Defined.

(** X5. The result of [extractPrices] has one of three shapes: both prices
    and a currency code of the pair patterns (USD, EUR, GBP or INR); a deal
    price alone with a currency code of [CURRENCY_PATTERNS]; or no price at
    all and the default currency USD.  An original price never comes
    without a deal price, nor a currency other than USD without a price. *)
Theorem extractPrices_shapes :
  forall (text : jsstring),
    (exists d o c,
        extractPrices text =
          {| Prices.dealPrice := Some d; Prices.originalPrice := Some o;
             Prices.currency := c |}
        /\ In c [lit "USD"; lit "EUR"; lit "GBP"; lit "INR"])
    \/ (exists d c,
          extractPrices text =
            {| Prices.dealPrice := Some d; Prices.originalPrice := None;
               Prices.currency := c |}
          /\ In c [lit "USD"; lit "EUR"; lit "GBP"; lit "CAD"; lit "AUD"; lit "INR"])
    \/ extractPrices text =
         {| Prices.dealPrice := None; Prices.originalPrice := None;
            Prices.currency := lit "USD" |}.
Proof.
  intros text. unfold extractPrices.
  destruct (pair_among text dealPatterns) as [r|] eqn:E.
  - left. apply pair_among_found in E.
    destruct E as (p & c & m & Hin & _ & _ & _ & ->).
    eexists; eexists; exists c. split; [reflexivity|].
    apply (in_map snd) in Hin. cbn [snd] in Hin.
    cbn [dealPatterns map snd In] in Hin. cbn [In]. tauto.
  - right. unfold extractPriceWithCurrency.
    pose proof (price_among_spec text CURRENCY_PATTERNS) as H.
    destruct (price_among text CURRENCY_PATTERNS) as [r|].
    + left. destruct H as (c & ps & p & m & Hin & _ & _ & _ & _ & ->).
      cbn [Price.price Price.currency].
      eexists; exists c. split; [reflexivity|].
      apply (in_map fst) in Hin. exact Hin.
    + right. reflexivity.
Qed.

(* ================================================================= *)
(** * Literal patterns and the store of a URL *)

Section Literal.

Variable icase : bool.

(** A literal pattern reads its own characters and nothing else. *)
Lemma units_match (l : list N) :
  forall (st : mstate) (k : cont),
    rmatch icase (units l) st k =
    if starts icase l (rest st)
    then k {| seen := rev (firstn (length l) (rest st)) ++ seen st;
              rest := skipn (length l) (rest st); caps := caps st |}
    else None.
Proof.
  induction l as [|a l IH]; intros st k.
  - destruct st; reflexivity.
  - change (units (a :: l)) with (Seq (One (AChar a)) (units l)).
    cbn [rmatch starts]. destruct (rest st) as [|c t] eqn:Hr; [reflexivity|].
    cbn [atom_matches]. destruct (char_eq icase a c); [|reflexivity].
    rewrite IH. cbn [rest seen caps andb length firstn skipn rev].
    destruct (starts icase l t); [|reflexivity].
    rewrite <- app_assoc. reflexivity.
Qed.

(** [re.test(s)] of a literal pattern says whether the literal occurs. *)
Lemma scan_literal (l : list N) :
  forall rs sn,
    match scan icase (units l) sn rs with Some _ => true | None => false end
    = occurs icase l rs.
Proof.
  induction rs as [|c t IH]; intros sn; cbn [scan occurs]; unfold attempt;
    rewrite units_match; cbn [rest].
  - destruct (starts icase l []); reflexivity.
  - destruct (starts icase l (c :: t)); [reflexivity|]. apply IH.
Qed.

Lemma test_literal (l : list N) (s : jsstring) :
  test {| pattern := units l; ignoreCase := icase; unicode := false |} s
  = occurs icase l s.
Proof.
  unfold test, exec, input_of, output_of. cbn [unicode ignoreCase pattern].
  rewrite <- (scan_literal l s []).
  destruct (scan icase (units l) [] s); reflexivity.
Qed.

Lemma bracket_rejected (a b : N) :
  negb (char_eq icase a (ch ")")) && negb (char_eq icase a (ch "]")) = true ->
  is_closing b = true ->
  char_eq icase a b = false.
Proof.
  intros Ha Hb. apply andb_true_iff in Ha. destruct Ha as [H1 H2].
  apply negb_true_iff in H1. apply negb_true_iff in H2.
  unfold is_closing in Hb. apply orb_true_iff in Hb.
  destruct Hb as [Hb|Hb]; apply N.eqb_eq in Hb; subst b; assumption.
Qed.

(** Closing brackets after the text neither add nor remove an occurrence
    of a literal that holds no bracket. *)
Lemma starts_brackets (l : list N) (tail : jsstring) :
  bracket_free icase l = true ->
  Forall (fun c => is_closing c = true) tail ->
  forall s, starts icase l (s ++ tail) = starts icase l s.
Proof.
  intros Hfree Htail. induction l as [|a l IH]; intros s; [reflexivity|].
  cbn [bracket_free forallb] in Hfree. apply andb_true_iff in Hfree.
  destruct Hfree as [Ha Hl]. destruct s as [|c t]; cbn [app starts].
  - destruct Htail as [|b tail Hb _]; [reflexivity|].
    rewrite (@bracket_rejected a b Ha Hb). reflexivity.
  - rewrite (IH Hl). reflexivity.
Qed.

Lemma occurs_brackets (l : list N) (tail : jsstring) :
  l <> [] ->
  bracket_free icase l = true ->
  Forall (fun c => is_closing c = true) tail ->
  forall s, occurs icase l (s ++ tail) = occurs icase l s.
Proof.
  intros Hne Hfree Htail.
  assert (Hnone : occurs icase l tail = false).
  { destruct l as [|a l']; [contradiction|].
    cbn [bracket_free forallb] in Hfree. apply andb_true_iff in Hfree.
    destruct Hfree as [Ha _].
    induction Htail as [|b tail Hb _ IH]; [reflexivity|].
    cbn [occurs starts]. rewrite (@bracket_rejected a b Ha Hb), IH. reflexivity. }
  induction s as [|c t IH].
  - cbn [app]. rewrite Hnone. destruct l; [contradiction|reflexivity].
  - change ((c :: t) ++ tail) with (c :: (t ++ tail)). cbn [occurs].
    rewrite IH. change (c :: (t ++ tail)) with ((c :: t) ++ tail).
    rewrite (@starts_brackets l tail Hfree Htail (c :: t)). reflexivity.
Qed.

End Literal.

(** Every store pattern is a literal with the [i] flag, and none of them
    holds a character that matches a closing bracket. *)
Lemma store_patterns_literal :
  Forall (fun p => exists l, p = re_i (units l) /\ l <> []
                             /\ bracket_free true l = true)
         (flat_map snd STORE_PATTERNS).
Proof.
  cbn [STORE_PATTERNS flat_map snd app].
  repeat (apply Forall_cons;
          [eexists; split; [reflexivity|split; [vm_compute; discriminate
                                               |vm_compute; reflexivity]]|]).
  apply Forall_nil.
Qed.

Lemma clean_trailing_split (url : jsstring) :
  exists tail, url = clean_trailing url ++ tail
               /\ Forall (fun c => is_closing c = true) tail.
Proof.
  unfold clean_trailing, replace.
  destruct (exec trailingBrackets url) as [m|] eqn:E.
  - destruct (trailingBrackets_match url E) as (Hparts & Hafter & _ & Hall).
    exists (matched m). rewrite Hafter, app_nil_r. split; [exact Hparts|exact Hall].
  - exists []. rewrite app_nil_r. split; [reflexivity|constructor].
Qed.

(** Whether a store pattern occurs in a URL does not depend on the closing
    brackets at its end. *)
Lemma test_store_brackets (p : RegExp) (url tail : jsstring) :
  In p (flat_map snd STORE_PATTERNS) ->
  Forall (fun c => is_closing c = true) tail ->
  test p (url ++ tail) = test p url.
Proof.
  intros Hin Htail.
  pose proof store_patterns_literal as Hall. rewrite Forall_forall in Hall.
  destruct (Hall p Hin) as (l & -> & Hne & Hfree).
  unfold re_i. rewrite !test_literal. apply occurs_brackets; assumption.
Qed.

Lemma store_entry_brackets (entry : jsstring * list RegExp) (url tail : jsstring) :
  In entry STORE_PATTERNS ->
  Forall (fun c => is_closing c = true) tail ->
  existsb (fun pattern => test pattern (url ++ tail)) (snd entry)
  = existsb (fun pattern => test pattern url) (snd entry).
Proof.
  intros Hin Htail.
  assert (Hps : forall p, In p (snd entry) -> In p (flat_map snd STORE_PATTERNS))
    by (intros p Hp; apply in_flat_map; exists entry; split; assumption).
  induction (snd entry) as [|p ps IH]; [reflexivity|]. cbn [existsb].
  rewrite (@test_store_brackets p url tail (Hps p (or_introl eq_refl)) Htail).
  rewrite IH; [reflexivity|]. intros q Hq. apply Hps. right. exact Hq.
Qed.

(** The store detected for a URL, and whether there is one, are the same
    with and without its trailing brackets. *)
Lemma detectStore_clean_trailing (url : jsstring) :
  detectStore (clean_trailing url) = detectStore url
  /\ matches_store (clean_trailing url) = matches_store url.
Proof.
  destruct (clean_trailing_split url) as (tail & Hsplit & Htail).
  set (u := clean_trailing url) in *. rewrite Hsplit.
  unfold detectStore, matches_store.
  assert (Hgen : forall entries,
    (forall entry, In entry entries -> In entry STORE_PATTERNS) ->
    find (fun entry => existsb (fun pattern => test pattern (u ++ tail)) (snd entry)) entries
    = find (fun entry => existsb (fun pattern => test pattern u) (snd entry)) entries
    /\ existsb (fun entry => existsb (fun pattern => test pattern (u ++ tail)) (snd entry)) entries
       = existsb (fun entry => existsb (fun pattern => test pattern u) (snd entry)) entries).
  { induction entries as [|entry rest IH]; intros Hall; [split; reflexivity|].
    cbn [find existsb].
    rewrite (@store_entry_brackets entry u tail (Hall entry (or_introl eq_refl)) Htail).
    destruct (existsb (fun pattern => test pattern u) (snd entry)).
    - split; reflexivity.
    - apply IH. intros e He. apply Hall. right. exact He. }
  destruct (Hgen STORE_PATTERNS (fun _ H => H)) as [Hf He].
  rewrite Hf, He. split; reflexivity.
Qed.

Lemma detectStore_none (url : jsstring) :
  detectStore url = None <-> matches_store url = false.
Proof.
  unfold detectStore, matches_store. generalize STORE_PATTERNS.
  induction l as [|entry rest IH]; cbn [find existsb]; [tauto|].
  destruct (existsb (fun pattern => test pattern url) (snd entry)); cbn [orb].
  - split; discriminate.
  - exact IH.
Qed.

(** What the first pass selects is a surviving store URL, and it selects
    one whenever there is one. *)
Lemma first_pass_store (urls : list jsstring) :
  match first_pass urls with
  | Some u => exists v, In v urls /\ store_url v /\ u = clean_trailing v
  | None => forall v, In v urls -> ~ store_url v
  end.
Proof.
  induction urls as [|w ws IH]; cbn [first_pass]; [intros v []|].
  assert (Hrest : ~ store_url w ->
            match first_pass ws with
            | Some u => exists v, In v (w :: ws) /\ store_url v /\ u = clean_trailing v
            | None => forall v, In v (w :: ws) -> ~ store_url v
            end).
  { intros Hw. destruct (first_pass ws) as [u|].
    - destruct IH as (v & Hv & Hr). exists v. split; [right; exact Hv|exact Hr].
    - intros v [<-|Hv]; auto. }
  destruct (isProductUrl w) eqn:Hp; cbn [negb].
  - destruct (matches_store w) eqn:Hs.
    + exists w. split; [left; reflexivity|]. split; [split; assumption|reflexivity].
    + apply Hrest. intros [_ H]. rewrite Hs in H. discriminate.
  - apply Hrest. intros [H _]. rewrite Hp in H. discriminate.
Qed.

(** X6. The store of a deal is the store of the candidate URL that was
    selected: stripping the trailing brackets never changes the store that
    is detected.  So when some candidate is a surviving store URL the
    product URL is one of them, stripped, and its store is not null; when
    candidates survive but none matches a store the product URL is the
    first survivor and the store is null; and when none survives the
    product URL is the permalink. *)
Theorem store_of_selected_url :
  forall (post : RedditPost) (comments : list jsstring),
    let urls := allUrls post comments in
    let productUrl := extractProductUrl post comments in
    (exists v store,
        In v urls /\ store_url v /\ productUrl = clean_trailing v
        /\ detectStore v = Some store /\ detectStore productUrl = Some store)
    \/ (exists v,
          (forall w, In w urls -> ~ store_url w)
          /\ In v urls /\ survives v /\ productUrl = clean_trailing v
          /\ detectStore v = None /\ detectStore productUrl = None)
    \/ ((forall w, In w urls -> ~ survives w)
        /\ productUrl = lit "https://reddit.com" ++ Post.permalink post).
Proof.
  intros post comments urls productUrl. subst productUrl.
  unfold extractProductUrl. fold urls.
  pose proof (first_pass_store urls) as H1.
  destruct (first_pass urls) as [u|].
  - left. destruct H1 as (v & Hv & Hs & ->).
    destruct (detectStore v) as [store|] eqn:Ed.
    + exists v, store. rewrite (proj1 (detectStore_clean_trailing v)). auto.
    + apply detectStore_none in Ed. destruct Hs as [_ Hs].
      rewrite Ed in Hs. discriminate.
  - right. destruct (second_pass urls) as [u|] eqn:E2.
    + left. destruct (second_pass_some _ E2) as (v & Hv & Hp & ->).
      exists v. rewrite (proj1 (detectStore_clean_trailing v)).
      assert (Ed : detectStore v = None).
      { apply detectStore_none.
        destruct (matches_store v) eqn:Hs; [|reflexivity].
        exfalso. apply (H1 v Hv). split; assumption. }
      auto 10.
    + right. split; [|reflexivity].
      intros w Hw Hs. unfold survives in Hs.
      rewrite (proj1 (second_pass_none urls) E2 w Hw) in Hs. discriminate.
Qed.

(* ================================================================= *)
(** * The denylist of URLs *)

Lemma starts_length icase (l s : jsstring) :
  starts icase l s = true -> length l <= length s.
Proof.
  revert s. induction l as [|a l IH]; intros s H; [cbn; lia|].
  destruct s as [|c t]; [discriminate|]. cbn [starts] in H.
  apply andb_true_iff in H. destruct H as [_ H]. apply IH in H. cbn [length]. lia.
Qed.

(** [re.test(s)] of a literal anchored at the end says whether the text
    ends with the literal. *)
Lemma scan_suffix icase (l : list N) :
  forall rs sn,
    match scan icase (Seq (units l) Eol) sn rs with Some _ => true | None => false end
    = ends icase l rs.
Proof.
  assert (Hhere : forall sn rs,
            match attempt icase (Seq (units l) Eol) sn rs with
            | Some _ => true
            | None => false
            end = starts icase l rs && (length rs =? length l)).
  { intros sn rs. unfold attempt. cbn [rmatch]. rewrite units_match. cbn [rest].
    destruct (starts icase l rs) eqn:Hs; [|reflexivity].
    apply starts_length in Hs. cbn [andb rmatch rest].
    destruct (skipn (length l) rs) as [|c t] eqn:Hk.
    - apply (f_equal (@length N)) in Hk. rewrite length_skipn in Hk. cbn [length] in Hk.
      symmetry. apply Nat.eqb_eq. lia.
    - apply (f_equal (@length N)) in Hk. rewrite length_skipn in Hk. cbn [length] in Hk.
      symmetry. apply Nat.eqb_neq. lia. }
  induction rs as [|c t IH]; intros sn; cbn [scan ends];
    specialize (Hhere sn); [specialize (Hhere [])|specialize (Hhere (c :: t))];
    destruct (attempt icase (Seq (units l) Eol) sn _); rewrite <- Hhere.
  - reflexivity.
  - reflexivity.
  - reflexivity.
  - cbn [orb]. apply IH.
Qed.

Lemma test_suffix icase (l : list N) (s : jsstring) :
  test {| pattern := Seq (units l) Eol; ignoreCase := icase; unicode := false |} s
  = ends icase l s.
Proof.
  unfold test, exec, input_of, output_of. cbn [unicode ignoreCase pattern].
  rewrite <- (scan_suffix icase l s []).
  destruct (scan icase (Seq (units l) Eol) [] s); reflexivity.
Qed.

Lemma includes_occurs (p s : jsstring) : includes p s = occurs false p s.
Proof.
  assert (Hs : forall a b, startsWith a b = starts false a b).
  { induction a as [|x a IH]; intros [|y b]; cbn [startsWith starts char_eq];
      try reflexivity. rewrite IH. reflexivity. }
  induction s as [|c t IH]; cbn [includes occurs]; rewrite Hs; [reflexivity|].
  rewrite IH. reflexivity.
Qed.

(** X13. [isProductUrl] in terms of plain string tests: a URL is rejected
    exactly when one of six host names occurs in it in any letter case, or
    it ends with one of five image extensions in any letter case, or
    [reddit.com] occurs in it in lower case. *)
Theorem isProductUrl_strings :
  forall url : jsstring,
    isProductUrl url =
    negb (existsb (fun host => occurs true host url)
                  (map lit ["reddit.com/media"; "i.redd.it"; "preview.redd.it";
                            "v.redd.it"; "reddit.com/gallery"; "imgur.com"]%string)
          || existsb (fun extension => ends true extension url)
                     (map lit [".jpg"; ".jpeg"; ".png"; ".gif"; ".webp"]%string)
          || occurs false (lit "reddit.com") url).
Proof.
  intros url. unfold isProductUrl. rewrite includes_occurs.
  assert (Hskip : existsb (fun pattern => test pattern url) SKIP_URL_PATTERNS
                  = existsb (fun host => occurs true host url)
                      (map lit ["reddit.com/media"; "i.redd.it"; "preview.redd.it";
                                "v.redd.it"; "reddit.com/gallery"; "imgur.com"]%string)
                    || existsb (fun extension => ends true extension url)
                         (map lit [".jpg"; ".jpeg"; ".png"; ".gif"; ".webp"]%string)).
  { unfold SKIP_URL_PATTERNS, wi, re_i, word. cbn [existsb map].
    rewrite !test_literal, !test_suffix.
    rewrite !orb_false_r, <- !orb_assoc. reflexivity. }
  rewrite Hskip.
  destruct (existsb _ _ || existsb _ _); [reflexivity|].
  destruct (occurs false (lit "reddit.com") url); reflexivity.
Qed.

(* ================================================================= *)
(** * The candidate URLs *)

(** Every text a [g] pattern finds is what one attempt has read. *)
Lemma scan_all_attempts icase (r : regex) (x : jsstring) :
  forall rs skip sn,
    In x (scan_all icase r skip sn rs) ->
    exists sn' rs' st,
      attempt icase r sn' rs' = Some st /\ rs' = x ++ rest st.
Proof.
  assert (Hhere : forall sn rs st,
            attempt icase r sn rs = Some st ->
            rs = firstn (match_length rs st) rs ++ rest st).
  { intros sn rs st Ha. apply attempt_extends in Ha.
    destruct Ha as (taken & _ & Ht). unfold match_length.
    rewrite Ht at 1 2 3. rewrite length_app, Nat.add_sub, firstn_app, Nat.sub_diag, firstn_all.
    cbn [firstn]. rewrite app_nil_r. reflexivity. }
  induction rs as [|c t IH]; intros skip sn Hin.
  - destruct skip as [|n]; cbn [scan_all] in Hin; [|destruct Hin].
    destruct (attempt icase r sn []) as [st|] eqn:Ha; [|destruct Hin].
    destruct Hin as [<-|[]]. exists sn, [], st. split; [exact Ha|].
    apply (Hhere sn [] st Ha).
  - destruct skip as [|n]; cbn [scan_all] in Hin; [|exact (IH _ _ Hin)].
    destruct (attempt icase r sn (c :: t)) as [st|] eqn:Ha; [|exact (IH _ _ Hin)].
    destruct Hin as [<-|Hin]; [|exact (IH _ _ Hin)].
    exists sn, (c :: t), st. split; [exact Ha|]. apply (Hhere sn (c :: t) st Ha).
Qed.

Lemma starts_prefix (l s : jsstring) :
  starts false l s = true -> s = l ++ skipn (length l) s.
Proof.
  revert s. induction l as [|a l IH]; intros s H; [reflexivity|].
  destruct s as [|c t]; [discriminate|]. cbn [starts char_eq] in H.
  apply andb_true_iff in H. destruct H as [Hc Hl]. apply N.eqb_eq in Hc. subst c.
  cbn [length skipn app]. f_equal. apply IH. exact Hl.
Qed.

(** What [https?:\/\/[^\s...]+] reads, wherever it stands in a pattern. *)
Lemma http_url_match (stop : list citem) (st : mstate) (k : cont) (x : mstate) :
  rmatch false (http_url stop) st k = Some x ->
  exists scheme body st',
    (scheme = lit "http://" \/ scheme = lit "https://")
    /\ body <> []
    /\ Forall (fun c => atom_matches false (ANotClass (ISpace :: stop)) c = true) body
    /\ rest st = (scheme ++ body) ++ rest st'
    /\ seen st' = rev (scheme ++ body) ++ seen st
    /\ caps st' = caps st
    /\ k st' = Some x.
Proof.
  unfold http_url, cat. cbn [fold_right]. cbn [rmatch].
  unfold word at 1. rewrite units_match.
  destruct (starts false (lit "http") (rest st)) eqn:H1; [|discriminate].
  apply starts_prefix in H1. set (r1 := skipn _ (rest st)) in *.
  set (st1 := {| seen := _; rest := r1; caps := caps st |}).
  assert (Hs1 : seen st1 = rev (lit "http") ++ seen st).
  { unfold st1. cbn [seen]. rewrite H1 at 1. rewrite firstn_app, Nat.sub_diag, firstn_all.
    cbn [firstn]. rewrite app_nil_r. reflexivity. }
  assert (Hbody : forall scheme st2,
            rest st = scheme ++ rest st2 ->
            seen st2 = rev scheme ++ seen st ->
            caps st2 = caps st ->
            rmatch false (Seq (word "://")
                              (Seq (plus (ANotClass (ISpace :: stop))) Empty))
                   st2 k = Some x ->
            exists body st',
              body <> []
              /\ Forall (fun c => atom_matches false (ANotClass (ISpace :: stop)) c = true) body
              /\ rest st = ((scheme ++ lit "://") ++ body) ++ rest st'
              /\ seen st' = rev ((scheme ++ lit "://") ++ body) ++ seen st
              /\ caps st' = caps st
              /\ k st' = Some x).
  { intros scheme st2 Hr2 Hs2 Hc2 H. cbn [rmatch] in H.
    unfold word in H. rewrite units_match in H.
    destruct (starts false (lit "://") (rest st2)) eqn:H2; [|discriminate].
    apply starts_prefix in H2. set (r2 := skipn _ (rest st2)) in *.
    unfold plus in H. cbn [rmatch seen rest caps] in H.
    apply rep_match_run in H.
    destruct H as (body & rest' & Hb & Hall & Hmn & _ & Hk).
    cbn [rmatch] in Hk.
    assert (Hf : firstn (length (lit "://")) (rest st2) = lit "://").
    { rewrite H2 at 1. rewrite firstn_app, Nat.sub_diag, firstn_all.
      cbn [firstn]. apply app_nil_r. }
    rewrite Hf in Hk.
    exists body.
    exists {| seen := rev body ++ rev (lit "://") ++ seen st2; rest := rest'; caps := caps st2 |}.
    split; [intros ->; cbn in Hmn; lia|]. split; [exact Hall|].
    split; [|split; [|split; [exact Hc2|exact Hk]]].
    - cbn [rest]. rewrite Hr2, H2. fold r2. rewrite Hb, <- !app_assoc. reflexivity.
    - cbn [seen]. rewrite Hs2, !rev_app_distr, <- !app_assoc. reflexivity. }
  destruct (rmatch false (chr "s") st1 _) as [y|] eqn:Es.
  - intros E. inversion E; subst y; clear E.
    unfold chr in Es. cbn [rmatch] in Es.
    destruct (rest st1) as [|c t] eqn:Hr1; [discriminate|].
    cbn [atom_matches char_eq] in Es.
    destruct (ch "s" =? c)%N eqn:Hc; [|discriminate]. apply N.eqb_eq in Hc. subst c.
    apply (Hbody (lit "https")) in Es.
    + destruct Es as (body & st' & Hr). exists (lit "https://"), body, st'.
      split; [right; reflexivity|exact Hr].
    + cbn [rest]. rewrite H1. fold r1. change (rest st1) with r1 in Hr1.
      rewrite Hr1. reflexivity.
    + cbn [seen]. rewrite Hs1. reflexivity.
    + reflexivity.
  - intros H. apply (Hbody (lit "http")) in H.
    + destruct H as (body & st' & Hr). exists (lit "http://"), body, st'.
      split; [left; reflexivity|exact Hr].
    + exact H1.
    + exact Hs1.
    + reflexivity.
Qed.

Lemma url_body (stop : list citem) (body : jsstring) :
  Forall (fun c => atom_matches false (ANotClass (ISpace :: IChar (ch ")") :: stop)) c = true)
         body ->
  Forall (fun c => is_space c = false /\ c <> ch ")") body.
Proof.
  intros H. eapply Forall_impl; [|exact H]. intros c Hc.
  cbn [atom_matches existsb item_matches char_eq] in Hc.
  apply negb_true_iff in Hc. apply orb_false_iff in Hc. destruct Hc as [Hsp Hc].
  apply orb_false_iff in Hc. destruct Hc as [Hp _].
  split; [exact Hsp|]. intros ->. rewrite N.eqb_refl in Hp. discriminate.
Qed.

(** A URL whose last character is outside [)] and []] keeps its form when
    the trailing brackets are stripped. *)
Lemma url_body_unbracketed (stop : list citem) (scheme body : jsstring) :
  body <> [] ->
  Forall (fun c => atom_matches false
                     (ANotClass (ISpace :: IChar (ch ")") :: IChar (ch "]") :: stop)) c = true)
         body ->
  clean_trailing (scheme ++ body) = scheme ++ body.
Proof.
  intros Hne Hall. apply clean_trailing_unchanged. unfold ends_with_bracket.
  rewrite rev_app_distr. destruct (rev body) as [|c t] eqn:Er.
  - exfalso. apply Hne. rewrite <- (rev_involutive body), Er. reflexivity.
  - cbn [app]. rewrite Forall_forall in Hall.
    assert (Hc : In c body) by (apply in_rev; rewrite Er; left; reflexivity).
    specialize (Hall c Hc).
    cbn [atom_matches existsb item_matches char_eq] in Hall.
    apply negb_true_iff in Hall. apply orb_false_iff in Hall. destruct Hall as [_ Hall].
    apply orb_false_iff in Hall. destruct Hall as [H1 Hall].
    apply orb_false_iff in Hall. destruct Hall as [H2 _].
    unfold is_closing. rewrite H1, H2. reflexivity.
Qed.

(** A match found in a text by a [g] pattern whose every attempt reads a
    URL. *)
Lemma found_url (p : regex) (stop : list citem) (text u : jsstring) :
  (forall st0 st, rmatch false p st0 Some = Some st ->
                  rmatch false (http_url stop) st0 Some = Some st) ->
  In u (match_all text (re p)) ->
  exists scheme body,
    u = scheme ++ body
    /\ (scheme = lit "http://" \/ scheme = lit "https://")
    /\ body <> []
    /\ Forall (fun c => atom_matches false (ANotClass (ISpace :: stop)) c = true) body.
Proof.
  intros Hp. unfold match_all, input_of, output_of.
  cbn [re unicode ignoreCase pattern]. rewrite map_id. intros Hin.
  apply scan_all_attempts in Hin. destruct Hin as (sn' & rs' & st & Ha & Hrs).
  unfold attempt in Ha. apply Hp in Ha. apply http_url_match in Ha.
  destruct Ha as (scheme & body & st' & Hscheme & Hne & Hall & Hrest & _ & _ & Hk).
  inversion Hk; subst st'. cbn [rest] in Hrest.
  rewrite Hrs in Hrest. apply app_inv_tail in Hrest.
  exists scheme, body. auto.
Qed.

Lemma plain_url_harvested (text u : jsstring) :
  In u (match_all text plainUrl) -> harvested u /\ clean_trailing u = u.
Proof.
  intros Hin.
  apply (@found_url _ [IChar (ch ")"); IChar (ch "]"); IChar (ch "<"); IChar (ch ">")])
    in Hin.
  - destruct Hin as (scheme & body & -> & Hscheme & Hne & Hall).
    split; [|exact (@url_body_unbracketed _ scheme body Hne Hall)].
    exists scheme, body. split; [reflexivity|]. split; [exact Hscheme|].
    split; [exact Hne|exact (@url_body _ body Hall)].
  - intros st0 st. cbn [rmatch]. destruct (seen st0); [auto|].
    destruct (atom_matches false (AChar (ch "(")) n); [discriminate|auto].
Qed.

Lemma title_url_harvested (text u : jsstring) :
  In u (match_all text titleUrl) -> harvested u /\ clean_trailing u = u.
Proof.
  intros Hin.
  apply (@found_url _ [IChar (ch ")"); IChar (ch "]")]) in Hin; [|auto].
  destruct Hin as (scheme & body & -> & Hscheme & Hne & Hall).
  split; [|exact (@url_body_unbracketed _ scheme body Hne Hall)].
  exists scheme, body. split; [reflexivity|]. split; [exact Hscheme|].
  split; [exact Hne|exact (@url_body _ body Hall)].
Qed.

Lemma markdown_url_harvested (text u : jsstring) :
  In u (markdown_urls text) -> harvested u.
Proof.
  unfold markdown_urls. intros Hin. apply in_flat_map in Hin.
  destruct Hin as (link & _ & Hin).
  destruct (str_match link markdownTarget) as [m|] eqn:Em; [|destruct Hin].
  destruct Hin as [<-|[]].
  revert Em. unfold str_match, exec, input_of, output_of.
  change (unicode markdownTarget) with false. cbv iota.
  destruct (scan _ _ _ _) as [m'|] eqn:E; [|discriminate].
  intros H. inversion H; subst m; clear H.
  apply scan_found in E. destruct E as (sn' & rs' & st & Ha & _ & _ & Hg & _).
  unfold group. cbn [groups]. rewrite groups_unchanged, Hg. clear Hg.
  unfold attempt in Ha.
  change (pattern markdownTarget)
    with (Seq (chr "(") (Seq (Group 1 (http_url [IChar (ch ")")]))
                             (Seq (chr ")") Empty))) in Ha.
  change (ignoreCase markdownTarget) with false in Ha.
  unfold chr at 1 in Ha. cbn [rmatch rest seen caps] in Ha.
  destruct rs' as [|c t]; [discriminate|].
  destruct (atom_matches false (AChar (ch "(")) c); [|discriminate].
  apply http_url_match in Ha.
  destruct Ha as (scheme & body & st' & Hscheme & Hne & Hall & _ & Hseen & Hcaps & Hk).
  cbn [seen rest caps] in *.
  rewrite (@consumed_between {| seen := c :: sn'; rest := t; caps := [] |} st'
             (scheme ++ body) Hseen) in Hk.
  unfold chr in Hk. cbn [rmatch rest seen caps] in Hk.
  destruct (rest st') as [|c' t']; [discriminate|].
  destruct (atom_matches false (AChar (ch ")")) c'); [|discriminate].
  inversion Hk; subst st; clear Hk. cbn [caps find fst snd Nat.eqb].
  exists scheme, body. split; [reflexivity|]. split; [exact Hscheme|].
  split; [exact Hne|exact (@url_body _ body Hall)].
Qed.

(** Stripping trailing brackets leaves a bracket-free start of the URL in
    place. *)
Lemma prefix_survives (l : jsstring) :
  Forall (fun c => is_closing c = false) l ->
  forall clean tail rest',
    clean ++ tail = l ++ rest' ->
    Forall (fun c => is_closing c = true) tail ->
    startsWith l clean = true.
Proof.
  induction 1 as [|a l Ha _ IH]; intros clean tail rest' Heq Htail; [reflexivity|].
  destruct clean as [|c clean'].
  - cbn [app] in Heq. subst tail. inversion Htail as [|? ? Hc _]; subst.
    rewrite Ha in Hc. discriminate.
  - cbn [app] in Heq. inversion Heq; subst c. cbn [startsWith].
    rewrite N.eqb_refl. cbn [andb]. eapply IH; eassumption.
Qed.

Lemma harvested_clean_trailing (u : jsstring) :
  harvested u -> startsWith (lit "http") (clean_trailing u) = true.
Proof.
  intros (scheme & body & Hu & Hscheme & _).
  destruct (clean_trailing_split u) as (tail & Hsplit & Htail).
  assert (Hhttp : exists rest', u = lit "http" ++ rest').
  { destruct Hscheme as [->| ->]; rewrite Hu; eexists; reflexivity. }
  destruct Hhttp as [rest' Hr].
  apply (@prefix_survives (lit "http")) with (tail := tail) (rest' := rest').
  - repeat constructor.
  - rewrite <- Hsplit. exact Hr.
  - exact Htail.
Qed.

(** X7. Every candidate URL that [extractProductUrl] harvests from the
    text of a post, its title or its comments is an absolute URL: it begins
    with [http://] or [https://], which at least one character follows, and
    holds no white space and no closing parenthesis.  The only other
    candidate is the URL of a link post.  So the product URL begins with
    [http] unless it is the URL of a link post, its trailing brackets
    stripped. *)
Theorem candidates_are_absolute :
  forall (post : RedditPost) (comments : list jsstring),
    Forall (fun u => harvested u
                     \/ (Post.is_self post = false /\ u = Post.url post /\ u <> []))
           (allUrls post comments)
    /\ (startsWith (lit "http") (extractProductUrl post comments) = true
        \/ (Post.is_self post = false
            /\ extractProductUrl post comments = clean_trailing (Post.url post))).
Proof.
  intros post comments.
  assert (Hall : Forall (fun u => harvested u
                     \/ (Post.is_self post = false /\ u = Post.url post /\ u <> []))
           (allUrls post comments)).
  { apply Forall_forall. intros u Hin. unfold allUrls in Hin.
    repeat (apply in_app_or in Hin; destruct Hin as [Hin|Hin]).
    - left. exact (markdown_url_harvested _ _ Hin).
    - left. exact (proj1 (plain_url_harvested _ _ Hin)).
    - right. destruct (Post.is_self post); cbn [negb andb] in Hin; [destruct Hin|].
      destruct (Post.url post) as [|c t] eqn:Eu; cbn [truthy_str] in Hin; [destruct Hin|].
      destruct Hin as [<-|[]]. split; [reflexivity|]. split; [reflexivity|discriminate].
    - left. exact (proj1 (title_url_harvested _ _ Hin)).
    - left. apply in_flat_map in Hin. destruct Hin as (comment & _ & Hin).
      apply in_app_or in Hin. destruct Hin as [Hin|Hin].
      + exact (markdown_url_harvested _ _ Hin).
      + exact (proj1 (plain_url_harvested _ _ Hin)). }
  split; [exact Hall|].
  rewrite Forall_forall in Hall.
  assert (Hsel : forall u v, In v (allUrls post comments) -> u = clean_trailing v ->
            startsWith (lit "http") u = true
            \/ (Post.is_self post = false /\ u = clean_trailing (Post.url post))).
  { intros u v Hv ->. destruct (Hall v Hv) as [Hh|(Hs & -> & _)].
    - left. apply harvested_clean_trailing. exact Hh.
    - right. split; [exact Hs|reflexivity]. }
  unfold extractProductUrl.
  destruct (first_pass (allUrls post comments)) as [u|] eqn:E1.
  - destruct (first_pass_some _ E1) as (v & Hv & _ & Hu). exact (Hsel u v Hv Hu).
  - destruct (second_pass (allUrls post comments)) as [u|] eqn:E2.
    + destruct (second_pass_some _ E2) as (v & Hv & _ & Hu). exact (Hsel u v Hv Hu).
    + left. reflexivity.
Qed.

(* ================================================================= *)
(** * The dollar sign *)

Lemma char_eq_low (p c : N) : (p < 65)%N -> char_eq true p c = char_eq false p c.
Proof.
  intros Hp. unfold char_eq.
  rewrite (proj1 (canonicalize_low p) Hp).
  destruct (N.eqb_spec p c) as [->|Hne].
  - rewrite (proj1 (canonicalize_low c) Hp). apply N.eqb_refl.
  - apply N.eqb_neq. intros E. apply Hne.
    assert (Hc : (canonicalize c < 65)%N) by (rewrite <- E; exact Hp).
    rewrite (proj2 (canonicalize_low c) Hc) in E. exact E.
Qed.

(** A pattern whose atoms do not depend on the [i] flag matches the same
    with and without it. *)
Lemma rep_match_caseless (a : atom) (greedy : bool) (cp : list (nat * jsstring))
    (k k' : cont) :
  caseless a -> (forall st, k st = k' st) ->
  forall rs mn mx sn,
    rep_match true a greedy mn mx sn rs cp k
    = rep_match false a greedy mn mx sn rs cp k'.
Proof.
  intros Ha Hk. induction rs as [|c t IH]; intros mn mx sn.
  - rewrite (@rep_match_eq true a greedy mn mx sn [] cp k),
      (@rep_match_eq false a greedy mn mx sn [] cp k').
    cbv zeta. rewrite Hk. reflexivity.
  - rewrite (@rep_match_eq true a greedy mn mx sn (c :: t) cp k),
      (@rep_match_eq false a greedy mn mx sn (c :: t) cp k').
    cbv zeta. rewrite Ha, Hk.
    rewrite (IH (pred mn) (option_map pred mx) (c :: sn)). reflexivity.
Qed.

Lemma rmatch_caseless (r : regex) :
  every_atom caseless r ->
  forall (st : mstate) (k k' : cont),
    (forall s, k s = k' s) ->
    rmatch true r st k = rmatch false r st k'.
Proof.
  induction r as [|a|r1 IH1 r2 IH2|r1 IH1 r2 IH2|a mn mx g|r1 IH1|i r1 IH1| | |a];
    cbn [every_atom]; intros Hr st k k' Hk; cbn [rmatch].
  - apply Hk.
  - destruct (rest st) as [|c t]; [reflexivity|]. rewrite Hr, Hk. reflexivity.
  - destruct Hr as [H1 H2]. apply (IH1 H1). intros s. apply (IH2 H2). exact Hk.
  - destruct Hr as [H1 H2]. rewrite (IH1 H1 st k k' Hk), (IH2 H2 st k k' Hk). reflexivity.
  - apply rep_match_caseless; assumption.
  - rewrite (IH1 Hr st k k' Hk), Hk. reflexivity.
  - apply (IH1 Hr). intros s. apply Hk.
  - rewrite Hk. reflexivity.
  - rewrite Hk. reflexivity.
  - destruct (seen st) as [|c t]; [apply Hk|]. rewrite Hr, Hk. reflexivity.
Qed.

(** A position at which an attempt succeeds is found by the scan, unless an
    earlier one is. *)
Lemma scan_complete icase (r : regex) (rs' : list N) (st : mstate) :
  forall pre sn,
    attempt icase r (rev pre ++ sn) rs' = Some st ->
    exists m, scan icase r sn (pre ++ rs') = Some m.
Proof.
  induction pre as [|c pre IH]; intros sn Ha.
  - cbn [rev app] in *. destruct rs'; cbn [scan]; rewrite Ha; eauto.
  - cbn [app scan]. destruct (attempt icase r sn (c :: pre ++ rs')); [eauto|].
    apply IH. cbn [rev] in Ha. rewrite <- app_assoc in Ha. exact Ha.
Qed.

(** The amount of the currency patterns does not depend on the [i] flag. *)
Lemma amount_caseless : every_atom caseless (cat [star ASpace; amount]).
Proof.
  assert (Hdc : caseless digits_commas).
  { intros c. cbn [atom_matches digits_commas existsb item_matches].
    rewrite (@char_eq_low (ch ",") c) by (vm_compute; reflexivity). reflexivity. }
  assert (Hdot : caseless (AChar (ch "."))).
  { intros c. cbn [atom_matches].
    apply char_eq_low. vm_compute. reflexivity. }
  cbn. repeat split; auto; intros c; reflexivity.
Qed.

(** Wherever a pattern [X$ amount] with the [i] flag matches, so does the
    pattern [$ amount] of the US dollar. *)
Lemma dollar_shadow (letter : N) (text : jsstring) (m : match_result) :
  str_match text (re_i (cat [units [letter; ch "$"]; star ASpace; amount])) = Some m ->
  exists m', str_match text (re (cat [chr "$"; star ASpace; amount])) = Some m'.
Proof.
  unfold str_match, exec, input_of, output_of.
  cbn [re re_i unicode ignoreCase pattern].
  destruct (scan true _ [] text) as [m0|] eqn:E; [|discriminate]. intros _.
  apply scan_found in E. destruct E as (sn' & rs' & st & Ha & Hpos & _).
  unfold attempt in Ha.
  change (cat [units [letter; ch "$"]; star ASpace; amount])
    with (Seq (units [letter; ch "$"]) (cat [star ASpace; amount])) in Ha.
  cbn [rmatch] in Ha. rewrite units_match in Ha. cbn [rest seen caps] in Ha.
  destruct (starts true [letter; ch "$"] rs') eqn:Hs; [|discriminate].
  destruct rs' as [|c1 [|c2 rs'']]; cbn [starts] in Hs;
    try (rewrite ?andb_false_r in Hs; discriminate).
  apply andb_true_iff in Hs. destruct Hs as [_ Hs]. rewrite andb_true_r in Hs.
  rewrite (@char_eq_low (ch "$") c2) in Hs by (vm_compute; reflexivity).
  cbn [char_eq] in Hs. apply N.eqb_eq in Hs. subst c2.
  cbn [length firstn skipn rev app] in Ha.
  rewrite (@rmatch_caseless _ amount_caseless _ Some Some (fun s => eq_refl)) in Ha.
  assert (Hd : attempt false (cat [chr "$"; star ASpace; amount])
                       (rev [c1] ++ rev (rev sn')) (ch "$" :: rs'') = Some st).
  { unfold attempt.
    change (cat [chr "$"; star ASpace; amount])
      with (Seq (chr "$") (cat [star ASpace; amount])).
    unfold chr at 1. cbn [rmatch rest seen caps atom_matches char_eq].
    rewrite N.eqb_refl, rev_involutive. exact Ha. }
  rewrite <- rev_app_distr, <- (app_nil_r (rev (rev sn' ++ [c1]))) in Hd.
  apply scan_complete in Hd. destruct Hd as [m' Hm'].
  cbn [rev app] in Hpos. rewrite <- Hpos.
  replace (rev sn' ++ c1 :: ch "$" :: rs'') with ((rev sn' ++ [c1]) ++ ch "$" :: rs'')
    by (rewrite <- app_assoc; reflexivity).
  rewrite Hm'. eauto.
Qed.

Lemma price_in_head (text currency : jsstring) (p : RegExp) (ps : list RegExp)
    (m : match_result) :
  str_match text p = Some m ->
  noise (amount_of 1 m)
  \/ price_in text currency (p :: ps)
     = Some {| Price.price := Some (amount_of 1 m); Price.currency := currency |}.
Proof.
  intros Hm. cbn [price_in]. rewrite Hm. cbv zeta. unfold noise.
  destruct (isNaN (amount_of 1 m)); [auto|].
  destruct (lt zero (amount_of 1 m)); [|auto].
  destruct (lt (amount_of 1 m) (of_Z 10000000)); [|auto].
  right. reflexivity.
Qed.

(** X14. The dollar sign alone decides for USD.  Wherever a price is
    written [C$] or [A$], the pattern of the US dollar matches the text as
    well, and its leftmost match comes first: unless the amount of that
    match is noise, [extractPriceWithCurrency] returns it with the currency
    USD, so CAD and AUD are reached from these two patterns only when the
    leftmost dollar amount is rejected. *)
Theorem dollar_sign_is_usd :
  forall (text : jsstring) (m : match_result),
    str_match text (re_i (cat [word "C$"; star ASpace; amount])) = Some m
    \/ str_match text (re_i (cat [word "A$"; star ASpace; amount])) = Some m ->
    exists m',
      str_match text (re (cat [chr "$"; star ASpace; amount])) = Some m'
      /\ (noise (amount_of 1 m')
          \/ extractPriceWithCurrency text
             = {| Price.price := Some (amount_of 1 m'); Price.currency := lit "USD" |}).
Proof.
  intros text m H.
  assert (Hd : exists m', str_match text (re (cat [chr "$"; star ASpace; amount])) = Some m').
  { destruct H as [H|H].
    - exact (@dollar_shadow (ch "C") text m H).
    - exact (@dollar_shadow (ch "A") text m H). }
  destruct Hd as [m' Hm']. exists m'. split; [exact Hm'|].
  destruct (@price_in_head text (lit "USD") _ [] m' Hm') as [Hn|Hp]; [left; exact Hn|].
  right. unfold extractPriceWithCurrency, CURRENCY_PATTERNS.
  cbn [price_among]. rewrite Hp. reflexivity.
Qed.

Lemma dollar_sign_is_usd_witness :
  let text := lit "Maple syrup C$ 50 today" in
  str_match text (re_i (cat [word "C$"; star ASpace; amount]))
  = Some {| before := lit "Maple syrup "; matched := lit "C$ 50";
            groups := [(1, lit "50")]; after := lit " today" |}
  /\ extractPriceWithCurrency text
     = {| Price.price := Some (of_Z 50); Price.currency := lit "USD" |}.
Proof.
  intros text.
  assert (E : str_match text (re_i (cat [word "C$"; star ASpace; amount]))
              = Some {| before := lit "Maple syrup "; matched := lit "C$ 50";
                        groups := [(1, lit "50")]; after := lit " today" |})
    by (vm_compute; reflexivity).
  split; [exact E|].
  destruct (dollar_sign_is_usd text (or_introl E)) as (m' & Hm' & Hres).
  assert (Em' : str_match text (re (cat [chr "$"; star ASpace; amount]))
                = Some {| before := lit "Maple syrup C"; matched := lit "$ 50";
                          groups := [(1, lit "50")]; after := lit " today" |})
    by (vm_compute; reflexivity).
  pose proof (eq_trans (eq_sym Hm') Em') as Em.
  apply (f_equal (fun o => match o with Some v => v | None => m' end)) in Em.
  cbv beta iota in Em. subst m'.
  destruct Hres as [Hn|Hr].
  - exfalso. vm_compute in Hn. destruct Hn as [Hn|[Hn|Hn]]; discriminate.
  - rewrite Hr. vm_compute. reflexivity.
Defined.

(* ================================================================= *)
(** * Trimmed titles *)

Lemma trimStart_unspaced (s : jsstring) : unspaced (trimStart s) = true.
Proof.
  induction s as [|c t IH]; [reflexivity|]. cbn [trimStart].
  destruct (is_space c) eqn:E; [exact IH|]. cbn [unspaced]. rewrite E. reflexivity.
Qed.

Lemma trimStart_fixed (s : jsstring) : unspaced s = true -> trimStart s = s.
Proof.
  destruct s as [|c t]; [reflexivity|]. cbn [unspaced trimStart].
  intros H. apply negb_true_iff in H. rewrite H. reflexivity.
Qed.

Lemma trimStart_snoc (c : N) (l : jsstring) :
  is_space c = false -> exists x, trimStart (l ++ [c]) = x ++ [c].
Proof.
  intros Hc. induction l as [|a l IH]; cbn [app trimStart].
  - rewrite Hc. exists []. reflexivity.
  - destruct (is_space a); [exact IH|]. exists (a :: l). reflexivity.
Qed.

(** A text is its own [trim] exactly when neither end is white space, and
    the [trim] of a text is such a text. *)
Lemma trim_fixed (s : jsstring) :
  unspaced s = true -> unspaced (rev s) = true -> trim s = s.
Proof.
  intros H1 H2. unfold trim, trimEnd.
  rewrite (@trimStart_fixed s H1), (@trimStart_fixed (rev s) H2). apply rev_involutive.
Qed.

Lemma trim_unspaced (s : jsstring) :
  unspaced (trim s) = true /\ unspaced (rev (trim s)) = true.
Proof.
  unfold trim, trimEnd. split.
  - pose proof (trimStart_unspaced s) as H.
    destruct (trimStart s) as [|c t]; [reflexivity|].
    cbn [unspaced] in H. apply negb_true_iff in H.
    cbn [rev]. destruct (@trimStart_snoc c (rev t) H) as [x ->].
    rewrite rev_app_distr. cbn [rev app unspaced]. rewrite H. reflexivity.
  - rewrite rev_involutive. apply trimStart_unspaced.
Qed.

Lemma is_space_cases (c : N) :
  is_space c = true ->
  (9 <= c <= 13 \/ c = 32 \/ c = 0xA0 \/ c = 0x1680 \/ 0x2000 <= c <= 0x200A
   \/ c = 0x2028 \/ c = 0x2029 \/ c = 0x202F \/ c = 0x205F \/ c = 0x3000
   \/ c = 0xFEFF)%N.
Proof.
  unfold is_space, between. intros H.
  repeat match type of H with
         | (_ || _) = true => apply orb_true_iff in H; destruct H as [H|H]
         end;
    repeat match goal with
           | H : (_ && _) = true |- _ => apply andb_true_iff in H; destruct H
           | H : (_ <=? _)%N = true |- _ => apply N.leb_le in H
           | H : (_ =? _)%N = true |- _ => apply N.eqb_eq in H
           end; lia.
Qed.

Lemma is_space_points (c : N) : is_space c = true -> In c space_points.
Proof.
  intros H. apply is_space_cases in H. unfold space_points.
  assert (Hr1 : (9 <= c <= 13 -> c = 9 \/ c = 10 \/ c = 11 \/ c = 12 \/ c = 13)%N) by lia.
  assert (Hr2 : (0x2000 <= c <= 0x200A ->
                 c = 0x2000 \/ c = 0x2001 \/ c = 0x2002 \/ c = 0x2003 \/ c = 0x2004
                 \/ c = 0x2005 \/ c = 0x2006 \/ c = 0x2007 \/ c = 0x2008
                 \/ c = 0x2009 \/ c = 0x200A)%N) by lia.
  destruct H as [H|[H|[H|[H|[H|[H|[H|[H|[H|[H|H]]]]]]]]]];
    try apply Hr1 in H; try apply Hr2 in H;
    repeat (destruct H as [H|H]);
    subst c; cbn [In]; repeat (first [left; reflexivity|right]).
Qed.

(** The upper case of a character that is no white space does not begin
    with white space. *)
Lemma toUpperCase_unit_unspaced (c : N) :
  is_space c = false -> unspaced (toUpperCase_unit c) = true.
Proof.
  intros Hc.
  assert (Hs : forallb (fun row => unspaced (snd row)) upper_special = true)
    by (vm_compute; reflexivity).
  assert (Hr : forallb (fun row => let '(first, last, _, upper) := row in
                          forallb (fun s => (s <? upper) || (upper + (last - first) <? s))%N
                                  space_points)
                       upper_ranges = true)
    by (vm_compute; reflexivity).
  rewrite forallb_forall in Hs, Hr.
  unfold toUpperCase_unit.
  destruct (toUpperCase_point_cases c)
    as [(u & Hin & _ & ->)|[(f & l & st & t & Hin & Hb & _ & _ & ->)| ->]].
  - exact (Hs (c, u) Hin).
  - cbn [unspaced]. apply negb_true_iff.
    destruct (is_space (t + (c - f))) eqn:E; [exfalso|reflexivity].
    apply is_space_points in E.
    specialize (Hr (f, l, st, t) Hin). cbv beta iota in Hr.
    rewrite forallb_forall in Hr. specialize (Hr _ E).
    apply orb_true_iff in Hr. destruct Hr as [Hr|Hr]; apply N.ltb_lt in Hr; lia.
  - cbn [unspaced]. rewrite Hc. reflexivity.
Qed.

(** X8. The title [cleanTitle] returns has no white space at either end:
    trimming it changes nothing, whichever of the two branches produced
    it. *)
Theorem cleanTitle_is_trimmed :
  forall title : jsstring, trim (cleanTitle title) = cleanTitle title.
Proof.
  intros title.
  destruct (cleanTitle_cases title) as [[_ ->]|(Hge & -> & _)].
  - destruct (trim_unspaced title) as [H1 H2]. apply trim_fixed; assumption.
  - unfold cleaned_title in *. cbv zeta in *.
    set (s6 := replace_all _ spaceRuns _) in *.
    destruct (trim_unspaced s6) as [H1 H2].
    destruct (trim s6) as [|c t] eqn:Et; [cbn in Hge; lia|].
    assert (Ht : t <> []) by (intros ->; cbn in Hge; lia).
    cbn [unspaced] in H1. apply negb_true_iff in H1.
    unfold charAt0, slice_from. cbn [firstn skipn toUpperCase].
    apply trim_fixed.
    + pose proof (@toUpperCase_unit_unspaced c H1) as Hu.
      pose proof (toUpperCase_unit_nonempty c) as Hne.
      destruct (toUpperCase_unit c) as [|u us]; [congruence|]. exact Hu.
    + rewrite rev_app_distr. cbn [rev] in H2.
      destruct (rev t) as [|z zs] eqn:Er.
      * exfalso. apply Ht. rewrite <- (rev_involutive t), Er. reflexivity.
      * exact H2.
Qed.

(* ================================================================= *)
(** * Whole amounts *)

Lemma span_digits_all (ds : jsstring) :
  Forall (fun c => is_digit c = true) ds -> span_digits ds = (ds, []).
Proof.
  induction 1 as [|c t Hc _ IH]; [reflexivity|].
  cbn [span_digits]. rewrite Hc, IH. reflexivity.
Qed.

Lemma digits_value_nonneg (ds : jsstring) :
  Forall (fun c => is_digit c = true) ds -> (0 <= digits_value ds)%Z.
Proof.
  intros Hall. unfold digits_value.
  assert (H : forall acc, (0 <= acc)%Z ->
            (0 <= fold_left (fun acc d => 10 * acc + (Z.of_N d - 48)) ds acc)%Z).
  { induction Hall as [|d ds Hd _ IH]; intros acc Hacc; [exact Hacc|].
    cbn [fold_left]. apply IH.
    unfold is_digit, between in Hd. apply andb_true_iff in Hd.
    destruct Hd as [Hd _]. apply N.leb_le in Hd. lia. }
  apply H. lia.
Qed.

(** [parseFloat] of a run of digits is the whole number they denote, and
    NaN when the run is empty. *)
Lemma parseFloat_digits (ds : jsstring) :
  Forall (fun c => is_digit c = true) ds ->
  parseFloat ds = match ds with
                  | [] => NaN
                  | _ => of_Z (digits_value ds)
                  end.
Proof.
  intros Hall. unfold parseFloat.
  assert (Hsign : split_sign (trimStart ds) = (false, ds)).
  { destruct Hall as [|c t Hc _]; [reflexivity|].
    apply is_digit_cases in Hc. cbn [In] in Hc.
    repeat (destruct Hc as [<-|Hc]; [reflexivity|]). destruct Hc. }
  rewrite Hsign.
  assert (Hinf : startsWith (lit "Infinity") ds = false).
  { destruct Hall as [|c t Hc _]; [reflexivity|].
    apply is_digit_cases in Hc. cbn [In] in Hc.
    repeat (destruct Hc as [<-|Hc]; [reflexivity|]). destruct Hc. }
  rewrite Hinf, (span_digits_all Hall), app_nil_r.
  destruct ds as [|c t]; [reflexivity|].
  pose proof (digits_value_nonneg Hall) as Hn.
  cbn [exponent_part length Z.of_nat Z.sub Z.opp Z.add].
  unfold decimal, of_Z. destruct (digits_value (c :: t)) as [|n|n] eqn:E.
  - reflexivity.
  - cbn [Z.leb Z.compare]. rewrite Z.pow_0_r, Z.mul_1_r. reflexivity.
  - lia.
Qed.

(** X15. The pair mode reads whole amounts only: when [extractPrices]
    reports an original price, both prices are the values of runs of
    digits, the commas left out, so the cents of a price written with a
    decimal point are never part of it. *)
Theorem extractPrices_pair_whole :
  forall (text : jsstring) (o : number),
    Prices.originalPrice (extractPrices text) = Some o ->
    exists dealDigits originalDigits : jsstring,
      dealDigits <> [] /\ originalDigits <> []
      /\ Forall (fun c => is_digit c = true) dealDigits
      /\ Forall (fun c => is_digit c = true) originalDigits
      /\ Prices.dealPrice (extractPrices text) = Some (of_Z (digits_value dealDigits))
      /\ o = of_Z (digits_value originalDigits).
Proof.
  intros text o. unfold extractPrices.
  destruct (pair_among text dealPatterns) as [r|] eqn:E; [|discriminate].
  apply pair_among_found in E.
  destruct E as (p & c & m & Hin & Em & H1 & H2 & ->).
  cbn [Prices.dealPrice Prices.originalPrice]. intros Ho. inversion Ho; subst o; clear Ho.
  pose proof (@pair_amount_digits text p c m 1 Hin Em) as D1.
  pose proof (@pair_amount_digits text p c m 2 Hin Em) as D2.
  unfold amount_of in *.
  set (d1 := replace_all (group 1 m) comma []) in *.
  set (d2 := replace_all (group 2 m) comma []) in *.
  assert (N1 : d1 <> []) by (intros F; rewrite F in H1; discriminate).
  assert (N2 : d2 <> []) by (intros F; rewrite F in H2; discriminate).
  assert (P1 : parseFloat d1 = of_Z (digits_value d1)).
  { rewrite (parseFloat_digits D1). destruct d1; [contradiction|reflexivity]. }
  assert (P2 : parseFloat d2 = of_Z (digits_value d2)).
  { rewrite (parseFloat_digits D2). destruct d2; [contradiction|reflexivity]. }
  destruct (Math_min_max _ _ H1 H2) as [_ [[-> ->]|[-> ->]]].
  - exists d1, d2. rewrite P1, P2. auto 10.
  - exists d2, d1. rewrite P1, P2. auto 10.
Qed.

Lemma extractPrices_pair_whole_witness :
  let prices := extractPrices (lit "$19.99 (was $29.99)") in
  Prices.originalPrice prices = Some (of_Z 29)
  /\ Prices.dealPrice prices = Some (of_Z 19)
  /\ exists dealDigits originalDigits : jsstring,
       dealDigits <> [] /\ originalDigits <> []
       /\ Forall (fun c => is_digit c = true) dealDigits
       /\ Forall (fun c => is_digit c = true) originalDigits
       /\ Prices.dealPrice prices = Some (of_Z (digits_value dealDigits))
       /\ of_Z 29 = of_Z (digits_value originalDigits).
Proof.
  intros prices.
  assert (Eo : Prices.originalPrice prices = Some (of_Z 29)) by (vm_compute; reflexivity).
  assert (Ed : Prices.dealPrice prices = Some (of_Z 19)) by (vm_compute; reflexivity).
  split; [exact Eo|]. split; [exact Ed|].
  exact (extractPrices_pair_whole (lit "$19.99 (was $29.99)") Eo).
Defined.

(* ================================================================= *)
(** * The image of a deal *)

(** [fetchOgImage] returns null or a non-empty URL. *)
Lemma fetchOgImage_cases
    (fetch : jsstring -> outcome Response)
    (og_image twitter_image : jsstring -> outcome (option jsstring))
    (url : jsstring) :
  fetchOgImage fetch og_image twitter_image url = Returns None
  \/ exists u, u <> []
               /\ fetchOgImage fetch og_image twitter_image url = Returns (Some u).
Proof.
  unfold fetchOgImage.
  destruct (fetch url) as [response|]; cbn [bind try_catch]; [|auto].
  destruct (ok response); cbn [negb]; [|auto].
  destruct (text response) as [html|]; cbn [bind try_catch]; [|auto].
  destruct (og_image html) as [v|]; cbn [bind try_catch]; [|auto].
  assert (Hlast : forall w : option jsstring,
            Returns (if truthy_ostr w then w else None) = Returns None
            \/ exists u, u <> []
                 /\ Returns (if truthy_ostr w then w else None) = Returns (Some u)).
  { intros [[|c t]|]; cbn [truthy_ostr truthy_str]; auto.
    right. exists (c :: t). split; [discriminate|reflexivity]. }
  destruct (truthy_ostr v); cbn [negb bind try_catch]; [apply Hlast|].
  destruct (twitter_image html) as [w|]; cbn [bind try_catch]; [apply Hlast|auto].
Qed.

(** X9. [fetchOgImage] returns a URL exactly on the successful path: the
    request returns a response that is [ok], its body can be read, and the
    markup gives a non-empty [og:image] or, when [og:image] is missing or
    empty, a non-empty [twitter:image].  The URL returned is that of
    [og:image] whenever there is one. *)
Theorem fetchOgImage_success :
  forall (fetch : jsstring -> outcome Response)
         (og_image twitter_image : jsstring -> outcome (option jsstring))
         (url u : jsstring),
    fetchOgImage fetch og_image twitter_image url = Returns (Some u)
    <-> exists response html,
          fetch url = Returns response /\ ok response = true
          /\ text response = Returns html /\ u <> []
          /\ (og_image html = Returns (Some u)
              \/ exists v, og_image html = Returns v /\ truthy_ostr v = false
                           /\ twitter_image html = Returns (Some u)).
Proof.
  intros fetch og_image twitter_image url u.
  assert (Hlast : forall w : option jsstring,
            Returns (if truthy_ostr w then w else None) = Returns (Some u)
            <-> w = Some u /\ u <> []).
  { intros [[|c t]|]; cbn [truthy_ostr truthy_str]; split.
    - discriminate.
    - intros [E Hne]. inversion E; subst. contradiction.
    - intros E. inversion E; subst. split; [reflexivity|discriminate].
    - intros [E _]. rewrite E. reflexivity.
    - discriminate.
    - intros [E _]. discriminate. }
  unfold fetchOgImage. split.
  - destruct (fetch url) as [response|] eqn:Ef; cbn [bind try_catch]; [|discriminate].
    destruct (ok response) eqn:Eo; cbn [negb]; [|discriminate].
    destruct (text response) as [html|] eqn:Et; cbn [bind try_catch]; [|discriminate].
    destruct (og_image html) as [v|] eqn:Eg; cbn [bind try_catch]; [|discriminate].
    destruct (truthy_ostr v) eqn:Ev; cbn [negb bind try_catch].
    + intros H. apply Hlast in H. destruct H as [-> Hne].
      exists response, html. auto 10.
    + destruct (twitter_image html) as [w|] eqn:Ew; cbn [bind try_catch]; [|discriminate].
      intros H. apply Hlast in H. destruct H as [-> Hne].
      exists response, html. split; [reflexivity|]. split; [exact Eo|].
      split; [exact Et|]. split; [exact Hne|]. right. exists v. auto.
  - intros (response & html & Ef & Eo & Et & Hne & Himg).
    rewrite Ef. cbn [bind try_catch]. rewrite Eo. cbn [negb]. rewrite Et.
    cbn [bind try_catch].
    assert (Hu : truthy_ostr (Some u) = true).
    { destruct u; [contradiction|reflexivity]. }
    destruct Himg as [Eg|(v & Eg & Ev & Ew)]; rewrite Eg; cbn [bind try_catch].
    + rewrite Hu. cbn [negb bind try_catch]. rewrite Hu. reflexivity.
    + rewrite Ev. cbn [negb bind try_catch]. rewrite Ew. cbn [bind try_catch].
      rewrite Hu. reflexivity.
Qed.

(** X10. [extractImageUrl] consults the network only when the post's own
    image is missing or is served by Reddit's proxies and the product URL
    is an external one: otherwise the result is the post's own image
    whatever the network does.  The result is always the post's own image
    or a non-empty URL that [fetchOgImage] returned for the product URL, so
    an image the post has is never replaced by nothing. *)
Theorem extractImageUrl_choice :
  forall (post : RedditPost) (productUrl : jsstring),
    let own := own_image post in
    let wanting :=
      negb (truthy_ostr own)
      || match own with
         | Some u => includes (lit "external-preview") u || includes (lit "redditmedia") u
         | None => false
         end in
    (wanting && isProductUrl productUrl = false ->
     forall fetch og_image twitter_image,
       extractImageUrl fetch og_image twitter_image post productUrl = Returns own)
    /\ (forall fetch og_image twitter_image,
          exists img,
            extractImageUrl fetch og_image twitter_image post productUrl = Returns img
            /\ (img = own
                \/ (truthy_ostr img = true
                    /\ fetchOgImage fetch og_image twitter_image productUrl = Returns img))
            /\ (truthy_ostr own = true -> truthy_ostr img = true)).
Proof.
  intros post productUrl own wanting. subst own wanting. split.
  - intros Hoff fetch og_image twitter_image. unfold extractImageUrl.
    cbv zeta. rewrite Hoff. reflexivity.
  - intros fetch og_image twitter_image. unfold extractImageUrl. cbv zeta.
    destruct (_ && isProductUrl productUrl).
    + destruct (fetchOgImage_cases fetch og_image twitter_image productUrl)
        as [E|(u & Hne & E)]; rewrite E; cbn [bind truthy_ostr].
      * eexists. split; [reflexivity|]. split; [left; reflexivity|auto].
      * assert (Hu : truthy_str u = true) by (destruct u; [contradiction|reflexivity]).
        rewrite Hu. eexists. split; [reflexivity|].
        split; [right; split; [exact Hu|reflexivity]|auto].
    + eexists. split; [reflexivity|]. split; [left; reflexivity|auto].
Qed.

Lemma extractImageUrl_choice_witness :
  let post := sony_post (lit "/r/deals/comments/abc") None None in
  let productUrl := lit "https://reddit.com/r/deals/comments/abc" in
  let thumbed :=
    sony_post (lit "/r/deals/comments/abc") None
              (Some (lit "http://b.thumbs.redditmedia.com/x.jpg")) in
  isProductUrl productUrl = false
  /\ extractImageUrl fetch_fails no_meta no_meta post productUrl = Returns None
  /\ extractImageUrl (fun _ => Returns {| ok := true; text := Returns [] |})
                     (fun _ => Returns (Some (lit "http://cdn.example.com/a.png")))
                     no_meta post productUrl = Returns None
  /\ truthy_ostr (own_image thumbed) = true
  /\ exists img,
       extractImageUrl fetch_fails no_meta no_meta thumbed (lit "http://amazon.com/dp/xyz")
       = Returns img
       /\ truthy_ostr img = true.
Proof.
  intros post productUrl thumbed.
  assert (Hp : isProductUrl productUrl = false) by (vm_compute; reflexivity).
  destruct (extractImageUrl_choice post productUrl) as [Hoff _].
  assert (Hw : (negb (truthy_ostr (own_image post))
                || match own_image post with
                   | Some u => includes (lit "external-preview") u
                               || includes (lit "redditmedia") u
                   | None => false
                   end) && isProductUrl productUrl = false).
  { rewrite Hp. apply andb_false_r. }
  split; [exact Hp|]. split; [apply (Hoff Hw)|]. split; [apply (Hoff Hw)|].
  assert (Hown : truthy_ostr (own_image thumbed) = true) by (vm_compute; reflexivity).
  split; [exact Hown|].
  destruct (extractImageUrl_choice thumbed (lit "http://amazon.com/dp/xyz")) as [_ Hany].
  destruct (Hany fetch_fails no_meta no_meta) as (img & Eimg & _ & Hkeep).
  exists img. split; [exact Eimg|exact (Hkeep Hown)].
Defined.

(* ================================================================= *)
(** * What the network and the comments can change *)

(** Records that differ in the image, or in the link, only. *)
Lemma with_image_record (title : jsstring) (description : option jsstring)
    (originalPrice dealPrice discountPercent : option number)
    (currency productUrl : jsstring) (imageUrl imageUrl' store : option jsstring)
    (categorySlug redditPostId : jsstring) (redditScore : number) :
  let deal img :=
    {| Deal.title := title; Deal.description := description;
       Deal.originalPrice := originalPrice; Deal.dealPrice := dealPrice;
       Deal.discountPercent := discountPercent; Deal.currency := currency;
       Deal.productUrl := productUrl; Deal.imageUrl := img;
       Deal.store := store; Deal.categorySlug := categorySlug;
       Deal.redditPostId := redditPostId; Deal.redditScore := redditScore |} in
  deal imageUrl' = with_image (deal imageUrl) (Deal.imageUrl (deal imageUrl')).
Proof. reflexivity. Qed.

Lemma with_link_record (title : jsstring) (description : option jsstring)
    (originalPrice dealPrice discountPercent : option number)
    (currency productUrl : jsstring) (imageUrl store : option jsstring)
    (categorySlug redditPostId : jsstring) (redditScore : number) :
  let deal url img st :=
    {| Deal.title := title; Deal.description := description;
       Deal.originalPrice := originalPrice; Deal.dealPrice := dealPrice;
       Deal.discountPercent := discountPercent; Deal.currency := currency;
       Deal.productUrl := url; Deal.imageUrl := img;
       Deal.store := st; Deal.categorySlug := categorySlug;
       Deal.redditPostId := redditPostId; Deal.redditScore := redditScore |} in
  Deal.productUrl (deal productUrl imageUrl store) = productUrl
  /\ deal productUrl imageUrl store
     = with_link (deal [] None None)
                 (Deal.productUrl (deal productUrl imageUrl store))
                 (Deal.imageUrl (deal productUrl imageUrl store))
                 (Deal.store (deal productUrl imageUrl store)).
Proof. split; reflexivity. Qed.

(** Two parses of a post with the same comments on two networks: both give
    nothing, or both give a deal and the deals differ in the image only. *)
Lemma parse_two_networks
    (fetch fetch' : jsstring -> outcome Response)
    (og_image twitter_image og_image' twitter_image' : jsstring -> outcome (option jsstring))
    (post : RedditPost) (comments : list jsstring) :
  (parseRedditPost fetch og_image twitter_image post comments = Returns None
   /\ parseRedditPost fetch' og_image' twitter_image' post comments = Returns None)
  \/ (exists d d',
        parseRedditPost fetch og_image twitter_image post comments = Returns (Some d)
        /\ parseRedditPost fetch' og_image' twitter_image' post comments = Returns (Some d')
        /\ d' = with_image d (Deal.imageUrl d')).
Proof.
  destruct (parseRedditPost_unfold fetch og_image twitter_image post comments)
    as (img & _ & ->).
  destruct (parseRedditPost_unfold fetch' og_image' twitter_image' post comments)
    as (img' & _ & ->).
  cbv zeta. destruct (existsb _ skipPatterns); [left; split; reflexivity|].
  destruct (_ && includes _ _); [left; split; reflexivity|].
  right. eexists; eexists. split; [reflexivity|]. split; [reflexivity|].
  apply with_image_record.
Qed.

(** X11. The network decides nothing but the image.  Parsed on two
    networks with the same comments, a post gives no deal on both or a deal
    on both, and the two deals are equal in every field except [imageUrl];
    a batch parsed with the same comment fetcher gives as many deals on
    both, pairwise equal except for the image. *)
Theorem network_changes_image_only :
  forall (fetch fetch' : jsstring -> outcome Response)
         (og_image twitter_image og_image' twitter_image'
            : jsstring -> outcome (option jsstring)),
    (forall post comments,
        (parseRedditPost fetch og_image twitter_image post comments = Returns None
         /\ parseRedditPost fetch' og_image' twitter_image' post comments = Returns None)
        \/ (exists d d',
              parseRedditPost fetch og_image twitter_image post comments
              = Returns (Some d)
              /\ parseRedditPost fetch' og_image' twitter_image' post comments
                 = Returns (Some d')
              /\ d' = with_image d (Deal.imageUrl d')))
    /\ (forall fetchComments posts,
          exists deals deals',
            parseRedditPosts fetch og_image twitter_image fetchComments posts
            = Returns deals
            /\ parseRedditPosts fetch' og_image' twitter_image' fetchComments posts
               = Returns deals'
            /\ Forall2 (fun d d' => d' = with_image d (Deal.imageUrl d')) deals deals').
Proof.
  intros fetch fetch' og_image twitter_image og_image' twitter_image'.
  split; [intros post comments; apply parse_two_networks|].
  intros fetchComments posts. rewrite !parseRedditPosts_contributions.
  eexists; eexists. split; [reflexivity|]. split; [reflexivity|].
  induction posts as [|p ps IH]; cbn [flat_map]; [constructor|].
  apply Forall2_app; [|exact IH].
  unfold parse_guarded.
  destruct fetchComments as [fetcher|]; cbn [bind].
  - destruct (fetcher (Post.id p)) as [comments|]; cbn [bind try_catch contribution];
      [|constructor].
    destruct (parse_two_networks fetch fetch' og_image twitter_image
                og_image' twitter_image' p comments)
      as [[-> ->]|(d & d' & -> & -> & Hd)]; cbn [try_catch contribution].
    + constructor.
    + constructor; [exact Hd|constructor].
  - destruct (parse_two_networks fetch fetch' og_image twitter_image
                og_image' twitter_image' p [])
      as [[-> ->]|(d & d' & -> & -> & Hd)]; cbn [try_catch contribution].
    + constructor.
    + constructor; [exact Hd|constructor].
Qed.

(** X12. The comments decide nothing but the link.  For every post there
    is one record of title, description, prices, discount, currency,
    category, post id and score such that, whatever comments it is parsed
    with, the result is either null or that record completed with a product
    URL, an image and a store; a post whose title is on the denylist gives
    null with all comments. *)
Theorem comments_change_link_only :
  forall (fetch : jsstring -> outcome Response)
         (og_image twitter_image : jsstring -> outcome (option jsstring))
         (post : RedditPost),
  exists core : ParsedDeal,
    forall comments,
      parseRedditPost fetch og_image twitter_image post comments = Returns None
      \/ (existsb (fun pattern => test pattern (Post.title post)) skipPatterns = false
          /\ exists d,
               parseRedditPost fetch og_image twitter_image post comments
               = Returns (Some d)
               /\ Deal.productUrl d = extractProductUrl post comments
               /\ d = with_link core (Deal.productUrl d) (Deal.imageUrl d) (Deal.store d)).
Proof.
  intros fetch og_image twitter_image post.
  set (fullText := Post.title post ++ lit " " ++ Post.selftext post).
  set (prices := extractPrices fullText).
  exists {| Deal.title := cleanTitle (Post.title post);
            Deal.description :=
              if truthy_str (Post.selftext post)
              then Some (slice_to 2000 (Post.selftext post)) else None;
            Deal.originalPrice := Prices.originalPrice prices;
            Deal.dealPrice := Prices.dealPrice prices;
            Deal.discountPercent :=
              extractDiscount fullText (Prices.dealPrice prices)
                              (Prices.originalPrice prices);
            Deal.currency := Prices.currency prices;
            Deal.productUrl := [];
            Deal.imageUrl := None;
            Deal.store := None;
            Deal.categorySlug := detectCategory fullText;
            Deal.redditPostId := Post.id post;
            Deal.redditScore := Post.score post |}.
  intros comments.
  destruct (parseRedditPost_unfold fetch og_image twitter_image post comments)
    as (img & _ & ->).
  cbv zeta. fold fullText. fold prices.
  destruct (existsb _ skipPatterns); [left; reflexivity|].
  destruct (_ && includes _ _); [left; reflexivity|].
  right. split; [reflexivity|]. eexists. split; [reflexivity|].
  apply with_link_record.
Qed.
